(** * autorelease: a shallow embedding of the release orchestration code

    The development follows the TypeScript sources:
    - [src/utils/helpers.ts]      : [calculateNewVersion], [parseSummary], [updateSection];
    - [src/handlers/configService] : [ConfigService] ([loadConfig], [mergeConfigs], [callOpenAI]);
    - [src/handlers/prService.ts] : [PRService] (the two merge handlers and their helpers);
    - [src/events.ts]             : [probotHandler].

    JavaScript strings are sequences of code units; they are modelled as
    lists of 8-bit characters.  Regular expressions of the source are
    embedded as the matchers they denote, each one next to the literal it
    comes from.  JavaScript numbers that hold integers are modelled as [Z];
    this is exact up to [MAX_SAFE_INTEGER]. *)

From Stdlib Require Import String Ascii.
From Stdlib Require Import List ZArith NArith Lia Bool Arith QArith.
Import ListNotations.
Import Corelib.Init.Datatypes.

Local Open Scope list_scope.
Local Open Scope nat_scope.

(* ====================================================================== *)
(** * JavaScript strings *)
(* ====================================================================== *)

Module JS.

Definition str := list ascii.

(** A string literal of the source. *)
Definition lit (s : string) : str := list_ascii_of_string s.

Definition ch (n : nat) : ascii := ascii_of_nat n.

Definition LF : ascii := ch 10.
Definition CR : ascii := ch 13.
Definition DOLLAR : ascii := ch 36.
Definition DQUOTE : ascii := ch 34.

Definition code (c : ascii) : nat := nat_of_ascii c.

Definition ascii_eqb (a b : ascii) : bool := Ascii.eqb a b.

Fixpoint str_eqb (a b : str) : bool :=
  match a, b with
  | [], [] => true
  | x :: a', y :: b' => ascii_eqb x y && str_eqb a' b'
  | _, _ => false
  end.

(** [LineTerminator] of ECMAScript, restricted to 8-bit code units. *)
Definition isLineTerminator (c : ascii) : bool :=
  (code c =? 10) || (code c =? 13).

(** [WhiteSpace] and [LineTerminator]: what [trim] strips and [\s] matches. *)
Definition isSpace (c : ascii) : bool :=
  let n := code c in
  (n =? 9) || (n =? 10) || (n =? 11) || (n =? 12) || (n =? 13) || (n =? 32) || (n =? 160).

(** [\d] *)
Definition isDigit (c : ascii) : bool :=
  let n := code c in (48 <=? n) && (n <=? 57).

Definition digitVal (c : ascii) : Z := Z.of_nat (code c - 48).

Definition isUpperAZ (c : ascii) : bool := let n := code c in (65 <=? n) && (n <=? 90).
Definition isLowerAZ (c : ascii) : bool := let n := code c in (97 <=? n) && (n <=? 122).

(** [toUpperCase] and [toLowerCase]; the source applies them to words made
    of the letters A-Z only, where they are the ASCII case maps. *)
Definition upperChar (c : ascii) : ascii := if isLowerAZ c then ch (code c - 32) else c.
Definition lowerChar (c : ascii) : ascii := if isUpperAZ c then ch (code c + 32) else c.
Definition toUpperCase (s : str) : str := map upperChar s.
Definition toLowerCase (s : str) : str := map lowerChar s.

(** Character comparison under the [i] flag (without [u]): both sides are
    canonicalized with the upper-case map. *)
Definition ci_eqb (a b : ascii) : bool := ascii_eqb (upperChar a) (upperChar b).

(** [s.startsWith(p)] *)
Fixpoint startsWith (p s : str) : bool :=
  match p, s with
  | [], _ => true
  | x :: p', y :: s' => ascii_eqb x y && startsWith p' s'
  | _ :: _, [] => false
  end.

(** The same test for a literal of a regular expression with the [i] flag. *)
Fixpoint startsWith_ci (p s : str) : bool :=
  match p, s with
  | [], _ => true
  | x :: p', y :: s' => ci_eqb x y && startsWith_ci p' s'
  | _ :: _, [] => false
  end.

(** First position at or after offset [i] where [p] occurs in [s];
    [s] is the text from offset [i] on. *)
Fixpoint findFrom (p s : str) (i : nat) : option nat :=
  if startsWith p s then Some i
  else match s with
       | [] => None
       | _ :: s' => findFrom p s' (S i)
       end.

Fixpoint findFrom_ci (p s : str) (i : nat) : option nat :=
  if startsWith_ci p s then Some i
  else match s with
       | [] => None
       | _ :: s' => findFrom_ci p s' (S i)
       end.

(** [s.indexOf(p, from)]; [None] stands for -1. *)
Definition indexOf (s p : str) (from : nat) : option nat :=
  findFrom p (skipn from s) (Nat.min from (length s)).

(** [s.includes(p)] *)
Definition includes (s p : str) : bool :=
  match indexOf s p 0 with Some _ => true | None => false end.

(** [s.slice(a, b)] and [s.substring(a, b)] for [0 <= a <= b]. *)
Definition slice (s : str) (a b : nat) : str := firstn (b - a) (skipn a s).

(** [s.slice(a)] and [s.substring(a)] *)
Definition sliceFrom (s : str) (a : nat) : str := skipn a s.

Fixpoint trimStart (s : str) : str :=
  match s with
  | c :: s' => if isSpace c then trimStart s' else s
  | [] => []
  end.

Definition trimEnd (s : str) : str := rev (trimStart (rev s)).

(** [s.trim()] *)
Definition trim (s : str) : str := trimEnd (trimStart s).

(** [parts.join(sep)] *)
Fixpoint join (sep : str) (parts : list str) : str :=
  match parts with
  | [] => []
  | [p] => p
  | p :: rest => p ++ sep ++ join sep rest
  end.

(** [s.split(c)] for a one-character separator: never empty. *)
Fixpoint split (c : ascii) (s : str) : list str :=
  match s with
  | [] => [[]]
  | x :: s' =>
      if ascii_eqb x c then [] :: split c s'
      else match split c s' with
           | p :: ps => (x :: p) :: ps
           | [] => [[x]]
           end
  end.

(** ** [GetSubstitution]

    [String.prototype.replace] expands the replacement text also when the
    pattern is a string.  With no capture groups the special forms are
    [$$], [$&], [$`] and [$']; every other [$] stands for itself. *)
Fixpoint getSubstitution (matched before after template : str) : str :=
  match template with
  | [] => []
  | c :: t =>
      if ascii_eqb c DOLLAR then
        match t with
        | d :: t' =>
            if ascii_eqb d DOLLAR then DOLLAR :: getSubstitution matched before after t'
            else if ascii_eqb d (ch 38) then matched ++ getSubstitution matched before after t'
            else if ascii_eqb d (ch 96) then before ++ getSubstitution matched before after t'
            else if ascii_eqb d (ch 39) then after ++ getSubstitution matched before after t'
            else c :: getSubstitution matched before after t
        | [] => [c]
        end
      else c :: getSubstitution matched before after t
  end.

(** [s.replace(pattern, replacement)] with a string pattern: the first
    occurrence only. *)
Definition replaceString (s pattern replacement : str) : str :=
  match indexOf s pattern 0 with
  | None => s
  | Some p =>
      let before := firstn p s in
      let after := skipn (p + length pattern) s in
      before ++ getSubstitution pattern before after replacement ++ after
  end.

(** ** Numbers *)

(** A JavaScript number that holds an integer, or [NaN]. *)
Inductive num :=
| NaN
| Int (z : Z).

Definition MAX_SAFE_INTEGER : Z := 2 ^ 53 - 1.

(** [n + 1] *)
Definition succ (n : num) : num :=
  match n with
  | NaN => NaN
  | Int z => Int (z + 1)
  end.

Definition digitChar (d : Z) : ascii := ch (48 + Z.to_nat d).

(** Decimal digits of a non-negative integer, most significant first. *)
Fixpoint digitsOf (fuel : nat) (z : Z) (acc : str) : str :=
  match fuel with
  | O => acc
  | S f =>
      let acc' := digitChar (z mod 10) :: acc in
      if (z / 10 =? 0)%Z then acc' else digitsOf f (z / 10) acc'
  end.

Definition showNat (z : Z) : str := digitsOf (S (Z.to_nat (Z.log2 z))) z [].

(** [String(n)], as a template literal renders a number. *)
Definition show (n : num) : str :=
  match n with
  | NaN => lit "NaN"
  | Int z => if (z <? 0)%Z then ch 45 :: showNat (- z) else showNat z
  end.

(** The value of the longest prefix of decimal digits of [s], after [acc]. *)
Fixpoint digitsValue (acc : Z) (s : str) : Z :=
  match s with
  | c :: s' => if isDigit c then digitsValue (10 * acc + digitVal c) s' else acc
  | [] => acc
  end.

Definition unsignedInt (s : str) : num :=
  match s with
  | c :: _ => if isDigit c then Int (digitsValue 0 s) else NaN
  | [] => NaN
  end.

(** [parseInt(s, 10)]: leading white space is skipped, one sign is read,
    then the longest run of digits; no digit gives [NaN]. *)
Definition parseInt10 (s : str) : num :=
  match trimStart s with
  | c :: s' =>
      if ascii_eqb c (ch 45) then
        match unsignedInt s' with Int z => Int (- z) | NaN => NaN end
      else if ascii_eqb c (ch 43) then unsignedInt s'
      else unsignedInt (c :: s')
  | [] => NaN
  end.

End JS.

Import JS.

(* ====================================================================== *)
(** * Matchers for the regular expressions of the source *)
(* ====================================================================== *)

Module Rx.

(** The characters with a meaning of their own in a pattern
    ([SyntaxCharacter]: [^ $ \ . * + ? ( ) [ ] { } |]). *)
Definition isSyntaxCharacter (c : ascii) : bool :=
  existsb (ascii_eqb c)
    [ch 94; ch 36; ch 92; ch 46; ch 42; ch 43; ch 63; ch 40; ch 41; ch 91; ch 93;
     ch 123; ch 125; ch 124].

(** A text that stands for itself when it is spliced into the source of a
    [new RegExp(...)]: it holds no syntax character.  The matchers below
    that take such a text ([PRText.sectionMatch] for a section name,
    [PRService.stripPrefix] for a prefix) are the expression of the source
    for these texts only, and the statements about them assume it. *)
Definition literal (text : str) : bool :=
  forallb (fun c => negb (isSyntaxCharacter c)) text.

(** Length of a lazy [.*?] that is followed by the literal [stop]: the
    shortest run of characters other than line terminators after which
    [stop] occurs; [None] when a line terminator or the end comes first. *)
Fixpoint lazyDotUntil (stop s : str) : option nat :=
  if startsWith stop s then Some 0
  else match s with
       | [] => None
       | c :: t =>
           if isLineTerminator c then None
           else option_map S (lazyDotUntil stop t)
       end.

(** The characters a greedy [.*] can take: up to the next line terminator. *)
Fixpoint lineRest (s : str) : str :=
  match s with
  | c :: t => if isLineTerminator c then [] else c :: lineRest t
  | [] => []
  end.

(** Last position of [stop] in [s], as offset from [i]. *)
Fixpoint findLast (stop s : str) (i : nat) : option nat :=
  match s with
  | [] => if startsWith stop [] then Some i else None
  | _ :: t =>
      match findLast stop t (S i) with
      | Some j => Some j
      | None => if startsWith stop s then Some i else None
      end
  end.

(** Length of a greedy [.*] that is followed by the literal [stop] (which
    holds no line terminator). *)
Definition greedyDotUntil (stop s : str) : option nat :=
  findLast stop (lineRest s) 0.

(** Length of the maximal run of [\s] at the head of [s]. *)
Fixpoint spaceRun (s : str) : nat :=
  match s with
  | c :: t => if isSpace c then S (spaceRun t) else 0
  | [] => 0
  end.

(** Length of the maximal run of [\d] at the head of [s]. *)
Fixpoint digitRun (s : str) : nat :=
  match s with
  | c :: t => if isDigit c then S (digitRun t) else 0
  | [] => 0
  end.

(** First position of [p] at the start of a line of [s] (flag [m]), as
    offset from [i]; [atStart] tells whether [s] begins a line. *)
Fixpoint findAtLineStart (p s : str) (atStart : bool) (i : nat) : option nat :=
  if atStart && startsWith p s then Some i
  else match s with
       | [] => None
       | c :: t => findAtLineStart p t (isLineTerminator c) (S i)
       end.

(** [/<!--.*?-->\n/] : the length of the first match in [s]. *)
Fixpoint commentLineMatch (s : str) : option nat :=
  let here :=
    if startsWith (lit "<!--") s then
      match lazyDotUntil (lit "-->" ++ [LF]) (skipn 4 s) with
      | Some k => Some (4 + k + 4)
      | None => None
      end
    else None in
  match here with
  | Some n => Some n
  | None => match s with
            | [] => None
            | _ :: t => commentLineMatch t
            end
  end.

(** [/<!-- .*? -->\n?/] at the head of [s]: the length of the match. *)
Definition placeholderAt (s : str) : option nat :=
  if startsWith (lit "<!-- ") s then
    match lazyDotUntil (lit " -->") (skipn 5 s) with
    | Some k =>
        let n := 5 + k + 4 in
        Some (if startsWith [LF] (skipn n s) then S n else n)
    | None => None
    end
  else None.

(** [/<!-- .* -->/] at the head of [s]: the length of the match. *)
Definition commentGreedyAt (s : str) : option nat :=
  if startsWith (lit "<!-- ") s then
    match greedyDotUntil (lit " -->") (skipn 5 s) with
    | Some k => Some (5 + k + 4)
    | None => None
    end
  else None.

(** [s.replace(re, '')] with the flag [g], for an expression whose match
    at the head of a text is given by [matchAt]: [skip] counts the
    characters of the current match still to drop. *)
Fixpoint removeAll (matchAt : str -> option nat) (s : str) (skip : nat) : str :=
  match s with
  | [] => []
  | c :: t =>
      match skip with
      | S k => removeAll matchAt t k
      | O =>
          match matchAt s with
          | Some (S k) => removeAll matchAt t k
          | _ => c :: removeAll matchAt t 0
          end
      end
  end.

End Rx.

(* ====================================================================== *)
(** * src/utils/helpers.ts *)
(* ====================================================================== *)

Module Helpers.

Inductive ReleaseType := major | minor | patch.

(** The [switch] of [calculateNewVersion] on the release type as a string:
    ['major'], ['minor'], and ['patch'] together with [default]. *)
Definition releaseTypeOf (s : str) : ReleaseType :=
  if str_eqb s (lit "major") then major
  else if str_eqb s (lit "minor") then minor
  else patch.

(** [versionParts[i] || '0'] *)
Definition partOrZero (versionParts : list str) (i : nat) : str :=
  match nth_error versionParts i with
  | Some (c :: p) => c :: p
  | _ => lit "0"
  end.

Definition DOT : str := lit ".".

Definition calculateNewVersion (currentVersion : str) (releaseType : ReleaseType) : str :=
  let versionParts := split (ch 46) currentVersion in
  let major_ := parseInt10 (partOrZero versionParts 0) in
  let minor_ := parseInt10 (partOrZero versionParts 1) in
  let patch_ := parseInt10 (partOrZero versionParts 2) in
  match releaseType with
  | major => show (succ major_) ++ lit ".0.0"
  | minor => show major_ ++ DOT ++ show (succ minor_) ++ lit ".0"
  | patch => show major_ ++ DOT ++ show minor_ ++ DOT ++ show (succ patch_)
  end.

Definition FEATURES_SECTION : str := lit "New Features".
Definition BUGS_SECTION : str := lit "Bugs / Improvements".

Record SummarySection := { type : str; bullets : list str }.

(** The lookahead [(?=\s*Bugs / Improvements|$)] under the flag [i]. *)
Definition beforeBugs (s : str) : bool :=
  startsWith_ci BUGS_SECTION (trimStart s) ||
  match s with [] => true | _ => false end.

(** Length of the lazy [[\s\S]*?] in front of that lookahead. *)
Fixpoint lazyBeforeBugs (s : str) : nat :=
  if beforeBugs s then 0
  else match s with
       | [] => 0
       | _ :: t => S (lazyBeforeBugs t)
       end.

(** [aiSummary.match(featuresSectionRegex)[0]] *)
Definition featuresMatch (aiSummary : str) : option str :=
  match findFrom_ci FEATURES_SECTION aiSummary 0 with
  | None => None
  | Some i =>
      let n := length FEATURES_SECTION in
      let rest := skipn (i + n) aiSummary in
      Some (firstn (n + lazyBeforeBugs rest) (skipn i aiSummary))
  end.

(** [aiSummary.match(bugsSectionRegex)[0]] *)
Definition bugsMatch (aiSummary : str) : option str :=
  match findFrom_ci BUGS_SECTION aiSummary 0 with
  | None => None
  | Some i => Some (skipn i aiSummary)
  end.

(** The loop over [/^[-*]\s+(.+)$/gm]: the scanner is in one of four
    places of the expression. *)
Inductive BulletScan :=
| Idle (atLineStart : bool)
| Marker
| Spaces
| Group (acc : str).

Definition isMarker (c : ascii) : bool := ascii_eqb c (ch 45) || ascii_eqb c (ch 42).

(** [if (match[1] && match[1].trim()) bullets.push(match[1].trim())] *)
Definition pushBullet (group : str) (rest : list str) : list str :=
  match trim group with
  | [] => rest
  | b => b :: rest
  end.

Fixpoint scanBullets (st : BulletScan) (s : str) : list str :=
  match s with
  | [] => match st with Group acc => pushBullet acc [] | _ => [] end
  | c :: t =>
      match st with
      | Idle atStart =>
          if atStart && isMarker c then scanBullets Marker t
          else scanBullets (Idle (isLineTerminator c)) t
      | Marker =>
          if isSpace c then scanBullets Spaces t
          else scanBullets (Idle false) t
      | Spaces =>
          if isSpace c then scanBullets Spaces t
          else scanBullets (Group [c]) t
      | Group acc =>
          if isLineTerminator c then pushBullet acc (scanBullets (Idle true) t)
          else scanBullets (Group (acc ++ [c])) t
      end
  end.

Definition sectionBullets (matched : option str) (header : str) : list str :=
  match matched with
  | Some (c :: m) =>
      let content := trim (replaceString (c :: m) header []) in
      scanBullets (Idle true) content
  | _ => []
  end.

Definition parseSummary (aiSummary : str) : list SummarySection :=
  match trim aiSummary with
  | [] => [ {| type := FEATURES_SECTION; bullets := [] |};
            {| type := BUGS_SECTION; bullets := [] |} ]
  | _ => [ {| type := FEATURES_SECTION;
              bullets := sectionBullets (featuresMatch aiSummary) FEATURES_SECTION |};
           {| type := BUGS_SECTION;
              bullets := sectionBullets (bugsMatch aiSummary) BUGS_SECTION |} ]
  end.

(** The end of the section that starts at [sectionPos]: the first
    [/^## /m] after the header, or the end of the body. *)
Definition nextSectionPos (body sectionHeader : str) (sectionPos : nat) : nat :=
  let from := sectionPos + length sectionHeader in
  match Rx.findAtLineStart (lit "## ") (skipn from body) true 0 with
  | Some j => from + j
  | None => length body
  end.

Definition updateSection (body sectionHeader newEntry : str) : str :=
  match indexOf body sectionHeader 0 with
  | None => body ++ [LF; LF] ++ sectionHeader ++ [LF] ++ newEntry
  | Some sectionPos =>
      let nextPos := nextSectionPos body sectionHeader sectionPos in
      let sectionContent := slice body (sectionPos + length sectionHeader) nextPos in
      let cleanSectionContent := Rx.removeAll Rx.placeholderAt sectionContent 0 in
      let existingContent := trim cleanSectionContent in
      let updatedSection :=
        match existingContent with
        | [] => sectionHeader ++ [LF] ++ newEntry
        | _ =>
            if startsWith [LF] existingContent
            then sectionHeader ++ [LF] ++ newEntry ++ existingContent
            else sectionHeader ++ [LF] ++ newEntry ++ [LF] ++ existingContent
        end in
      slice body 0 sectionPos ++ updatedSection ++ sliceFrom body nextPos
  end.

End Helpers.

(* ====================================================================== *)
(** * src/handlers/prService.ts: the text operations *)
(* ====================================================================== *)

Module PRText.

Import Helpers.

(** [`## ${section}`] *)
Definition heading (section : str) : str := lit "## " ++ section.

Definition FEATURES_PLACEHOLDER : str := lit "<!-- New feature summaries will be added here -->".
Definition BUGS_PLACEHOLDER : str := lit "<!-- Bug fixes and improvements will be added here -->".

(** "Create section headers if they don't exist". *)
Definition ensureSection (prBody section placeholder : str) : str :=
  if includes prBody (heading section) then prBody
  else prBody ++ [LF; LF] ++ heading section ++ [LF] ++ placeholder ++ [LF].

Definition ensureSections (prBody featuresSection bugsSection : str) : str :=
  ensureSection (ensureSection prBody featuresSection FEATURES_PLACEHOLDER)
                bugsSection BUGS_PLACEHOLDER.

(** Length of the lazy [.*?] (flag [s]) in front of [(\n## |$)]. *)
Fixpoint lazyUntilHeading (s : str) : nat :=
  if startsWith (LF :: lit "## ") s then 0
  else match s with
       | [] => 0
       | _ :: t => S (lazyUntilHeading t)
       end.

(** [prBody.match(new RegExp(`(## ${section}.*?)(\\n## |$)`, 's'))]: the
    index of the match and its first group, for a section name that is
    [Rx.literal] (the two names the service passes are): the match begins
    at the first occurrence of [## section] in the text, wherever that is,
    and its group runs up to the next newline followed by [## ], or to the
    end. *)
Definition sectionMatch (prBody section : str) : option (nat * str) :=
  let h := heading section in
  match indexOf prBody h 0 with
  | None => None
  | Some p =>
      let rest := skipn (p + length h) prBody in
      Some (p, firstn (length h + lazyUntilHeading rest) (skipn p prBody))
  end.

(** [indexOf('\n', from) + 1] *)
Definition afterNewline (s : str) (from : nat) : nat :=
  match indexOf s [LF] from with
  | Some i => i + 1
  | None => 0
  end.

(** "Insert after the header and any HTML comments". *)
Definition insertPoint (sectionContent : str) : nat :=
  match Rx.commentLineMatch sectionContent with
  | Some n => afterNewline sectionContent n
  | None => afterNewline sectionContent 0
  end.

Definition newSectionContent (sectionContent : str) (bullets : list str) : str :=
  let ip := insertPoint sectionContent in
  slice sectionContent 0 ip ++
  join [LF] bullets ++
  (match bullets with [] => [] | _ => [LF] end) ++
  sliceFrom sectionContent ip.

(** One of the two blocks "Add feature bullets" / "Add bug bullets". *)
Definition insertBullets (prBody section : str) (bullets : list str) : str :=
  match bullets with
  | [] => prBody
  | _ =>
      match sectionMatch prBody section with
      | Some (_, sectionContent) =>
          replaceString prBody sectionContent (newSectionContent sectionContent bullets)
      | None => prBody
      end
  end.

Definition addNewBulletsToBody
  (prBody featuresSection : str) (featureBullets : list str)
  (bugsSection : str) (bugBullets : list str) : str :=
  let prBody := ensureSections prBody featuresSection bugsSection in
  let prBody := insertBullets prBody featuresSection featureBullets in
  insertBullets prBody bugsSection bugBullets.

(** ** Titles *)

(** [(MAJOR|MINOR|PATCH)] under the flag [i], at the head of [s]. *)
Definition bumpWordAt (s : str) : option str :=
  if startsWith_ci (lit "MAJOR") s then Some (firstn 5 s)
  else if startsWith_ci (lit "MINOR") s then Some (firstn 5 s)
  else if startsWith_ci (lit "PATCH") s then Some (firstn 5 s)
  else None.

(** [\d+] followed by the character [c]: the length of the digits. *)
Definition digitsThen (c : ascii) (s : str) : option nat :=
  let d := Rx.digitRun s in
  if d =? 0 then None
  else if startsWith [c] (skipn d s) then Some d else None.

(** [(v?\d+\.\d+\.\d+):] under the flag [i]: the length of the group. *)
Definition versionAt (s : str) : option nat :=
  let v := match s with
           | c :: _ => if ci_eqb c (ch 118) then 1 else 0
           | [] => 0
           end in
  let s1 := skipn v s in
  match digitsThen (ch 46) s1 with
  | None => None
  | Some d1 =>
      let s2 := skipn (d1 + 1) s1 in
      match digitsThen (ch 46) s2 with
      | None => None
      | Some d2 =>
          let s3 := skipn (d2 + 1) s2 in
          match digitsThen (ch 58) s3 with
          | None => None
          | Some d3 => Some (v + (d1 + 1) + (d2 + 1) + d3)
          end
      end
  end.

Definition RELEASE_WORD : str := lit " Release: ".

(** [title.match(/^(MAJOR|MINOR|PATCH) Release: (v?\d+\.\d+\.\d+):/i)]:
    the two groups [versionType] and [versionFromTitle]. *)
Definition titleMatch (title : str) : option (str * str) :=
  match bumpWordAt title with
  | None => None
  | Some versionType =>
      let s1 := skipn 5 title in
      if startsWith_ci RELEASE_WORD s1 then
        let s2 := skipn (length RELEASE_WORD) s1 in
        match versionAt s2 with
        | Some n => Some (versionType, firstn n s2)
        | None => None
        end
      else None
  end.

(** [versionFromTitle.replace(/^v?/, '')] *)
Definition stripV (version : str) : str :=
  match version with
  | c :: t => if ascii_eqb c (ch 118) then t else version
  | [] => []
  end.

(** [response.match(/VERSION_TYPE:\s*(MAJOR|MINOR|PATCH)/i)]: group 1. *)
Fixpoint versionTypeMatch (response : str) : option str :=
  let here :=
    if startsWith_ci (lit "VERSION_TYPE:") response
    then bumpWordAt (trimStart (skipn 13 response))
    else None in
  match here with
  | Some b => Some b
  | None => match response with
            | [] => None
            | _ :: t => versionTypeMatch t
            end
  end.

(** Length of the lazy [(.+?)] in front of [(?:\n|$)]. *)
Fixpoint lazyLine (s : str) : option nat :=
  match s with
  | [] => None
  | c :: t =>
      if isLineTerminator c then None
      else match t with
           | [] => Some 1
           | d :: _ => if ascii_eqb d LF then Some 1 else option_map S (lazyLine t)
           end
  end.

(** [\s*(.+?)(?:\n|$)] on [r]: the greedy [\s*] first takes [k]
    characters and gives them back one by one. *)
Fixpoint summaryGroup (r : str) (k : nat) : option str :=
  match lazyLine (skipn k r) with
  | Some j => Some (firstn j (skipn k r))
  | None => match k with
            | O => None
            | S k' => summaryGroup r k'
            end
  end.

(** [response.match(/SUMMARY:\s*(.+?)(?:\n|$)/i)]: group 1. *)
Fixpoint summaryMatch (response : str) : option str :=
  let here :=
    if startsWith_ci (lit "SUMMARY:") response
    then let r := skipn 8 response in summaryGroup r (Rx.spaceRun r)
    else None in
  match here with
  | Some g => Some g
  | None => match response with
            | [] => None
            | _ :: t => summaryMatch t
            end
  end.

Definition DEFAULT_SUMMARY : str := lit "New features and improvements".

(** [versionMatch ? versionMatch[1].toUpperCase() : 'PATCH'] *)
Definition versionTypeOf (response : str) : str :=
  match versionTypeMatch response with
  | Some b => toUpperCase b
  | None => lit "PATCH"
  end.

(** [summaryMatch ? summaryMatch[1].trim() : 'New features and improvements'] *)
Definition summaryOf (response : str) : str :=
  match summaryMatch response with
  | Some g => trim g
  | None => DEFAULT_SUMMARY
  end.

(** "Limit summary to 60 characters". *)
Definition oneLine (summary : str) : str :=
  if 60 <? length summary then firstn 57 summary ++ lit "..." else summary.

(** [`${versionType} Release: ${prefix}${newVersion}: ${summary}`] *)
Definition formatTitle (versionType prefix newVersion summary : str) : str :=
  versionType ++ lit " Release: " ++ prefix ++ newVersion ++ lit ": " ++ summary.

(** [/\*Last updated:.*\*/]: index and length of the first match. *)
Fixpoint lastUpdatedMatch (s : str) (i : nat) : option (nat * nat) :=
  let here :=
    if startsWith (lit "*Last updated:") s then
      match Rx.greedyDotUntil (lit "*") (skipn 14 s) with
      | Some k => Some (i, 14 + k + 1)
      | None => None
      end
    else None in
  match here with
  | Some m => Some m
  | None => match s with
            | [] => None
            | _ :: t => lastUpdatedMatch t (S i)
            end
  end.

(** [prBody.replace(/\*Last updated:.*\*/, `*Last updated: ${timestamp}*`)] *)
Definition updateTimestamp (prBody timestamp : str) : str :=
  match lastUpdatedMatch prBody 0 with
  | None => prBody
  | Some (p, n) =>
      let before := firstn p prBody in
      let after := skipn (p + n) prBody in
      before ++
      getSubstitution (slice prBody p (p + n)) before after
        (lit "*Last updated: " ++ timestamp ++ lit "*") ++
      after
  end.

(** [/# Release .+\n/]: the first match. *)
Fixpoint releaseHeaderMatch (s : str) : option str :=
  let here :=
    if startsWith (lit "# Release ") s then
      let l := Rx.lineRest (skipn 10 s) in
      match l with
      | [] => None
      | _ => if startsWith [LF] (skipn (10 + length l) s)
             then Some (firstn (10 + length l + 1) s) else None
      end
    else None in
  match here with
  | Some m => Some m
  | None => match s with
            | [] => None
            | _ :: t => releaseHeaderMatch t
            end
  end.

End PRText.

(* ====================================================================== *)
(** * src/utils/types.ts and the configuration of [ConfigService] *)
(* ====================================================================== *)

Module Config.

Record Branches := { release_branch : option str; staging_branch : option str }.

Record PrOptions := {
  draftTitle : option str;
  draftBody : option str;
  featuresSection : option str }.

Record ReleaseOptions := {
  prefix : option str;
  createDraft : option bool;
  prerelease : option bool;
  generateReleaseNotes : option bool }.

Record ChangelogOptions := {
  file : option str;
  headerFormat : option str;
  entryFormat : option str }.

Record ReleaseTags := {
  tag_major : option str;
  tag_minor : option str;
  tag_patch : option str }.

Record OpenAIOptions := {
  model : option str;
  temperature : option Q;
  max_tokens : option Z }.

Record AiOptions := {
  enabled : option bool;
  openai : option OpenAIOptions;
  featureSummaryPrompt : option str;
  versionTypePrompt : option str }.

(** [RepoConfig]: every key is optional. *)
Record RepoConfig := {
  branches : option Branches;
  pr : option PrOptions;
  release : option ReleaseOptions;
  changelog : option ChangelogOptions;
  releaseTags : option ReleaseTags;
  ai : option AiOptions }.

Definition DEFAULT_CONFIG : RepoConfig := {|
  branches := Some {| release_branch := Some (lit "main");
                      staging_branch := Some (lit "staging") |};
  pr := Some {|
    draftTitle := Some (lit "{major}.{minor}.{patch} Release: {version}");
    draftBody := Some (lit "## Features to be released

{features}

---
*This PR was automatically created by the Release Manager.*
*Last updated: {timestamp}*");
    featuresSection := Some (lit "## Features to be released") |};
  release := Some {|
    prefix := Some (lit "v");
    createDraft := Some false;
    prerelease := Some false;
    generateReleaseNotes := Some true |};
  changelog := Some {|
    file := Some (lit "CHANGELOG.md");
    headerFormat := Some (lit "# Changelog" ++ [LF; LF]);
    entryFormat := Some (lit "## {version} ({date})" ++ [LF; LF] ++ lit "{features}" ++ [LF; LF]) |};
  releaseTags := Some {|
    tag_major := Some (lit "[MAJOR]");
    tag_minor := Some (lit "[MINOR]");
    tag_patch := Some (lit "[PATCH]") |};
  ai := Some {|
    enabled := Some true;
    openai := Some {| model := Some (lit "gpt-4o-mini");
                      temperature := Some (2 # 10)%Q;
                      max_tokens := Some 2048%Z |};
    featureSummaryPrompt := Some (lit "You are a helpful assistant that generates concise summaries of feature changes in a GitHub repository. Focus on business value and benefits over technical details.");
    versionTypePrompt := Some (lit "You are a versioning expert who helps determine the appropriate semantic version increment type for code changes. Analyze the changes and recommend MAJOR for breaking changes, MINOR for new features, or PATCH for bug fixes") |}
|}.

(** ** [mergeConfigs]

    The loop over [Object.entries(customConfig)] on the keys that
    [RepoConfig] declares: a key that is present with a plain value
    replaces the default one; a key that is present with an object is
    merged key by key when the default has it. *)

Definition override {A} (dflt custom : option A) : option A :=
  match custom with
  | Some v => Some v
  | None => dflt
  end.

Definition mergeObject {A} (merge : A -> A -> A) (dflt custom : option A) : option A :=
  match custom with
  | None => dflt
  | Some c =>
      match dflt with
      | Some d => Some (merge d c)
      | None => Some c
      end
  end.

Definition mergeBranches (d c : Branches) : Branches := {|
  release_branch := override (release_branch d) (release_branch c);
  staging_branch := override (staging_branch d) (staging_branch c) |}.

Definition mergePr (d c : PrOptions) : PrOptions := {|
  draftTitle := override (draftTitle d) (draftTitle c);
  draftBody := override (draftBody d) (draftBody c);
  featuresSection := override (featuresSection d) (featuresSection c) |}.

Definition mergeRelease (d c : ReleaseOptions) : ReleaseOptions := {|
  prefix := override (prefix d) (prefix c);
  createDraft := override (createDraft d) (createDraft c);
  prerelease := override (prerelease d) (prerelease c);
  generateReleaseNotes := override (generateReleaseNotes d) (generateReleaseNotes c) |}.

Definition mergeChangelog (d c : ChangelogOptions) : ChangelogOptions := {|
  file := override (file d) (file c);
  headerFormat := override (headerFormat d) (headerFormat c);
  entryFormat := override (entryFormat d) (entryFormat c) |}.

Definition mergeTags (d c : ReleaseTags) : ReleaseTags := {|
  tag_major := override (tag_major d) (tag_major c);
  tag_minor := override (tag_minor d) (tag_minor c);
  tag_patch := override (tag_patch d) (tag_patch c) |}.

Definition mergeOpenAI (d c : OpenAIOptions) : OpenAIOptions := {|
  model := override (model d) (model c);
  temperature := override (temperature d) (temperature c);
  max_tokens := override (max_tokens d) (max_tokens c) |}.

Definition mergeAi (d c : AiOptions) : AiOptions := {|
  enabled := override (enabled d) (enabled c);
  openai := mergeObject mergeOpenAI (openai d) (openai c);
  featureSummaryPrompt := override (featureSummaryPrompt d) (featureSummaryPrompt c);
  versionTypePrompt := override (versionTypePrompt d) (versionTypePrompt c) |}.

Definition mergeConfigs (defaultConfig customConfig : RepoConfig) : RepoConfig := {|
  branches := mergeObject mergeBranches (branches defaultConfig) (branches customConfig);
  pr := mergeObject mergePr (pr defaultConfig) (pr customConfig);
  release := mergeObject mergeRelease (release defaultConfig) (release customConfig);
  changelog := mergeObject mergeChangelog (changelog defaultConfig) (changelog customConfig);
  releaseTags := mergeObject mergeTags (releaseTags defaultConfig) (releaseTags customConfig);
  ai := mergeObject mergeAi (ai defaultConfig) (ai customConfig) |}.

(** The optional chains the service reads its configuration through. *)

Definition staging_of (c : RepoConfig) : option str :=
  match branches c with Some b => staging_branch b | None => None end.

Definition release_of (c : RepoConfig) : option str :=
  match branches c with Some b => release_branch b | None => None end.

Definition prefix_of (c : RepoConfig) : option str :=
  match release c with Some r => prefix r | None => None end.

Definition openai_of (c : RepoConfig) : option OpenAIOptions :=
  match ai c with Some a => openai a | None => None end.

(** [x ?? dflt] *)
Definition orElse {A} (x : option A) (dflt : A) : A :=
  match x with Some v => v | None => dflt end.

(** [config.branches?.staging ?? 'staging'] and its siblings. *)
Definition stagingBranch (c : RepoConfig) : str := orElse (staging_of c) (lit "staging").
Definition releaseBranch (c : RepoConfig) : str := orElse (release_of c) (lit "main").
Definition releasePrefix (c : RepoConfig) : str := orElse (prefix_of c) (lit "v").

(** [!config.ai?.enabled] *)
Definition aiDisabled (c : RepoConfig) : bool :=
  match ai c with
  | Some a => match enabled a with Some true => false | _ => true end
  | None => true
  end.

End Config.

(* ====================================================================== *)
(** * The collaborators: the repository host and the completion service *)
(* ====================================================================== *)

Module Remote.

(** What an awaited call can throw: a request error of the host, which
    carries a [status], or an error object without one. *)
Inductive Error :=
| HttpError (status : nat)
| JsError (message : str).

(** [error.status] *)
Definition status (e : Error) : option nat :=
  match e with
  | HttpError n => Some n
  | JsError _ => None
  end.

Inductive Result (A : Type) :=
| Ok (a : A)
| Throw (e : Error).

Arguments Ok {A} a.
Arguments Throw {A} e.

(** The fields of a pull request that the service reads. *)
Record PullRequest := {
  number : N;
  title : str;
  body : option str;
  merged : bool;
  draft : bool;
  head_ref : str;
  base_ref : str;
  user_login : option str;
  html_url : str }.

(** [context]: the repository of the event and its payload. *)
Record Context := {
  owner : str;
  repo : str;
  has_repository : bool;
  pull_request : PullRequest }.

(** The answer of [repos.getContent]: a file carries [content], and
    [parsed] is what [JSON.parse] makes of the decoded text, [None] when
    it throws a [SyntaxError]; other answers carry no [content]. *)
Inductive ContentData :=
| File (parsed : option Config.RepoConfig)
| NoContent.

Record Message := { role : str; content : str }.

Record ChatRequest := {
  req_model : str;
  req_messages : list Message;
  req_temperature : Q;
  req_max_tokens : Z }.

(** The requests that change the repository. *)
Inductive Write :=
| PullsCreate (title head base : str)
| PullsUpdateBody (pull_number : N) (body : str)
| PullsUpdateTitle (pull_number : N) (title : str)
| IssuesCreateComment (issue_number : N) (body : str)
| ReposCreateRelease (tag_name name body target_commitish : str) (draft prerelease : bool).

(** What the service reads from the answer to a write. *)
Record Answer := { new_number : N; new_html_url : str }.

(** The environment of one event.  Every call is answered as a function of
    the moment it is made at, so that answers may change between calls. *)
Record World := {
  OPENAI_API_KEY : option str;
  repos_getContent : nat -> Result ContentData;
  pulls_get_diff : nat -> N -> Result str;
  pulls_listCommits : nat -> N -> Result (list str);
  pulls_list : nat -> str -> str -> Result (list PullRequest);
  pulls_get : nat -> N -> Result PullRequest;
  repos_getLatestRelease : nat -> Result str;
  repos_listTags : nat -> Result (list str);
  chat_completions_create : nat -> ChatRequest -> Result (option str);
  answer : nat -> Write -> Result Answer;
  toISOString : nat -> str }.

(** The service object ([config] is its only mutable field that matters),
    the moment, and the writes requested so far, oldest first. *)
Record State := {
  config : Config.RepoConfig;
  clock : nat;
  log : list Write }.

Definition M (A : Type) : Type := World -> State -> Result A * State.

Definition ret {A} (a : A) : M A := fun _ s => (Ok a, s).

Definition throw {A} (e : Error) : M A := fun _ s => (Throw e, s).

Definition bind {A B} (m : M A) (k : A -> M B) : M B :=
  fun w s =>
    match m w s with
    | (Ok a, s') => k a w s'
    | (Throw e, s') => (Throw e, s')
    end.

(** [try { m } catch (error) { handler }] *)
Definition tryCatch {A} (m : M A) (handler : Error -> M A) : M A :=
  fun w s =>
    match m w s with
    | (Ok a, s') => (Ok a, s')
    | (Throw e, s') => handler e w s'
    end.

Definition tick (s : State) : State :=
  {| config := config s; clock := S (clock s); log := log s |}.

Definition record_write (wr : Write) (s : State) : State :=
  {| config := config s; clock := S (clock s); log := log s ++ [wr] |}.

(** [this.config] *)
Definition getConfig : M Config.RepoConfig := fun _ s => (Ok (config s), s).

(** An awaited read. *)
Definition request {A} (call : World -> nat -> Result A) : M A :=
  fun w s => (call w (clock s), tick s).

(** An awaited write. *)
Definition send (wr : Write) : M Answer :=
  fun w s => (answer w (clock s) wr, record_write wr s).

(** [new Date().toISOString()] *)
Definition now : M str := fun w s => (Ok (toISOString w (clock s)), tick s).

(** [process.env.OPENAI_API_KEY] *)
Definition apiKey : M (option str) := fun w s => (Ok (OPENAI_API_KEY w), s).

End Remote.

Declare Scope js_scope.
Delimit Scope js_scope with js.
Notation "x <- m ;; k" := (Remote.bind m (fun x => k))
  (at level 61, m at next level, right associativity) : js_scope.
Notation "m ;;; k" := (Remote.bind m (fun _ => k))
  (at level 61, right associativity) : js_scope.

(* ====================================================================== *)
(** * [ConfigService] *)
(* ====================================================================== *)

Module ConfigService.

Import Config Remote.
Local Open Scope js_scope.

(** The constructor; the field [config] is initialized first. *)
Definition newService : State :=
  {| config := DEFAULT_CONFIG; clock := 0; log := [] |}.

Definition construct (context : Context) : M unit :=
  key <- apiKey ;;
  match key with
  | Some (_ :: _) =>
      if has_repository context then ret tt
      else throw (JsError (lit "No repository found"))
  | _ => throw (JsError (lit "OPENAI_API_KEY environment variable is not set"))
  end.

(** [error.status === 404] *)
Definition notFound (error : Error) : bool :=
  match status error with
  | Some n => n =? 404
  | None => false
  end.

(** [loadConfig] *)
Definition loadConfig : M RepoConfig :=
  tryCatch
    (configFile <- request repos_getContent ;;
     match configFile with
     | File (Some repoConfig) => ret (mergeConfigs DEFAULT_CONFIG repoConfig)
     | File None => throw (JsError (lit "SyntaxError"))
     | NoContent => throw (JsError (lit "Invalid config file format"))
     end)
    (fun error =>
       if notFound error then ret DEFAULT_CONFIG else throw error).

(** [!temperature] and [!max_tokens]: zero is falsy. *)
Definition zeroQ (q : Q) : bool := Qeq_bool q 0.
Definition zeroZ (z : Z) : bool := (z =? 0)%Z.

(** The three settings [callOpenAI] needs, when none of them is falsy. *)
Definition requiredFields (c : RepoConfig) : option (str * Q * Z) :=
  match openai_of c with
  | Some o =>
      match model o, temperature o, max_tokens o with
      | Some (m :: ms), Some t, Some k =>
          if zeroQ t || zeroZ k then None else Some (m :: ms, t, k)
      | _, _, _ => None
      end
  | None => None
  end.

(** [callOpenAI]: [None] is the [null] it returns. *)
Definition callOpenAI (messages : list Message) : M (option str) :=
  c <- getConfig ;;
  if aiDisabled c then ret None
  else
    match requiredFields c with
    | None => throw (JsError (lit "OpenAI configuration is missing required fields"))
    | Some (m, t, k) =>
        response <- request (fun w n =>
          chat_completions_create w n
            {| req_model := m; req_messages := messages;
               req_temperature := t; req_max_tokens := k |}) ;;
        match response with
        | Some (x :: xs) => ret (Some (x :: xs))
        | _ => throw (JsError (lit "No response from OpenAI"))
        end
    end.

End ConfigService.

(* ====================================================================== *)
(** * [PRService] *)
(* ====================================================================== *)

Module PRService.

Import Config Remote ConfigService Helpers PRText.
Local Open Scope js_scope.

Record DiffStats := {
  files : list str;
  summary : str;
  diff_content : str }.

Record PRDetails := {
  d_title : str;
  d_body : str;
  d_diffFiles : str;
  d_diffSummary : str;
  d_diffContent : str;
  d_commitMessages : str }.

(** The loop over [/^diff --git a\/(.*?) b\/(.*?)$/gm]: group 1 of every
    match. *)
Fixpoint changedFiles (diffText : str) (atLineStart : bool) : list str :=
  match diffText with
  | [] => []
  | c :: t =>
      (if atLineStart && startsWith (lit "diff --git a/") diffText then
         match Rx.lazyDotUntil (lit " b/") (skipn 13 diffText) with
         | Some k => [firstn k (skipn 13 diffText)]
         | None => []
         end
       else []) ++ changedFiles t (isLineTerminator c)
  end.

(** [(diffText.match(/^\+[^+]/gm) || []).length], and the same for [-]. *)
Fixpoint countMarked (mark : ascii) (diffText : str) (atLineStart : bool) : nat :=
  match diffText with
  | [] => 0
  | c :: t =>
      (if atLineStart && ascii_eqb c mark &&
          match t with d :: _ => negb (ascii_eqb d mark) | [] => false end
       then 1 else 0) + countMarked mark t (isLineTerminator c)
  end.

Definition showCount (n : nat) : str := show (Int (Z.of_nat n)).
Definition showNumber (n : N) : str := show (Int (Z.of_N n)).

Definition getDiffStats (prNumber : N) : M DiffStats :=
  diffText <- request (fun w n => pulls_get_diff w n prNumber) ;;
  let files := changedFiles diffText true in
  let additions := countMarked (ch 43) diffText true in
  let deletions := countMarked (ch 45) diffText true in
  ret {| files := files;
         summary := showCount (length files) ++ lit " files changed, " ++
                    showCount additions ++ lit " insertions(+), " ++
                    showCount deletions ++ lit " deletions(-)";
         diff_content := slice diffText 0 2000 |}.

(** [x || ''] for a string that may be missing. *)
Definition orEmpty (x : option str) : str := orElse x [].

(** [x || dflt] for a string that may be missing or empty. *)
Definition orString (x : option str) (dflt : str) : str :=
  match x with
  | Some (c :: t) => c :: t
  | _ => dflt
  end.

Definition getPRDetails (pr : PullRequest) : M PRDetails :=
  diffStats <- getDiffStats (number pr) ;;
  commits <- request (fun w n => pulls_listCommits w n (number pr)) ;;
  ret {| d_title := title pr;
         d_body := orEmpty (body pr);
         d_diffFiles := join [LF] (files diffStats);
         d_diffSummary := summary diffStats;
         d_diffContent := diff_content diffStats;
         d_commitMessages := join [LF] commits |}.

Definition featureSummaryRequest (d : PRDetails) : str :=
    lit "Analyze this pull request and generate a concise, well-written summary of the changes. 
          Categorize them as either '" ++
    FEATURES_SECTION ++
    lit "' or '" ++
    BUGS_SECTION ++
    lit "'.
          
          PR Title: " ++
    d_title d ++
    lit "
          PR Description: " ++
    d_body d ++
    lit "
          
          Files changed: 
          " ++
    d_diffFiles d ++
    lit "
          
          Diff summary:
          " ++
    d_diffSummary d ++
    lit "
          
          Commit messages:
          " ++
    d_commitMessages d ++
    lit "
          
          Return your response in EXACTLY this format, with these exact section headers:
          
          " ++
    FEATURES_SECTION ++
    lit "
          - [bullet points of new features, if any]
          
          " ++
    BUGS_SECTION ++
    lit "
          - [bullet points of fixes or improvements, if any]
          
          If there are no entries for a category, include the heading but leave the bullet points empty.
          Each bullet point should be concise and start with a dash (-).
          
          IMPORTANT: New functionality should go under " ++
    FEATURES_SECTION ++
    lit ", while bug fixes and improvements to existing functionality should go under " ++
    BUGS_SECTION ++
    lit ".".

Definition versionTypeRequest (prBody aiSummary : str) : str :=
    lit "Based on the following PR body and changes summary:
        
        PR Body:
        " ++
    prBody ++
    lit "
        
        Changes Summary:
        " ++
    aiSummary ++
    lit "
        
        Please provide two things:
        1. The appropriate semantic version increment type according to semver.org rules:
           - MAJOR version for incompatible API changes
           - MINOR version for added functionality in a backwards compatible manner
           - PATCH version for backwards compatible bug fixes
        2. A concise one-line summary (maximum 60 characters) that captures the most important aspects of this release
        
        Format your response exactly like this:
        VERSION_TYPE: [MAJOR/MINOR/PATCH]
        SUMMARY: [Your concise one-line summary]
        
        No other explanation is needed.".

Definition releaseNotesRequest (prContent : str) : str :=
    lit "
Please summarize the following release notes into a concise, bullet-point format.
Organize the summary into two sections:
1. " ++
    [DQUOTE] ++
    lit "## New Features" ++
    [DQUOTE] ++
    lit " - new functionality and enhancements
2. " ++
    [DQUOTE] ++
    lit "## Bugs / Improvements" ++
    [DQUOTE] ++
    lit " - bug fixes and performance improvements

For each section, provide brief bullet points (starting with " ++
    [DQUOTE] ++
    lit "-" ++
    [DQUOTE] ++
    lit ") that clearly describe each change.
If there are no items for a section, include the section heading with no bullets.
Be concise and focus on the most important changes.

RELEASE NOTES:
" ++
    prContent ++
    lit "
".

Definition systemMessage (text : str) : Message :=
  {| role := lit "system"; content := text |}.

Definition userMessage (text : str) : Message :=
  {| role := lit "user"; content := text |}.

(** [findStagingToReleasePR] *)
Definition findStagingToReleasePR (context : Context) : M (option PullRequest) :=
  c <- getConfig ;;
  let stagingBranch := stagingBranch c in
  let releaseBranch := releaseBranch c in
  tryCatch
    (prs <- request (fun w n =>
        pulls_list w n (owner context ++ lit ":" ++ stagingBranch) releaseBranch) ;;
     match prs with
     | [] =>
         simplePrs <- request (fun w n => pulls_list w n stagingBranch releaseBranch) ;;
         match simplePrs with
         | first :: _ =>
             match find draft simplePrs with
             | Some targetPR => ret (Some targetPR)
             | None => ret (Some first)
             end
         | [] => ret None
         end
     | first :: _ =>
         match find draft prs with
         | Some draftPR => ret (Some draftPR)
         | None => ret (Some first)
         end
     end)
    (fun _ => ret None).

(** [tag_name.replace(/^v/, '')] and
    [name.replace(new RegExp(`^${prefix}`), '')], the latter for a prefix
    that is [Rx.literal] (the prefix [v] of the default configuration
    is). *)
Definition stripPrefix (prefix tag : str) : str :=
  if startsWith prefix tag then skipn (length prefix) tag else tag.

(** [getCurrentVersion] *)
Definition getCurrentVersion : M str :=
  c <- getConfig ;;
  tryCatch
    (tryCatch
       (tag_name <- request repos_getLatestRelease ;;
        ret (stripPrefix (lit "v") tag_name))
       (fun _ =>
          tags <- request repos_listTags ;;
          match tags with
          | name :: _ => ret (stripPrefix (releasePrefix c) name)
          | [] => ret (lit "0.0.0")
          end))
    (fun _ => ret (lit "0.0.0")).

(** [updatePRTitleWithInfo] *)
Definition updatePRTitleWithInfo (prNumber : N) (versionType summary : str) : M unit :=
  c <- getConfig ;;
  currentVersion <- getCurrentVersion ;;
  let newVersion :=
    calculateNewVersion currentVersion (releaseTypeOf (toLowerCase versionType)) in
  let newTitle := formatTitle versionType (releasePrefix c) newVersion summary in
  send (PullsUpdateTitle prNumber newTitle) ;;;
  ret tt.

Definition DEFAULT_VERSION_PROMPT : str :=
  lit "You are a versioning expert who helps determine version changes and creates concise summaries.".

(** [updatePRTitle] *)
Definition updatePRTitle (prNumber : N) (aiSummary : str) : M unit :=
  c <- getConfig ;;
  pr <- request (fun w n => pulls_get w n prNumber) ;;
  let messages :=
    [ systemMessage
        (orElse (match ai c with Some a => versionTypePrompt a | None => None end)
                DEFAULT_VERSION_PROMPT);
      userMessage (versionTypeRequest (orEmpty (body pr)) aiSummary) ] in
  response <- callOpenAI messages ;;
  match response with
  | Some (x :: xs) =>
      let response := x :: xs in
      updatePRTitleWithInfo prNumber (versionTypeOf response) (oneLine (summaryOf response))
  | _ => updatePRTitleWithInfo prNumber (lit "PATCH") DEFAULT_SUMMARY
  end.

(** [`- ${bullet} (via [#${n}](${prLink}) by @${prAuthor})`] *)
Definition withAttribution (sourcePR : PullRequest) (bullet : str) : str :=
  lit "- " ++ bullet ++ lit " (via [#" ++ showNumber (number sourcePR) ++ lit "](" ++
  html_url sourcePR ++ lit ") by @" ++ orString (user_login sourcePR) (lit "Unknown") ++ lit ")".

(** [parsedSections.find((s) => s.type === section)?.bullets || []] *)
Definition bulletsOf (parsedSections : list SummarySection) (section : str) : list str :=
  match find (fun s => str_eqb (type s) section) parsedSections with
  | Some s => bullets s
  | None => []
  end.

(** [updatePRWithAISummary] *)
Definition updatePRWithAISummary (context : Context) (prNumber : N) (aiSummary : str) : M unit :=
  let sourcePR := pull_request context in
  pr <- request (fun w n => pulls_get w n prNumber) ;;
  let prBody := orEmpty (body pr) in
  let parsedSections := parseSummary aiSummary in
  let featureBullets := bulletsOf parsedSections FEATURES_SECTION in
  let bugBullets := bulletsOf parsedSections BUGS_SECTION in
  let prBody :=
    addNewBulletsToBody prBody
      FEATURES_SECTION (map (withAttribution sourcePR) featureBullets)
      BUGS_SECTION (map (withAttribution sourcePR) bugBullets) in
  timestamp <- now ;;
  let prBody := updateTimestamp prBody timestamp in
  send (PullsUpdateBody prNumber prBody) ;;;
  ret tt.

(** [addSummaryComment] *)
Definition addSummaryComment (context : Context) (prNumber : N) (aiSummary : str) : M unit :=
  let sourcePR := pull_request context in
  let commentTitle :=
    lit "### Merged: " ++ [DQUOTE] ++ title sourcePR ++ [DQUOTE] ++ lit " (#" ++
    showNumber (number sourcePR) ++ lit ") by @" ++
    orString (user_login sourcePR) (lit "Unknown") in
  let commentBody :=
    commentTitle ++ [LF; LF] ++ aiSummary ++ [LF; LF] ++ lit "---" ++ [LF] ++
    lit "_This summary was generated automatically by AI_" in
  send (IssuesCreateComment prNumber commentBody) ;;;
  ret tt.

(** [updateStagingToReleasePR]; a pull request number that is [0] is as
    good as none. *)
Definition updateStagingToReleasePR (context : Context) (aiSummary : str) : M unit :=
  c <- getConfig ;;
  draftPR <- findStagingToReleasePR context ;;
  prToUpdate <-
    match draftPR with
    | Some pr => if (number pr =? 0)%N then ret None else ret (Some (number pr))
    | None => ret None
    end ;;
  prToUpdate <-
    match prToUpdate with
    | Some n => ret n
    | None =>
        currentVersion <- getCurrentVersion ;;
        newPR <- send (PullsCreate (lit "Updating " ++ releasePrefix c ++ currentVersion)
                                   (stagingBranch c) (releaseBranch c)) ;;
        ret (new_number newPR)
    end ;;
  updatePRWithAISummary context prToUpdate aiSummary ;;;
  addSummaryComment context prToUpdate aiSummary ;;;
  updatePRTitle prToUpdate aiSummary.

(** [handleFeatureMergedToStaging] *)
Definition handleFeatureMergedToStaging (context : Context) : M unit :=
  c <- getConfig ;;
  let pr := pull_request context in
  prDetails <- getPRDetails pr ;;
  let messages :=
    [ systemMessage
        (orEmpty (match ai c with Some a => featureSummaryPrompt a | None => None end));
      userMessage (featureSummaryRequest prDetails) ] in
  aiSummary <- callOpenAI messages ;;
  match aiSummary with
  | Some (x :: xs) => updateStagingToReleasePR context (x :: xs)
  | _ => ret tt
  end.

Definition FALLBACK_SUMMARY : str :=
  join [LF] [lit "## New Features"; []; lit "## Bugs / Improvements"; []].

(** [generateAISummary]: its own client and settings; every failure ends
    in the two empty headings. *)
Definition generateAISummary (prContent : str) : M str :=
  tryCatch
    (key <- apiKey ;;
     match key with
     | Some _ =>
         response <- request (fun w n =>
           chat_completions_create w n
             {| req_model := lit "gpt-4-turbo";
                req_messages :=
                  [ systemMessage (lit "You are a technical release notes assistant that creates concise summaries.");
                    userMessage (releaseNotesRequest prContent) ];
                req_temperature := (5 # 10)%Q;
                req_max_tokens := 1000%Z |}) ;;
         match option_map trim response with
         | Some (x :: xs) => ret (x :: xs)
         | _ => throw (JsError (lit "No summary generated by AI"))
         end
     | None => throw (JsError (lit "The OPENAI_API_KEY environment variable is missing or empty"))
     end)
    (fun _ => ret FALLBACK_SUMMARY).

(** [new Date().toISOString().split('T')[0]] *)
Definition datePart (iso : str) : str :=
  match split (ch 84) iso with
  | d :: _ => d
  | [] => []
  end.

(** [formatReleaseNotes] *)
Definition formatReleaseNotes (prBody versionType : str) : M str :=
  let existingContent := Rx.removeAll Rx.commentGreedyAt prBody 0 in
  aiSummary <- generateAISummary existingContent ;;
  iso <- now ;;
  let metadata :=
    join [LF] [ lit "**Release Type:** " ++ versionType;
                lit "**Release Date:** " ++ datePart iso ] in
  let notes :=
    match releaseHeaderMatch existingContent with
    | Some releaseTitle => releaseTitle ++ [LF] ++ metadata ++ [LF; LF] ++ aiSummary
    | None => lit "# Release" ++ [LF; LF] ++ metadata ++ [LF; LF] ++ aiSummary
    end in
  ret (notes ++ [LF; LF] ++ lit "---" ++ [LF] ++
       lit "*This release was automatically published by the GitHub Release Bot with AI-generated summary.*").

(** The party popper of the completion comment, as its UTF-8 bytes. *)
Definition PARTY : str := [ch 240; ch 159; ch 142; ch 137].

(** [handleStagingMergedToRelease] *)
Definition handleStagingMergedToRelease (context : Context) : M unit :=
  c <- getConfig ;;
  let pr := pull_request context in
  if negb (merged pr) then ret tt
  else
    let stagingBranch := stagingBranch c in
    let releaseBranch := releaseBranch c in
    if negb (str_eqb (head_ref pr) stagingBranch) || negb (str_eqb (base_ref pr) releaseBranch)
    then ret tt
    else
      match titleMatch (title pr) with
      | None => ret tt
      | Some (versionType, versionFromTitle) =>
          let version := releasePrefix c ++ stripV versionFromTitle in
          tryCatch
            (notes <- formatReleaseNotes (orEmpty (body pr)) versionType ;;
             release <- send (ReposCreateRelease version version notes releaseBranch false false) ;;
             send (IssuesCreateComment (number pr)
                     (PARTY ++ lit " Release [" ++ version ++ lit "](" ++
                      new_html_url release ++ lit ") has been published!")) ;;;
             ret tt)
            (fun error => throw error)
      end.

End PRService.

(* ====================================================================== *)
(** * src/events.ts *)
(* ====================================================================== *)

Module Events.

Import Config Remote ConfigService PRService.
Local Open Scope js_scope.

(** [a === b] between a string and a string that may be missing. *)
Definition sameRef (a : str) (b : option str) : bool :=
  match b with
  | Some b => str_eqb a b
  | None => false
  end.

(** [probotHandler]: the handler of [pull_request.closed]. *)
Definition probotHandler (context : Context) : M unit :=
  let pr := pull_request context in
  if negb (merged pr) then ret tt
  else
    let baseRef := base_ref pr in
    let headRef := head_ref pr in
    construct context ;;;
    loadConfig ;;;
    c <- getConfig ;;
    (if sameRef baseRef (staging_of c) && negb (sameRef headRef (release_of c))
     then handleFeatureMergedToStaging context else ret tt) ;;;
    c <- getConfig ;;
    (if sameRef baseRef (release_of c) && sameRef headRef (staging_of c)
     then handleStagingMergedToRelease context else ret tt).

(** The earlier revision of the handler: fixed branch names, and no
    release stage. *)
Definition probotHandler_first (context : Context) : M unit :=
  let pr := pull_request context in
  if negb (merged pr) then ret tt
  else
    let baseRef := base_ref pr in
    let headRef := head_ref pr in
    construct context ;;;
    loadConfig ;;;
    (if str_eqb baseRef (lit "staging") && negb (str_eqb headRef (lit "main"))
     then handleFeatureMergedToStaging context else ret tt) ;;;
    ret tt.

(** One event, from a fresh service object. *)
Definition run (w : World) (context : Context) : Result unit * State :=
  probotHandler context w newService.

End Events.

(* ====================================================================== *)
(** * The vocabulary of the statements *)
(* ====================================================================== *)

(** A component of a version: text that [parseInt] reads as an integer
    from [0] to [MAX_SAFE_INTEGER], where numbers are exact. *)
Definition versionComponent (part : str) (v : Z) : Prop :=
  parseInt10 part = Int v /\ (0 <= v <= MAX_SAFE_INTEGER)%Z.

(** The number that a run of decimal digits denotes. *)
Definition valueOf (ds : str) : Z :=
  fold_left (fun acc c => (10 * acc + digitVal c)%Z) ds 0%Z.

(** The bump classes and their names in titles. *)
Inductive BumpClass := MAJOR | MINOR | PATCH.

Definition bumpText (b : BumpClass) : JS.str :=
  match b with
  | MAJOR => JS.lit "MAJOR"
  | MINOR => JS.lit "MINOR"
  | PATCH => JS.lit "PATCH"
  end.

Definition bumpRelease (b : BumpClass) : Helpers.ReleaseType :=
  match b with
  | MAJOR => Helpers.major
  | MINOR => Helpers.minor
  | PATCH => Helpers.patch
  end.





(** A non-empty run of decimal digits. *)
Definition allDigits (d : JS.str) : Prop :=
  d <> [] /\ forallb JS.isDigit d = true.

(** The pattern [<BUMP> Release: <version>:] of a release title, letters
    in either case: a bump word, the word [ Release: ], a version of three
    runs of digits separated by dots after an optional [v], and a colon. *)
Definition releaseTitlePattern (title versionType versionFromTitle : JS.str) : Prop :=
  exists bump word v d1 d2 d3 rest,
    JS.toUpperCase versionType = bumpText bump /\
    JS.toUpperCase word = JS.lit " RELEASE: " /\
    (v = [] \/ v = JS.lit "v" \/ v = JS.lit "V") /\
    allDigits d1 /\ allDigits d2 /\ allDigits d3 /\
    versionFromTitle = v ++ d1 ++ JS.lit "." ++ d2 ++ JS.lit "." ++ d3 /\
    title = versionType ++ word ++ versionFromTitle ++ JS.lit ":" ++ rest.

(** The same pattern read to the letter: the bump word in capitals, the
    word [ Release: ] as written, and a small [v] or none before the
    version. *)
Definition capitalTitlePattern (title versionType versionFromTitle : JS.str) : Prop :=
  exists bump v d1 d2 d3 rest,
    versionType = bumpText bump /\
    (v = [] \/ v = JS.lit "v") /\
    allDigits d1 /\ allDigits d2 /\ allDigits d3 /\
    versionFromTitle = v ++ d1 ++ JS.lit "." ++ d2 ++ JS.lit "." ++ d3 /\
    title = versionType ++ JS.lit " Release: " ++ versionFromTitle ++ JS.lit ":" ++ rest.

(** The two reads of [getPRDetails] succeed. *)
Definition detailsReadable
  (context : Remote.Context) (w : Remote.World) (s : Remote.State) : Prop :=
  exists diff commits,
    Remote.pulls_get_diff w (Remote.clock s)
      (Remote.number (Remote.pull_request context)) = Remote.Ok diff /\
    Remote.pulls_listCommits w (S (Remote.clock s))
      (Remote.number (Remote.pull_request context)) = Remote.Ok commits.

Definition NO_RESPONSE : Remote.Error :=
  Remote.JsError (JS.lit "No response from OpenAI").

(** An invariant of the service: its configuration is [c] and the writes
    requested so far satisfy [L]. *)
Definition holds (c : Config.RepoConfig) (L : list Remote.Write -> Prop)
  (s : Remote.State) : Prop :=
  Remote.config s = c /\ L (Remote.log s).

(** A program maintains the invariant, however it ends. *)
Definition inv (c : Config.RepoConfig) (L : list Remote.Write -> Prop)
  {A} (m : Remote.M A) : Prop :=
  forall w s, holds c L s -> holds c L (snd (m w s)).

(** The same environment with another answer to [repos.getContent]. *)
Definition withConfigFile
  (w : Remote.World) (file : nat -> Remote.Result Remote.ContentData) : Remote.World := {|
  Remote.OPENAI_API_KEY := Remote.OPENAI_API_KEY w;
  Remote.repos_getContent := file;
  Remote.pulls_get_diff := Remote.pulls_get_diff w;
  Remote.pulls_listCommits := Remote.pulls_listCommits w;
  Remote.pulls_list := Remote.pulls_list w;
  Remote.pulls_get := Remote.pulls_get w;
  Remote.repos_getLatestRelease := Remote.repos_getLatestRelease w;
  Remote.repos_listTags := Remote.repos_listTags w;
  Remote.chat_completions_create := Remote.chat_completions_create w;
  Remote.answer := Remote.answer w;
  Remote.toISOString := Remote.toISOString w |}.

(** A program that answers the same whatever the configuration file is. *)
Definition fileBlind {A} (m : Remote.M A) : Prop :=
  forall w file s, m (withConfigFile w file) s = m w s.

(** What the handler does once the configuration is loaded. *)
Definition afterLoadConfig (context : Remote.Context) : Remote.M unit :=
  Remote.bind Remote.getConfig (fun c =>
  Remote.bind
    (if Events.sameRef (Remote.base_ref (Remote.pull_request context)) (Config.staging_of c) &&
        negb (Events.sameRef (Remote.head_ref (Remote.pull_request context)) (Config.release_of c))
     then PRService.handleFeatureMergedToStaging context else Remote.ret tt) (fun _ =>
  Remote.bind Remote.getConfig (fun c =>
  if Events.sameRef (Remote.base_ref (Remote.pull_request context)) (Config.release_of c) &&
     Events.sameRef (Remote.head_ref (Remote.pull_request context)) (Config.staging_of c)
  then PRService.handleStagingMergedToRelease context else Remote.ret tt))).

(* ====================================================================== *)
(** * The environments and events of the examples *)
(* ====================================================================== *)

(** A repository without configuration file, release, tag or open pull
    request, whose completion service answers without content. *)
Definition quietWorld : Remote.World := {|
  Remote.OPENAI_API_KEY := Some (JS.lit "sk-test");
  Remote.repos_getContent := fun _ => Remote.Throw (Remote.HttpError 404);
  Remote.pulls_get_diff := fun _ _ => Remote.Ok [];
  Remote.pulls_listCommits := fun _ _ => Remote.Ok [];
  Remote.pulls_list := fun _ _ _ => Remote.Ok [];
  Remote.pulls_get := fun _ _ => Remote.Throw (Remote.HttpError 404);
  Remote.repos_getLatestRelease := fun _ => Remote.Throw (Remote.HttpError 404);
  Remote.repos_listTags := fun _ => Remote.Ok [];
  Remote.chat_completions_create := fun _ _ => Remote.Ok None;
  Remote.answer := fun _ _ => Remote.Ok {| Remote.new_number := 1%N; Remote.new_html_url := [] |};
  Remote.toISOString := fun _ => JS.lit "2025-03-01T12:00:00.000Z" |}.

(** The same repository with a configuration file that is not JSON. *)
Definition malformedWorld : Remote.World :=
  withConfigFile quietWorld (fun _ => Remote.Ok (Remote.File None)).

(** An environment whose completion service fails on every call. *)
Definition failingAIWorld : Remote.World := {|
  Remote.OPENAI_API_KEY := Some (JS.lit "sk-test");
  Remote.repos_getContent := fun _ => Remote.Throw (Remote.HttpError 404);
  Remote.pulls_get_diff := fun _ _ => Remote.Ok [];
  Remote.pulls_listCommits := fun _ _ => Remote.Ok [];
  Remote.pulls_list := fun _ _ _ => Remote.Ok [];
  Remote.pulls_get := fun _ _ => Remote.Throw (Remote.HttpError 404);
  Remote.repos_getLatestRelease := fun _ => Remote.Throw (Remote.HttpError 404);
  Remote.repos_listTags := fun _ => Remote.Ok [];
  Remote.chat_completions_create := fun _ _ => Remote.Throw (Remote.HttpError 500);
  Remote.answer := fun _ _ => Remote.Ok {| Remote.new_number := 1%N; Remote.new_html_url := [] |};
  Remote.toISOString := fun _ => JS.lit "2025-03-01T12:00:00.000Z" |}.

(** A repository without a draft and without a release: the host numbers
    the pull request it creates 31 and answers every read of a pull
    request; the completion service answers a request for a summary with
    one bullet, and a request for a version type with a bump class and a
    headline. *)
Definition newDraftWorld : Remote.World := {|
  Remote.OPENAI_API_KEY := Some (JS.lit "sk-test");
  Remote.repos_getContent := fun _ => Remote.Throw (Remote.HttpError 404);
  Remote.pulls_get_diff := fun _ _ => Remote.Ok [];
  Remote.pulls_listCommits := fun _ _ => Remote.Ok [JS.lit "add login"];
  Remote.pulls_list := fun _ _ _ => Remote.Ok [];
  Remote.pulls_get := fun _ n =>
    Remote.Ok {| Remote.number := n;
                 Remote.title := JS.lit "Updating v0.0.0";
                 Remote.body := None;
                 Remote.merged := false;
                 Remote.draft := false;
                 Remote.head_ref := JS.lit "staging";
                 Remote.base_ref := JS.lit "main";
                 Remote.user_login := Some (JS.lit "release-bot");
                 Remote.html_url := [] |};
  Remote.repos_getLatestRelease := fun _ => Remote.Throw (Remote.HttpError 404);
  Remote.repos_listTags := fun _ => Remote.Ok [];
  Remote.chat_completions_create := fun _ request =>
    if existsb (fun m => JS.includes (Remote.content m) (JS.lit "VERSION_TYPE:"))
               (Remote.req_messages request)
    then Remote.Ok (Some (JS.lit "VERSION_TYPE: MINOR
SUMMARY: Add a login page
"))
    else Remote.Ok (Some (JS.lit "New Features
- Login page
"));
  Remote.answer := fun _ _ => Remote.Ok {| Remote.new_number := 31%N; Remote.new_html_url := [] |};
  Remote.toISOString := fun _ => JS.lit "2025-03-01T12:00:00.000Z" |}.

(** An open pull request from staging to main. *)
Definition candidate (n : N) (isDraft : bool) : Remote.PullRequest := {|
  Remote.number := n;
  Remote.title := JS.lit "Updating v1.4.2";
  Remote.body := None;
  Remote.merged := false;
  Remote.draft := isDraft;
  Remote.head_ref := JS.lit "staging";
  Remote.base_ref := JS.lit "main";
  Remote.user_login := Some (JS.lit "release-bot");
  Remote.html_url := [] |}.

(** An environment where the draft exists and the completion service
    answers a request for a summary with one bullet, and a request for a
    version type with a bump class and a long headline. *)
Definition draftWorld : Remote.World := {|
  Remote.OPENAI_API_KEY := Some (JS.lit "sk-test");
  Remote.repos_getContent := fun _ => Remote.Throw (Remote.HttpError 404);
  Remote.pulls_get_diff := fun _ _ => Remote.Ok (JS.lit "diff --git a/src/login.ts b/src/login.ts
+export const login = 1;
");
  Remote.pulls_listCommits := fun _ _ => Remote.Ok [JS.lit "add login"];
  Remote.pulls_list := fun _ _ _ => Remote.Ok [candidate 12 true];
  Remote.pulls_get := fun _ _ => Remote.Ok (candidate 12 true);
  Remote.repos_getLatestRelease := fun _ => Remote.Ok (JS.lit "v1.4.2");
  Remote.repos_listTags := fun _ => Remote.Ok [];
  Remote.chat_completions_create := fun _ request =>
    if existsb (fun m => JS.includes (Remote.content m) (JS.lit "VERSION_TYPE:"))
               (Remote.req_messages request)
    then Remote.Ok (Some (JS.lit "VERSION_TYPE: minor
SUMMARY: Add a login page with email and password and a remember-me option
"))
    else Remote.Ok (Some (JS.lit "New Features
- Login page

Bugs / Improvements
"));
  Remote.answer := fun _ _ => Remote.Ok {| Remote.new_number := 12%N; Remote.new_html_url := [] |};
  Remote.toISOString := fun _ => JS.lit "2025-03-01T12:00:00.000Z" |}.

(** An environment whose listing for the qualified head holds an ordinary
    pull request followed by a draft. *)
Definition twoCandidatesWorld : Remote.World := {|
  Remote.OPENAI_API_KEY := Some (JS.lit "sk-test");
  Remote.repos_getContent := fun _ => Remote.Throw (Remote.HttpError 404);
  Remote.pulls_get_diff := fun _ _ => Remote.Ok [];
  Remote.pulls_listCommits := fun _ _ => Remote.Ok [];
  Remote.pulls_list := fun _ _ _ => Remote.Ok [candidate 11 false; candidate 12 true];
  Remote.pulls_get := fun _ _ => Remote.Throw (Remote.HttpError 404);
  Remote.repos_getLatestRelease := fun _ => Remote.Throw (Remote.HttpError 404);
  Remote.repos_listTags := fun _ => Remote.Ok [];
  Remote.chat_completions_create := fun _ _ => Remote.Ok None;
  Remote.answer := fun _ _ => Remote.Ok {| Remote.new_number := 1%N; Remote.new_html_url := [] |};
  Remote.toISOString := fun _ => JS.lit "2025-03-01T12:00:00.000Z" |}.

(** A configuration file that renames the staging branch. *)
Definition renamedStaging : Config.RepoConfig := {|
  Config.branches := Some {| Config.release_branch := None;
                             Config.staging_branch := Some (JS.lit "develop") |};
  Config.pr := None;
  Config.release := None;
  Config.changelog := None;
  Config.releaseTags := None;
  Config.ai := None |}.

(** A configuration that switches the AI feature off. *)
Definition aiOff : Config.RepoConfig := {|
  Config.branches := Config.branches Config.DEFAULT_CONFIG;
  Config.pr := Config.pr Config.DEFAULT_CONFIG;
  Config.release := Config.release Config.DEFAULT_CONFIG;
  Config.changelog := Config.changelog Config.DEFAULT_CONFIG;
  Config.releaseTags := Config.releaseTags Config.DEFAULT_CONFIG;
  Config.ai := Some {| Config.enabled := Some false;
                       Config.openai := None;
                       Config.featureSummaryPrompt := None;
                       Config.versionTypePrompt := None |} |}.

(** A service object with that configuration. *)
Definition serviceWithAiOff : Remote.State :=
  {| Remote.config := aiOff; Remote.clock := 0; Remote.log := [] |}.

(** A feature branch merged into staging. *)
Definition featureEvent : Remote.Context := {|
  Remote.owner := JS.lit "acme";
  Remote.repo := JS.lit "shop";
  Remote.has_repository := true;
  Remote.pull_request := {|
    Remote.number := 7%N;
    Remote.title := JS.lit "Add login";
    Remote.body := Some (JS.lit "Adds the login page");
    Remote.merged := true;
    Remote.draft := false;
    Remote.head_ref := JS.lit "feature/login";
    Remote.base_ref := JS.lit "staging";
    Remote.user_login := Some (JS.lit "ann");
    Remote.html_url := JS.lit "https://example.test/acme/shop/pull/7" |} |}.

(** The pull request from staging to main, merged, under a given title. *)
Definition releaseEvent (title : JS.str) : Remote.Context := {|
  Remote.owner := JS.lit "acme";
  Remote.repo := JS.lit "shop";
  Remote.has_repository := true;
  Remote.pull_request := {|
    Remote.number := 12%N;
    Remote.title := title;
    Remote.body := Some (JS.lit "## New Features
- Login page
");
    Remote.merged := true;
    Remote.draft := false;
    Remote.head_ref := JS.lit "staging";
    Remote.base_ref := JS.lit "main";
    Remote.user_login := Some (JS.lit "release-bot");
    Remote.html_url := JS.lit "https://example.test/acme/shop/pull/12" |} |}.

(* ====================================================================== *)
(** * The vocabulary of the further properties *)
(* ====================================================================== *)

(** A bullet as [parseSummary] answers it: not empty, without white space
    at either end, and on one line. *)
Definition cleanBullet (b : JS.str) : Prop :=
  b <> [] /\ JS.trim b = b /\ forall c, In c b -> JS.isLineTerminator c = false.

(** The answer that the request for a summary asks for: each heading on
    a line of its own, followed by its bullets, one [- text] a line, and
    an empty line between the two sections. *)
Definition bulletLine (b : JS.str) : JS.str := JS.lit "- " ++ b ++ [JS.LF].

Definition renderedSummary (features bugs : list JS.str) : JS.str :=
  Helpers.FEATURES_SECTION ++ [JS.LF] ++ concat (map bulletLine features) ++ [JS.LF] ++
  Helpers.BUGS_SECTION ++ [JS.LF] ++ concat (map bulletLine bugs).

(** What the scanner of [parseSummary] holds in its group lies on one
    line. *)
Definition scanOnLine (st : Helpers.BulletScan) : Prop :=
  match st with
  | Helpers.Group acc => forall c, In c acc -> JS.isLineTerminator c = false
  | _ => True
  end.

(** The bullets of a section as lines [- text], without a final newline. *)
Definition dashed (b : JS.str) : JS.str := JS.lit "- " ++ b.

Definition bulletLines (bs : list JS.str) : JS.str := JS.join [JS.LF] (map dashed bs).

(** A text on one line. *)
Definition oneLineText (t : JS.str) : Prop :=
  forall c, In c t -> JS.isLineTerminator c = false.

(** The lines of a unified diff: the header of a file, the two lines
    that name its old and its new version, the header of a hunk, a line
    of context, an added line and a removed line. *)
Inductive DiffLine :=
| FileHeader (oldPath newPath : JS.str)
| OldFile (path : JS.str)
| NewFile (path : JS.str)
| Hunk (range : JS.str)
| Unchanged (text : JS.str)
| Added (text : JS.str)
| Removed (text : JS.str).

Definition diffLineText (l : DiffLine) : JS.str :=
  match l with
  | FileHeader oldPath newPath =>
      JS.lit "diff --git a/" ++ oldPath ++ JS.lit " b/" ++ newPath
  | OldFile path => JS.lit "--- a/" ++ path
  | NewFile path => JS.lit "+++ b/" ++ path
  | Hunk range => JS.lit "@@ " ++ range
  | Unchanged text => JS.ch 32 :: text
  | Added text => JS.ch 43 :: text
  | Removed text => JS.ch 45 :: text
  end.

(** The text of a diff: every line ends with a newline. *)
Definition diffTextOf (d : list DiffLine) : JS.str :=
  concat (map (fun l => diffLineText l ++ [JS.LF]) d).

(** Every text lies on one line; the first [ b/] of a file header is the
    one between its two paths; the text of an added line does not begin
    with [+], and the text of a removed line does not begin with [-]. *)
Definition plainDiffLine (l : DiffLine) : Prop :=
  match l with
  | FileHeader oldPath newPath =>
      oneLineText oldPath /\ oneLineText newPath /\
      JS.indexOf (oldPath ++ JS.lit " b/") (JS.lit " b/") 0 = Some (length oldPath)
  | OldFile t | NewFile t | Hunk t | Unchanged t => oneLineText t
  | Added text => oneLineText text /\ JS.startsWith [JS.ch 43] text = false
  | Removed text => oneLineText text /\ JS.startsWith [JS.ch 45] text = false
  end.

Definition filesOf (d : list DiffLine) : list JS.str :=
  flat_map (fun l => match l with FileHeader oldPath _ => [oldPath] | _ => [] end) d.

Definition isAdded (l : DiffLine) : bool :=
  match l with Added _ => true | _ => false end.

Definition isRemoved (l : DiffLine) : bool :=
  match l with Removed _ => true | _ => false end.

(** A diff of one file: one line removed, two added. *)
Definition sampleDiff : list DiffLine :=
  [ FileHeader (JS.lit "src/cart.ts") (JS.lit "src/cart.ts");
    OldFile (JS.lit "src/cart.ts");
    NewFile (JS.lit "src/cart.ts");
    Hunk (JS.lit "-1,3 +1,4 @@");
    Unchanged (JS.lit "export function total(items) {");
    Removed (JS.lit "  return 0;");
    Added (JS.lit "  if (!items) return 0;");
    Added (JS.lit "  return items.length;");
    Unchanged (JS.lit "}") ].

(** The quiet repository, answering every request for a diff with that
    one. *)
Definition diffWorld : Remote.World := {|
  Remote.OPENAI_API_KEY := Remote.OPENAI_API_KEY quietWorld;
  Remote.repos_getContent := Remote.repos_getContent quietWorld;
  Remote.pulls_get_diff := fun _ _ => Remote.Ok (diffTextOf sampleDiff);
  Remote.pulls_listCommits := Remote.pulls_listCommits quietWorld;
  Remote.pulls_list := Remote.pulls_list quietWorld;
  Remote.pulls_get := Remote.pulls_get quietWorld;
  Remote.repos_getLatestRelease := Remote.repos_getLatestRelease quietWorld;
  Remote.repos_listTags := Remote.repos_listTags quietWorld;
  Remote.chat_completions_create := Remote.chat_completions_create quietWorld;
  Remote.answer := Remote.answer quietWorld;
  Remote.toISOString := Remote.toISOString quietWorld |}.

(** A specification of a program of the service: run with the
    configuration [c], it leaves the configuration as it is, and its
    result [r] and the writes [ws] it requests, in order, satisfy [Q]. *)
Definition emits (c : Config.RepoConfig) {A} (m : Remote.M A)
  (Q : Remote.Result A -> list Remote.Write -> Prop) : Prop :=
  forall w s, Remote.config s = c ->
    exists ws,
      Remote.log (snd (m w s)) = Remote.log s ++ ws /\
      Remote.config (snd (m w s)) = c /\
      Q (fst (m w s)) ws.

(** The program requests no write. *)
Definition silent {A} : Remote.Result A -> list Remote.Write -> Prop :=
  fun _ ws => ws = [].

(** The program requests no write and returns, with a value in [P]. *)
Definition returns {A} (P : A -> Prop) : Remote.Result A -> list Remote.Write -> Prop :=
  fun r ws => ws = [] /\ exists a, r = Remote.Ok a /\ P a.

(** The program requests the write [wr] and nothing else. *)
Definition writes {A} (wr : Remote.Write) : Remote.Result A -> list Remote.Write -> Prop :=
  fun _ ws => ws = [wr].

(** The outcome of [m] followed by [k]. *)
Definition andThen {A B}
  (Q1 : Remote.Result A -> list Remote.Write -> Prop)
  (Q2 : A -> Remote.Result B -> list Remote.Write -> Prop) :
  Remote.Result B -> list Remote.Write -> Prop :=
  fun r ws =>
    (exists a ws1 ws2, Q1 (Remote.Ok a) ws1 /\ Q2 a r ws2 /\ ws = ws1 ++ ws2) \/
    (exists e, r = Remote.Throw e /\ Q1 (Remote.Throw e) ws).

(** The outcome of [m] with the handler [h] for what it throws. *)
Definition orCatch {A}
  (Q1 : Remote.Result A -> list Remote.Write -> Prop)
  (Q2 : Remote.Error -> Remote.Result A -> list Remote.Write -> Prop) :
  Remote.Result A -> list Remote.Write -> Prop :=
  fun r ws =>
    (exists a, r = Remote.Ok a /\ Q1 (Remote.Ok a) ws) \/
    (exists e ws1 ws2, Q1 (Remote.Throw e) ws1 /\ Q2 e r ws2 /\ ws = ws1 ++ ws2).

(** The request of [generateAISummary]: its own model and settings. *)
Definition releaseSummaryRequest (prContent : JS.str) : Remote.ChatRequest := {|
  Remote.req_model := JS.lit "gpt-4-turbo";
  Remote.req_messages :=
    [ PRService.systemMessage
        (JS.lit "You are a technical release notes assistant that creates concise summaries.");
      PRService.userMessage (PRService.releaseNotesRequest prContent) ];
  Remote.req_temperature := (5 # 10)%Q;
  Remote.req_max_tokens := 1000%Z |}.

(** The configuration object without any key. *)
Definition emptyConfig : Config.RepoConfig := {|
  Config.branches := None;
  Config.pr := None;
  Config.release := None;
  Config.changelog := None;
  Config.releaseTags := None;
  Config.ai := None |}.

(** The default configuration with the temperature [0]. *)
Definition zeroTemperature : Config.RepoConfig := {|
  Config.branches := Config.branches Config.DEFAULT_CONFIG;
  Config.pr := Config.pr Config.DEFAULT_CONFIG;
  Config.release := Config.release Config.DEFAULT_CONFIG;
  Config.changelog := Config.changelog Config.DEFAULT_CONFIG;
  Config.releaseTags := Config.releaseTags Config.DEFAULT_CONFIG;
  Config.ai := Some {| Config.enabled := Some true;
                       Config.openai := Some {| Config.model := Some (JS.lit "gpt-4o-mini");
                                                Config.temperature := Some 0%Q;
                                                Config.max_tokens := Some 2048%Z |};
                       Config.featureSummaryPrompt := None;
                       Config.versionTypePrompt := None |} |}.

Definition MISSING_FIELDS : Remote.Error :=
  Remote.JsError (JS.lit "OpenAI configuration is missing required fields").

Definition NO_API_KEY : Remote.Error :=
  Remote.JsError (JS.lit "OPENAI_API_KEY environment variable is not set").

(* ====================================================================== *)
(** * [PRService.createEmptyCommit] and the git endpoints of the host *)
(* ====================================================================== *)

Module Git.

Import Config.
Import Remote(Result, Ok, Throw, Error).

(** What the service reads of a commit: its [sha] and the [sha] of its
    tree. *)
Record Commit := { sha : str; tree_sha : str }.

(** The requests that change the repository. *)
Inductive Write :=
| CreateCommit (message tree : str) (parents : list str)
| UpdateRef (ref sha : str).

(** The git endpoints, each answered as a function of the moment of the
    call: [getRef] answers [reference.data.object.sha], [createCommit]
    the [sha] of the new commit. *)
Record Host := {
  getRef : nat -> str -> Result str;
  getCommit : nat -> str -> Result Commit;
  createCommit : nat -> str -> str -> list str -> Result str;
  updateRef : nat -> str -> str -> Result unit;
  toISOString : nat -> str }.

Record State := {
  config : RepoConfig;
  clock : nat;
  log : list Write }.

Definition M (A : Type) : Type := Host -> State -> Result A * State.

Definition ret {A} (a : A) : M A := fun _ s => (Ok a, s).

Definition throw {A} (e : Error) : M A := fun _ s => (Throw e, s).

Definition bind {A B} (m : M A) (k : A -> M B) : M B :=
  fun h s =>
    match m h s with
    | (Ok a, s') => k a h s'
    | (Throw e, s') => (Throw e, s')
    end.

Definition tryCatch {A} (m : M A) (handler : Error -> M A) : M A :=
  fun h s =>
    match m h s with
    | (Ok a, s') => (Ok a, s')
    | (Throw e, s') => handler e h s'
    end.

Definition tick (s : State) : State :=
  {| config := config s; clock := S (clock s); log := log s |}.

Definition getConfig : M RepoConfig := fun _ s => (Ok (config s), s).

(** An awaited read. *)
Definition request {A} (call : Host -> nat -> Result A) : M A :=
  fun h s => (call h (clock s), tick s).

(** An awaited write. *)
Definition send {A} (wr : Write) (call : Host -> nat -> Result A) : M A :=
  fun h s =>
    (call h (clock s),
     {| config := config s; clock := S (clock s); log := log s ++ [wr] |}).

Definition now : M str := fun h s => (Ok (toISOString h (clock s)), tick s).

(** [branch || this.config.branches?.staging || 'staging'] *)
Definition targetBranchOf (c : RepoConfig) (branch : option str) : str :=
  match branch with
  | Some (x :: xs) => x :: xs
  | _ => match staging_of c with
         | Some (x :: xs) => x :: xs
         | _ => lit "staging"
         end
  end.

(** [`heads/${targetBranch}`] *)
Definition headsRef (targetBranch : str) : str := lit "heads/" ++ targetBranch.

(** The [url] of the answer. *)
Definition commitUrl (context : Remote.Context) (sha : str) : str :=
  lit "https://github.com/" ++ Remote.owner context ++ lit "/" ++
  Remote.repo context ++ lit "/commit/" ++ sha.

(** [createEmptyCommit]; the answer is the pair of [sha] and [url]. *)
Definition createEmptyCommit
  (context : Remote.Context) (branch message : option str) : M (str * str) :=
  bind getConfig (fun c =>
  let targetBranch := targetBranchOf c branch in
  bind
    (match message with
     | Some (x :: xs) => ret (x :: xs)
     | _ => bind now (fun iso => ret (lit "Empty commit [" ++ iso ++ lit "]"))
     end) (fun commitMessage =>
  tryCatch
    (bind (request (fun h n => getRef h n (headsRef targetBranch))) (fun reference =>
     bind (request (fun h n => getCommit h n reference)) (fun latestCommit =>
     bind (send (CreateCommit commitMessage (tree_sha latestCommit) [sha latestCommit])
                (fun h n => createCommit h n commitMessage (tree_sha latestCommit)
                              [sha latestCommit])) (fun newCommit =>
     bind (send (UpdateRef (headsRef targetBranch) newCommit)
                (fun h n => updateRef h n (headsRef targetBranch) newCommit)) (fun _ =>
     ret (newCommit, commitUrl context newCommit))))))
    (fun error => throw error))).

End Git.

(** A host with one commit on [staging]. *)
Definition oneCommitHost : Git.Host := {|
  Git.getRef := fun _ _ => Remote.Ok (JS.lit "c0ffee");
  Git.getCommit := fun _ commit_sha =>
    Remote.Ok {| Git.sha := commit_sha; Git.tree_sha := JS.lit "7ree" |};
  Git.createCommit := fun _ _ _ _ => Remote.Ok (JS.lit "decaf");
  Git.updateRef := fun _ _ _ => Remote.Ok tt;
  Git.toISOString := fun _ => JS.lit "2025-03-01T12:00:00.000Z" |}.

Definition gitService : Git.State :=
  {| Git.config := Config.DEFAULT_CONFIG; Git.clock := 0; Git.log := [] |}.

(* ====================================================================== *)
(** * Facts about strings *)
(* ====================================================================== *)

Section StringFacts.

Import JS.

Lemma ascii_eqb_eq (a b : ascii) : ascii_eqb a b = true <-> a = b.
Proof. unfold ascii_eqb. apply Ascii.eqb_eq. Qed.

Lemma ascii_eqb_refl (a : ascii) : ascii_eqb a a = true.
Proof. apply ascii_eqb_eq. reflexivity. Qed.

Lemma str_eqb_eq (a b : str) : str_eqb a b = true <-> a = b.
Proof.
  revert b. induction a as [|x a IH]; intros [|y b]; simpl; split; intro H;
    try reflexivity; try discriminate.
  - apply andb_true_iff in H. destruct H as [H1 H2].
    apply ascii_eqb_eq in H1. apply IH in H2. subst. reflexivity.
  - injection H as -> ->. rewrite ascii_eqb_refl. simpl. apply IH. reflexivity.
Qed.

Lemma startsWith_app (p r : str) : startsWith p (p ++ r) = true.
Proof.
  induction p as [|x p IH]; simpl.
  - reflexivity.
  - rewrite ascii_eqb_refl. exact IH.
Qed.

Lemma startsWith_split (p s : str) :
  startsWith p s = true -> s = p ++ skipn (length p) s.
Proof.
  revert s. induction p as [|x p IH]; intros s H.
  - reflexivity.
  - destruct s as [|y s]; simpl in H; [discriminate|].
    apply andb_true_iff in H. destruct H as [H1 H2].
    apply ascii_eqb_eq in H1. subst y. simpl. f_equal. apply IH. exact H2.
Qed.

Lemma startsWith_iff (p s : str) :
  startsWith p s = true <-> exists r, s = p ++ r.
Proof.
  split.
  - intro H. exists (skipn (length p) s). apply startsWith_split. exact H.
  - intros [r ->]. apply startsWith_app.
Qed.

Lemma startsWith_trans (p q s : str) :
  startsWith p q = true -> startsWith q s = true -> startsWith p s = true.
Proof.
  intros H1 H2. apply startsWith_iff in H1. apply startsWith_iff in H2.
  destruct H1 as [r1 ->]. destruct H2 as [r2 ->].
  rewrite <- app_assoc. apply startsWith_app.
Qed.

Lemma startsWith_firstn (n : nat) (s : str) : startsWith (firstn n s) s = true.
Proof.
  apply startsWith_iff. exists (skipn n s). symmetry. apply firstn_skipn.
Qed.

(** A pattern no longer than [u] is looked for in [u] alone. *)
Lemma startsWith_within (p u v : str) :
  length p <= length u -> startsWith p (u ++ v) = startsWith p u.
Proof.
  revert u. induction p as [|x p IH]; intros u H.
  - reflexivity.
  - destruct u as [|y u]; simpl in H; [lia|].
    simpl. rewrite IH by lia. reflexivity.
Qed.

(** [findFrom] answers the first position where the pattern occurs. *)
Lemma findFrom_Some (p s : str) (i j : nat) :
  findFrom p s i = Some j ->
  i <= j /\ j - i <= length s /\
  startsWith p (skipn (j - i) s) = true /\
  forall k, k < j - i -> startsWith p (skipn k s) = false.
Proof.
  revert i. induction s as [|c s IH]; intros i H.
  - simpl in H. destruct (startsWith p []) eqn:E; [|discriminate].
    injection H as <-. rewrite Nat.sub_diag. simpl.
    repeat split; try lia. exact E.
  - cbn [findFrom] in H. destruct (startsWith p (c :: s)) eqn:E.
    + injection H as <-. rewrite Nat.sub_diag.
      repeat split; try lia. exact E.
    + apply IH in H. destruct H as (H1 & H2 & H3 & H4).
      replace (j - i) with (S (j - S i)) by lia.
      repeat split; try lia.
      * simpl. lia.
      * exact H3.
      * intros [|k] Hk; [exact E|]. simpl. apply H4. lia.
Qed.

Lemma findFrom_first (p s : str) (i k : nat) :
  startsWith p (skipn k s) = true ->
  (forall q, q < k -> startsWith p (skipn q s) = false) ->
  k <= length s ->
  findFrom p s i = Some (i + k).
Proof.
  revert i k. induction s as [|c s IH]; intros i k Hk Hmin Hlen.
  - simpl in Hlen. assert (k = 0) by lia. subst k. simpl in Hk.
    simpl. rewrite Hk. f_equal. lia.
  - destruct k as [|k].
    + simpl in Hk. cbn [findFrom]. rewrite Hk. f_equal. lia.
    + cbn [findFrom]. pose proof (Hmin 0 ltac:(lia)) as H0. simpl in H0. rewrite H0.
      replace (i + S k) with (S i + k) by lia.
      apply IH.
      * exact Hk.
      * intros q Hq. apply (Hmin (S q)). lia.
      * simpl in Hlen. lia.
Qed.

Lemma indexOf_0 (s p : str) : indexOf s p 0 = findFrom p s 0.
Proof. reflexivity. Qed.

Lemma includes_true (s p : str) :
  includes s p = true -> exists i, indexOf s p 0 = Some i.
Proof.
  unfold includes. destruct (indexOf s p 0) as [i|]; [|discriminate].
  intros _. exists i. reflexivity.
Qed.

Lemma getSubstitution_plain (m b a t : str) :
  ~ In DOLLAR t -> getSubstitution m b a t = t.
Proof.
  induction t as [|c t IH]; intro H.
  - reflexivity.
  - cbn [getSubstitution].
    destruct (ascii_eqb c DOLLAR) eqn:E.
    + apply ascii_eqb_eq in E. subst c. exfalso. apply H. left. reflexivity.
    + f_equal. apply IH. intro Hin. apply H. right. exact Hin.
Qed.

End StringFacts.

(* ====================================================================== *)
(** * The version policy *)
(* ====================================================================== *)

Section VersionPolicy.

Import JS Helpers.
Local Open Scope Z_scope.

Lemma versionComponent_nonempty (part : str) (v : Z) :
  versionComponent part v -> exists c t, part = c :: t.
Proof.
  intros [H _]. destruct part as [|c t].
  - discriminate H.
  - exists c, t. reflexivity.
Qed.

Lemma show_nonneg (v : Z) : 0 <= v -> show (Int v) = showNat v.
Proof.
  intro H. unfold show. destruct (v <? 0) eqn:E; [|reflexivity].
  apply Z.ltb_lt in E. lia.
Qed.

End VersionPolicy.

(** What [calculateNewVersion] answers, from the three components. *)
Lemma calculateNewVersion_of_components
  (currentVersion a b c : JS.str) (ma mi pa : Z) :
  JS.split (JS.ch 46) currentVersion = [a; b; c] ->
  versionComponent a ma -> versionComponent b mi -> versionComponent c pa ->
  Helpers.calculateNewVersion currentVersion Helpers.major
    = JS.showNat (ma + 1) ++ JS.lit ".0.0" /\
  Helpers.calculateNewVersion currentVersion Helpers.minor
    = JS.showNat ma ++ JS.lit "." ++ JS.showNat (mi + 1) ++ JS.lit ".0" /\
  Helpers.calculateNewVersion currentVersion Helpers.patch
    = JS.showNat ma ++ JS.lit "." ++ JS.showNat mi ++ JS.lit "." ++ JS.showNat (pa + 1).
Proof.
  intros Hsplit Ha Hb Hc.
  destruct (versionComponent_nonempty _ _ Ha) as (xa & ta & ->).
  destruct (versionComponent_nonempty _ _ Hb) as (xb & tb & ->).
  destruct (versionComponent_nonempty _ _ Hc) as (xc & tc & ->).
  destruct Ha as [Ha Ra], Hb as [Hb Rb], Hc as [Hc Rc].
  unfold Helpers.calculateNewVersion. rewrite Hsplit.
  cbn [Helpers.partOrZero nth_error].
  rewrite Ha, Hb, Hc. cbn [JS.succ].
  rewrite !show_nonneg by lia.
  repeat split; reflexivity.
Qed.


(** The decimal rendering is read back by [parseInt]: the components of a
    rendered version are version components. *)
Section DecimalRoundTrip.

Import JS.
Local Open Scope Z_scope.

Lemma valueOf_snoc (ds : str) (d : ascii) :
  valueOf (ds ++ [d]) = 10 * valueOf ds + digitVal d.
Proof. unfold valueOf. rewrite fold_left_app. reflexivity. Qed.

Lemma digitChar_digit (d : Z) :
  0 <= d < 10 -> isDigit (digitChar d) = true /\ digitVal (digitChar d) = d.
Proof.
  intro H.
  assert (d = 0 \/ d = 1 \/ d = 2 \/ d = 3 \/ d = 4 \/
          d = 5 \/ d = 6 \/ d = 7 \/ d = 8 \/ d = 9) as C by lia.
  repeat (destruct C as [-> | C]; [split; reflexivity|]).
  subst d. split; reflexivity.
Qed.

Lemma digitsOf_spec (f : nat) :
  forall (z : Z) (acc : str),
    0 <= z < 2 ^ Z.of_nat (S f) ->
    exists ds d,
      digitsOf (S f) z acc = ds ++ d :: acc /\
      forallb isDigit (ds ++ [d]) = true /\
      valueOf (ds ++ [d]) = z.
Proof.
  induction f as [|f IH]; intros z acc Hz.
  - assert (z / 10 = 0) as E.
    { apply Z.div_small. change (2 ^ Z.of_nat 1) with 2 in Hz. lia. }
    cbn [digitsOf]. rewrite E. cbn [Z.eqb].
    destruct (digitChar_digit (z mod 10)) as [D1 D2].
    { apply Z.mod_pos_bound. lia. }
    exists [], (digitChar (z mod 10)). cbn [app forallb]. rewrite D1.
    repeat split. unfold valueOf. cbn [fold_left]. rewrite D2.
    rewrite Z.mod_small; [reflexivity|]. change (2 ^ Z.of_nat 1) with 2 in Hz. lia.
  - destruct (digitChar_digit (z mod 10)) as [D1 D2].
    { apply Z.mod_pos_bound. lia. }
    change (digitsOf (S (S f)) z acc) with
      (if z / 10 =? 0 then digitChar (z mod 10) :: acc
       else digitsOf (S f) (z / 10) (digitChar (z mod 10) :: acc)).
    destruct (z / 10 =? 0) eqn:E.
    + apply Z.eqb_eq in E.
      exists [], (digitChar (z mod 10)). cbn [app forallb]. rewrite D1.
      repeat split. unfold valueOf. cbn [fold_left]. rewrite D2.
      pose proof (Z.div_mod z 10 ltac:(lia)). lia.
    + apply Z.eqb_neq in E.
      destruct (IH (z / 10) (digitChar (z mod 10) :: acc)) as (ds & d & H1 & H2 & H3).
      { split.
        - apply Z.div_pos; lia.
        - rewrite Nat2Z.inj_succ, Z.pow_succ_r in Hz by lia.
          apply Z.div_lt_upper_bound; lia. }
      exists (ds ++ [d]), (digitChar (z mod 10)).
      repeat split.
      * rewrite H1. rewrite <- app_assoc. reflexivity.
      * rewrite forallb_app, H2. cbn [forallb]. rewrite D1. reflexivity.
      * rewrite valueOf_snoc, H3, D2.
        pose proof (Z.div_mod z 10 ltac:(lia)). lia.
Qed.

Lemma digitsValue_digits (ds : str) :
  forallb isDigit ds = true ->
  forall acc, digitsValue acc ds = fold_left (fun a c => 10 * a + digitVal c) ds acc.
Proof.
  induction ds as [|c ds IH]; intros H acc.
  - reflexivity.
  - cbn [forallb] in H. apply andb_true_iff in H. destruct H as [H1 H2].
    cbn [digitsValue fold_left]. rewrite H1. apply IH. exact H2.
Qed.

Lemma digit_not_sign (c : ascii) :
  isDigit c = true ->
  isSpace c = false /\ ascii_eqb c (ch 45) = false /\ ascii_eqb c (ch 43) = false.
Proof.
  destruct c as [[] [] [] [] [] [] [] []]; intro H; try discriminate H;
    repeat split; reflexivity.
Qed.

Lemma parseInt10_digits (c : ascii) (ds : str) :
  forallb isDigit (c :: ds) = true ->
  parseInt10 (c :: ds) = Int (valueOf (c :: ds)).
Proof.
  intro H. pose proof H as H'.
  cbn [forallb] in H'. apply andb_true_iff in H'. destruct H' as [Hc _].
  destruct (digit_not_sign c Hc) as (S1 & S2 & S3).
  unfold parseInt10. cbn [trimStart]. rewrite S1, S2, S3.
  unfold unsignedInt. rewrite Hc.
  rewrite digitsValue_digits by exact H. reflexivity.
Qed.

Lemma showNat_spec (z : Z) :
  0 <= z ->
  exists c ds, showNat z = c :: ds /\ forallb isDigit (c :: ds) = true /\
               valueOf (c :: ds) = z.
Proof.
  intro Hz. unfold showNat.
  destruct (digitsOf_spec (Z.to_nat (Z.log2 z)) z []) as (ds & d & H1 & H2 & H3).
  { split; [exact Hz|].
    rewrite Nat2Z.inj_succ, Z2Nat.id by apply Z.log2_nonneg.
    destruct (Z.eq_dec z 0) as [->|Hn].
    - reflexivity.
    - apply Z.log2_spec. lia. }
  rewrite H1. destruct ds as [|c ds].
  - exists d, []. repeat split; assumption.
  - exists c, (ds ++ [d]). repeat split; assumption.
Qed.

Lemma parseInt10_showNat (z : Z) : 0 <= z -> parseInt10 (showNat z) = Int z.
Proof.
  intro Hz. destruct (showNat_spec z Hz) as (c & ds & H1 & H2 & H3).
  rewrite H1, parseInt10_digits by exact H2. rewrite H3. reflexivity.
Qed.

Lemma versionComponent_showNat (z : Z) :
  0 <= z <= MAX_SAFE_INTEGER -> versionComponent (showNat z) z.
Proof.
  intro H. split; [apply parseInt10_showNat; lia | exact H].
Qed.

End DecimalRoundTrip.

Section RenderedVersions.

Import JS Helpers.

Lemma split_no_separator (c : ascii) (s : str) :
  ~ In c s -> split c s = [s].
Proof.
  induction s as [|x s IH]; intro H.
  - reflexivity.
  - cbn [split]. destruct (ascii_eqb x c) eqn:E.
    + apply ascii_eqb_eq in E. subst x. exfalso. apply H. left. reflexivity.
    + rewrite IH; [reflexivity|]. intro Hin. apply H. right. exact Hin.
Qed.

Lemma split_app (c : ascii) (a rest : str) :
  ~ In c a -> split c (a ++ c :: rest) = a :: split c rest.
Proof.
  induction a as [|x a IH]; intro H.
  - cbn [app split]. rewrite ascii_eqb_refl. reflexivity.
  - cbn [app split]. destruct (ascii_eqb x c) eqn:E.
    + apply ascii_eqb_eq in E. subst x. exfalso. apply H. left. reflexivity.
    + rewrite IH; [reflexivity|]. intro Hin. apply H. right. exact Hin.
Qed.

Lemma digits_no_dot (ds : str) : forallb isDigit ds = true -> ~ In (ch 46) ds.
Proof.
  induction ds as [|x ds IH]; intros H Hin.
  - exact Hin.
  - cbn [forallb] in H. apply andb_true_iff in H. destruct H as [Hx Hd].
    destruct Hin as [E|Hin].
    + subst x. discriminate Hx.
    + exact (IH Hd Hin).
Qed.

Lemma showNat_no_dot (z : Z) : (0 <= z)%Z -> ~ In (ch 46) (showNat z).
Proof.
  intro Hz. destruct (showNat_spec z Hz) as (c & ds & H1 & H2 & _).
  rewrite H1. apply digits_no_dot. exact H2.
Qed.

(** The components of a rendered version. *)
Lemma split_rendered (ma mi pa : Z) :
  (0 <= ma)%Z -> (0 <= mi)%Z -> (0 <= pa)%Z ->
  split (ch 46) (showNat ma ++ lit "." ++ showNat mi ++ lit "." ++ showNat pa)
    = [showNat ma; showNat mi; showNat pa].
Proof.
  intros Ha Hi Hp. cbn [lit list_ascii_of_string app].
  change "."%char with (ch 46).
  rewrite split_app by (apply showNat_no_dot; exact Ha).
  rewrite split_app by (apply showNat_no_dot; exact Hi).
  rewrite split_no_separator by (apply showNat_no_dot; exact Hp).
  reflexivity.
Qed.

End RenderedVersions.

(** Hence for all [ma], [mi], [pa] from [0] to [MAX_SAFE_INTEGER] the
    version [ma.mi.pa] is bumped by the reset rules. *)
Lemma calculateNewVersion_rendered (ma mi pa : Z) :
  (0 <= ma <= JS.MAX_SAFE_INTEGER)%Z ->
  (0 <= mi <= JS.MAX_SAFE_INTEGER)%Z ->
  (0 <= pa <= JS.MAX_SAFE_INTEGER)%Z ->
  let currentVersion :=
    JS.showNat ma ++ JS.lit "." ++ JS.showNat mi ++ JS.lit "." ++ JS.showNat pa in
  Helpers.calculateNewVersion currentVersion Helpers.major
    = JS.showNat (ma + 1) ++ JS.lit ".0.0" /\
  Helpers.calculateNewVersion currentVersion Helpers.minor
    = JS.showNat ma ++ JS.lit "." ++ JS.showNat (mi + 1) ++ JS.lit ".0" /\
  Helpers.calculateNewVersion currentVersion Helpers.patch
    = JS.showNat ma ++ JS.lit "." ++ JS.showNat mi ++ JS.lit "." ++ JS.showNat (pa + 1).
Proof.
  intros Ha Hi Hp currentVersion.
  apply (calculateNewVersion_of_components currentVersion
           (JS.showNat ma) (JS.showNat mi) (JS.showNat pa)).
  - apply split_rendered; lia.
  - apply versionComponent_showNat. exact Ha.
  - apply versionComponent_showNat. exact Hi.
  - apply versionComponent_showNat. exact Hp.
Qed.

(** C1. For every version string whose three dot-separated components
    parse to non-negative integers [ma], [mi], [pa], [calculateNewVersion]
    answers [(ma+1).0.0] for 'major', [ma.(mi+1).0] for 'minor' and
    [ma.mi.(pa+1)] for 'patch', the numbers in decimal. *)
Theorem calculateNewVersion_semver_reset
  (currentVersion a b c : JS.str) (ma mi pa : Z) :
  JS.split (JS.ch 46) currentVersion = [a; b; c] ->
  versionComponent a ma -> versionComponent b mi -> versionComponent c pa ->
  Helpers.calculateNewVersion currentVersion Helpers.major
    = JS.showNat (ma + 1) ++ JS.lit ".0.0" /\
  Helpers.calculateNewVersion currentVersion Helpers.minor
    = JS.showNat ma ++ JS.lit "." ++ JS.showNat (mi + 1) ++ JS.lit ".0" /\
  Helpers.calculateNewVersion currentVersion Helpers.patch
    = JS.showNat ma ++ JS.lit "." ++ JS.showNat mi ++ JS.lit "." ++ JS.showNat (pa + 1).
Proof. exact (calculateNewVersion_of_components currentVersion a b c ma mi pa). Qed.

(** The version [1.4.2] under the three bump classes. *)
Lemma calculateNewVersion_semver_reset_witness :
  Helpers.calculateNewVersion (JS.lit "1.4.2") Helpers.major = JS.lit "2.0.0" /\
  Helpers.calculateNewVersion (JS.lit "1.4.2") Helpers.minor = JS.lit "1.5.0" /\
  Helpers.calculateNewVersion (JS.lit "1.4.2") Helpers.patch = JS.lit "1.4.3".
Proof.
  apply (calculateNewVersion_semver_reset
           (JS.lit "1.4.2") (JS.lit "1") (JS.lit "4") (JS.lit "2") 1 4 2).
  - reflexivity.
  - split; [reflexivity | unfold JS.MAX_SAFE_INTEGER; lia].
  - split; [reflexivity | unfold JS.MAX_SAFE_INTEGER; lia].
  - split; [reflexivity | unfold JS.MAX_SAFE_INTEGER; lia].
Defined.

(* ====================================================================== *)
(** * The document merge *)
(* ====================================================================== *)

Section DocumentMerge.

Import JS Helpers PRText.

Lemma firstn_skipn_length (n : nat) (l : str) :
  firstn n l ++ skipn (length (firstn n l)) l = l.
Proof.
  revert l. induction n as [|n IH]; intros [|c l]; simpl; try reflexivity.
  f_equal. apply IH.
Qed.

Lemma firstn_length_app (a r : str) : firstn (length a) (a ++ r) = a.
Proof. rewrite firstn_app, Nat.sub_diag, firstn_all. simpl. apply app_nil_r. Qed.

Lemma skipn_length_app (a r : str) : skipn (length a) (a ++ r) = r.
Proof. rewrite skipn_app, Nat.sub_diag, skipn_all. reflexivity. Qed.

Lemma startsWith_length (p s : str) :
  startsWith p s = true -> length p <= length s.
Proof.
  intro H. apply startsWith_split in H.
  apply (f_equal (@length ascii)) in H. rewrite length_app in H. lia.
Qed.

Lemma occurs_findFrom (p s : str) (i k : nat) :
  startsWith p (skipn k s) = true -> exists j, findFrom p s i = Some j.
Proof.
  revert i k. induction s as [|c s IH]; intros i k H.
  - rewrite skipn_nil in H. simpl. rewrite H. exists i. reflexivity.
  - cbn [findFrom]. destruct (startsWith p (c :: s)) eqn:E.
    + exists i. reflexivity.
    + destruct k as [|k].
      * simpl in H. congruence.
      * simpl in H. apply (IH (S i) k). exact H.
Qed.

Lemma includes_intro (s p : str) (k : nat) :
  startsWith p (skipn k s) = true -> includes s p = true.
Proof.
  intro H. unfold includes. rewrite indexOf_0.
  destruct (occurs_findFrom p s 0 k H) as [j ->]. reflexivity.
Qed.

Lemma includes_elim (s p : str) :
  includes s p = true ->
  exists k, k <= length s /\ startsWith p (skipn k s) = true.
Proof.
  intro H. apply includes_true in H. destruct H as [i H].
  rewrite indexOf_0 in H. apply findFrom_Some in H.
  destruct H as (_ & H2 & H3 & _). rewrite Nat.sub_0_r in *.
  exists i. split; assumption.
Qed.

Lemma includes_app (s t p : str) :
  includes s p = true -> includes (s ++ t) p = true.
Proof.
  intro H. apply includes_elim in H. destruct H as (k & Hk & H).
  apply (includes_intro _ _ k).
  rewrite skipn_app. replace (k - length s) with 0 by lia.
  apply startsWith_iff in H. destruct H as [r ->].
  simpl. rewrite <- app_assoc. apply startsWith_app.
Qed.

Lemma ensureSection_includes (b s ph : str) :
  includes (ensureSection b s ph) (heading s) = true.
Proof.
  unfold ensureSection. destruct (includes b (heading s)) eqn:E.
  - exact E.
  - apply (includes_intro _ _ (length b + 2)).
    rewrite skipn_app.
    replace (length b + 2 - length b) with 2 by lia.
    rewrite skipn_all2 by lia. simpl. apply startsWith_app.
Qed.

Lemma ensureSection_keeps (b s ph p : str) :
  includes b p = true -> includes (ensureSection b s ph) p = true.
Proof.
  intro H. unfold ensureSection. destruct (includes b (heading s)).
  - exact H.
  - apply includes_app. exact H.
Qed.

Lemma ensureSection_extends (b s ph : str) :
  exists tail, ensureSection b s ph = b ++ tail.
Proof.
  unfold ensureSection. destruct (includes b (heading s)).
  - exists []. symmetry. apply app_nil_r.
  - eexists. reflexivity.
Qed.

Lemma ensureSection_present (b s ph : str) :
  includes b (heading s) = true -> ensureSection b s ph = b.
Proof. intro H. unfold ensureSection. rewrite H. reflexivity. Qed.

Lemma ensureSections_extends (b fs bs : str) :
  exists tail, ensureSections b fs bs = b ++ tail.
Proof.
  unfold ensureSections.
  destruct (ensureSection_extends b fs FEATURES_PLACEHOLDER) as [t1 ->].
  destruct (ensureSection_extends (b ++ t1) bs BUGS_PLACEHOLDER) as [t2 ->].
  exists (t1 ++ t2). symmetry. apply app_assoc.
Qed.

Lemma ensureSections_includes (b fs bs : str) :
  includes (ensureSections b fs bs) (heading fs) = true /\
  includes (ensureSections b fs bs) (heading bs) = true.
Proof.
  unfold ensureSections. split.
  - apply ensureSection_keeps. apply ensureSection_includes.
  - apply ensureSection_includes.
Qed.

Lemma sectionMatch_defined (doc s : str) :
  includes doc (heading s) = true -> exists p sc, sectionMatch doc s = Some (p, sc).
Proof.
  intro H. apply includes_true in H. destruct H as [p H].
  unfold sectionMatch. rewrite H. eexists. eexists. reflexivity.
Qed.

(** A piece of the document that starts where [h] first occurs, and
    begins with [h], occurs nowhere before: [replace] finds it there. *)
Lemma prefix_occurs (doc h : str) (n p : nat) :
  findFrom h doc 0 = Some p ->
  length h <= n ->
  let sc := firstn n (skipn p doc) in
  indexOf doc sc 0 = Some p /\
  startsWith h sc = true /\
  doc = firstn p doc ++ sc ++ skipn (p + length sc) doc.
Proof.
  intros E Hn sc. apply findFrom_Some in E.
  rewrite Nat.sub_0_r in E. destruct E as (_ & Hlen & Hocc & Hmin).
  assert (startsWith h sc = true) as Hh.
  { unfold sc. apply startsWith_split in Hocc. rewrite Hocc.
    rewrite firstn_app. rewrite (firstn_all2 h) by lia. apply startsWith_app. }
  repeat split.
  - rewrite indexOf_0. apply (findFrom_first _ _ 0 p).
    + apply startsWith_firstn.
    + intros q Hq. destruct (startsWith sc (skipn q doc)) eqn:E; [|reflexivity].
      rewrite <- (Hmin q Hq). symmetry.
      apply (startsWith_trans _ _ _ Hh E).
    + exact Hlen.
  - exact Hh.
  - unfold sc. rewrite Nat.add_comm, <- skipn_skipn, firstn_skipn_length.
    symmetry. apply firstn_skipn.
Qed.

Lemma sectionMatch_occurs (doc s : str) (p : nat) (sc : str) :
  sectionMatch doc s = Some (p, sc) ->
  indexOf doc sc 0 = Some p /\
  startsWith (heading s) sc = true /\
  doc = firstn p doc ++ sc ++ skipn (p + length sc) doc.
Proof.
  unfold sectionMatch. destruct (indexOf doc (heading s) 0) as [p'|] eqn:E; [|discriminate].
  intro H.
  assert (p' = p) as Hp by congruence.
  assert (firstn (length (heading s) +
                  lazyUntilHeading (skipn (p' + length (heading s)) doc))
                 (skipn p' doc) = sc) as Hs by congruence.
  subst p sc. apply prefix_occurs; [exact E | lia].
Qed.

Lemma insertBullets_replaces (doc s : str) (bullets : list str) (p : nat) (sc : str) :
  bullets <> [] ->
  sectionMatch doc s = Some (p, sc) ->
  insertBullets doc s bullets =
    firstn p doc ++
    getSubstitution sc (firstn p doc) (skipn (p + length sc) doc)
      (newSectionContent sc bullets) ++
    skipn (p + length sc) doc.
Proof.
  intros Hb Hm. unfold insertBullets. destruct bullets as [|b bs]; [congruence|].
  rewrite Hm. unfold replaceString.
  destruct (sectionMatch_occurs _ _ _ _ Hm) as (-> & _). reflexivity.
Qed.

Lemma findAtLineStart_bound (p s : str) (b : bool) (i j : nat) :
  Rx.findAtLineStart p s b i = Some j -> i <= j <= i + length s.
Proof.
  revert b i. induction s as [|c s IH]; intros b i H.
  - simpl in H. destruct (b && startsWith p []); [|discriminate].
    injection H as <-. simpl. lia.
  - cbn [Rx.findAtLineStart] in H. destruct (b && startsWith p (c :: s)).
    + injection H as <-. simpl. lia.
    + apply IH in H. simpl. lia.
Qed.

Lemma nextSectionPos_bound (body h : str) (p : nat) :
  indexOf body h 0 = Some p ->
  p + length h <= nextSectionPos body h p <= length body.
Proof.
  intro H. rewrite indexOf_0 in H. apply findFrom_Some in H.
  rewrite Nat.sub_0_r in H. destruct H as (_ & Hlen & Hocc & _).
  apply startsWith_length in Hocc. rewrite length_skipn in Hocc.
  unfold nextSectionPos.
  destruct (Rx.findAtLineStart (lit "## ") (skipn (p + length h) body) true 0) as [j|] eqn:E.
  - apply findAtLineStart_bound in E. rewrite length_skipn in E. lia.
  - lia.
Qed.

(** A text [p] that does not hold the first character of [b] occurs in
    [a ++ b] where it occurs in [a] or in [b], never across the two. *)
Lemma includes_app_boundary (a b p : str) (c : ascii) (b' : str) :
  b = c :: b' -> ~ In c p -> includes b p = false ->
  includes (a ++ b) p = includes a p.
Proof.
  intros Eb Hc Hb.
  destruct (includes a p) eqn:Ea.
  - apply includes_app. exact Ea.
  - destruct (includes (a ++ b) p) eqn:Eab; [|reflexivity].
    exfalso. apply includes_elim in Eab. destruct Eab as (k & _ & Hk).
    rewrite skipn_app in Hk.
    destruct (Nat.lt_ge_cases k (length a)) as [Hlt|Hge].
    + replace (k - length a) with 0 in Hk by lia. cbn [skipn] in Hk.
      destruct (Nat.le_gt_cases (length p) (length (skipn k a))) as [Hshort|Hlong].
      * rewrite startsWith_within in Hk by exact Hshort.
        rewrite (includes_intro a p k Hk) in Ea. discriminate.
      * apply startsWith_iff in Hk. destruct Hk as [r Hk]. subst b.
        apply Hc. apply (nth_error_In p (length (skipn k a))).
        rewrite <- (nth_error_app1 p r) by exact Hlong.
        rewrite <- Hk. rewrite nth_error_app2 by lia.
        rewrite Nat.sub_diag. reflexivity.
    + rewrite skipn_all2 in Hk by lia. cbn [app] in Hk.
      rewrite (includes_intro b p _ Hk) in Hb. discriminate.
Qed.

End DocumentMerge.

(** C2, as stated: a document without the section headers does not come
    back unchanged from a merge of no bullets. *)
Lemma addNewBulletsToBody_empty_changes_body :
  PRText.addNewBulletsToBody (JS.lit "Pending changes")
    Helpers.FEATURES_SECTION [] Helpers.BUGS_SECTION []
  = JS.lit "Pending changes

## New Features
<!-- New feature summaries will be added here -->


## Bugs / Improvements
<!-- Bug fixes and improvements will be added here -->
" /\
  PRText.addNewBulletsToBody (JS.lit "Pending changes")
    Helpers.FEATURES_SECTION [] Helpers.BUGS_SECTION []
  <> JS.lit "Pending changes".
Proof.
  split.
  - vm_compute. reflexivity.
  - vm_compute. discriminate.
Qed.

(** C2, amended. A merge of no bullets only creates the sections that are
    missing.  A document that holds both section headers comes back
    unchanged; a header that the document does not hold is appended, after
    an empty line, with its placeholder comment below it, the features
    header first; the header of the bugs is looked for in the document as
    the first step leaves it, which for the two names of the service is
    to look for it in the document given. *)
Theorem addNewBulletsToBody_empty_identity
  (prBody featuresSection bugsSection : JS.str) :
  let featuresBlock :=
    [JS.LF; JS.LF] ++ PRText.heading featuresSection ++ [JS.LF] ++
    PRText.FEATURES_PLACEHOLDER ++ [JS.LF] in
  let bugsBlock :=
    [JS.LF; JS.LF] ++ PRText.heading bugsSection ++ [JS.LF] ++
    PRText.BUGS_PLACEHOLDER ++ [JS.LF] in
  let merged := PRText.addNewBulletsToBody prBody featuresSection [] bugsSection [] in
  (JS.includes prBody (PRText.heading featuresSection) = true ->
   JS.includes prBody (PRText.heading bugsSection) = true ->
   merged = prBody) /\
  (JS.includes prBody (PRText.heading featuresSection) = true ->
   JS.includes prBody (PRText.heading bugsSection) = false ->
   merged = prBody ++ bugsBlock) /\
  (JS.includes prBody (PRText.heading featuresSection) = false ->
   JS.includes (prBody ++ featuresBlock) (PRText.heading bugsSection) = true ->
   merged = prBody ++ featuresBlock) /\
  (JS.includes prBody (PRText.heading featuresSection) = false ->
   JS.includes (prBody ++ featuresBlock) (PRText.heading bugsSection) = false ->
   merged = prBody ++ featuresBlock ++ bugsBlock) /\
  JS.includes
    (prBody ++ [JS.LF; JS.LF] ++ PRText.heading Helpers.FEATURES_SECTION ++ [JS.LF] ++
     PRText.FEATURES_PLACEHOLDER ++ [JS.LF])
    (PRText.heading Helpers.BUGS_SECTION)
  = JS.includes prBody (PRText.heading Helpers.BUGS_SECTION).
Proof.
  intros featuresBlock bugsBlock merged.
  unfold merged, PRText.addNewBulletsToBody, PRText.ensureSections, PRText.ensureSection.
  cbn [PRText.insertBullets]. fold featuresBlock. fold bugsBlock.
  split; [|split; [|split; [|split]]].
  - intros Hf Hb. rewrite Hf, Hb. reflexivity.
  - intros Hf Hb. rewrite Hf, Hb. reflexivity.
  - intros Hf Hb. rewrite Hf, Hb. reflexivity.
  - intros Hf Hb. rewrite Hf, Hb. rewrite <- app_assoc. reflexivity.
  - apply (includes_app_boundary prBody _ _ JS.LF
             (JS.LF :: PRText.heading Helpers.FEATURES_SECTION ++ [JS.LF] ++
              PRText.FEATURES_PLACEHOLDER ++ [JS.LF])).
    + reflexivity.
    + intro H. vm_compute in H.
      repeat (destruct H as [H|H]; [discriminate H|]). exact H.
    + reflexivity.
Qed.

Lemma addNewBulletsToBody_empty_identity_witness :
  PRText.addNewBulletsToBody (JS.lit "## New Features
- Login page

## Bugs / Improvements
") Helpers.FEATURES_SECTION [] Helpers.BUGS_SECTION []
  = JS.lit "## New Features
- Login page

## Bugs / Improvements
" /\
  PRText.addNewBulletsToBody (JS.lit "## New Features
- Login page
") Helpers.FEATURES_SECTION [] Helpers.BUGS_SECTION []
  = JS.lit "## New Features
- Login page


## Bugs / Improvements
<!-- Bug fixes and improvements will be added here -->
".
Proof.
  split.
  - apply (addNewBulletsToBody_empty_identity (JS.lit "## New Features
- Login page

## Bugs / Improvements
") Helpers.FEATURES_SECTION Helpers.BUGS_SECTION); reflexivity.
  - destruct (addNewBulletsToBody_empty_identity (JS.lit "## New Features
- Login page
") Helpers.FEATURES_SECTION Helpers.BUGS_SECTION) as (_ & H & _).
    rewrite H; reflexivity.
Defined.

Section SectionSpan.

Import JS PRText.

Lemma lazyUntilHeading_span (content after : str) :
  (forall k, k < length content ->
     startsWith (LF :: lit "## ") (skipn k (content ++ after)) = false) ->
  after = [] \/ startsWith (LF :: lit "## ") after = true ->
  lazyUntilHeading (content ++ after) = length content.
Proof.
  induction content as [|x content IH]; intros Hc Ha.
  - cbn [app length]. destruct Ha as [->|Ha]; [reflexivity|].
    destruct after as [|y after]; [reflexivity|].
    cbn [lazyUntilHeading]. rewrite Ha. reflexivity.
  - cbn [app lazyUntilHeading length].
    pose proof (Hc 0 ltac:(cbn [length]; lia)) as H0. cbn [skipn app] in H0.
    rewrite H0. f_equal. apply IH; [|exact Ha].
    intros k Hk. apply (Hc (S k)). cbn [length]. lia.
Qed.

(** Where the first [## section] of the document is the header of the
    section, and the section runs to the next header or to the end, the
    match of the section expression is that section. *)
Lemma sectionMatch_section (before content after section : str) :
  Rx.literal section = true ->
  (forall k, k < length before ->
     startsWith (heading section)
       (skipn k (before ++ heading section ++ content ++ after)) = false) ->
  (forall k, k < length content ->
     startsWith (LF :: lit "## ") (skipn k (content ++ after)) = false) ->
  after = [] \/ startsWith (LF :: lit "## ") after = true ->
  sectionMatch (before ++ heading section ++ content ++ after) section
    = Some (length before, heading section ++ content).
Proof.
  intros _ Hfirst Hc Ha. unfold sectionMatch.
  assert (indexOf (before ++ heading section ++ content ++ after) (heading section) 0
          = Some (length before)) as E.
  { rewrite indexOf_0. apply (findFrom_first _ _ 0 (length before)).
    - rewrite skipn_length_app. apply startsWith_app.
    - exact Hfirst.
    - rewrite length_app. lia. }
  rewrite E. f_equal. f_equal.
  rewrite skipn_length_app.
  replace (skipn (length before + length (heading section))
             (before ++ heading section ++ content ++ after))
    with (content ++ after).
  - rewrite (lazyUntilHeading_span _ _ Hc Ha).
    rewrite app_assoc. rewrite <- length_app. apply firstn_length_app.
  - rewrite Nat.add_comm, <- skipn_skipn. rewrite skipn_length_app.
    rewrite skipn_length_app. reflexivity.
Qed.

(** There the merge rewrites that section and nothing else: the text
    before it and the text from the next header on come back as they
    were. *)
Lemma insertBullets_frame
  (before content after section : str) (bullets : list str) :
  Rx.literal section = true ->
  bullets <> [] ->
  (forall k, k < length before ->
     startsWith (heading section)
       (skipn k (before ++ heading section ++ content ++ after)) = false) ->
  (forall k, k < length content ->
     startsWith (LF :: lit "## ") (skipn k (content ++ after)) = false) ->
  after = [] \/ startsWith (LF :: lit "## ") after = true ->
  insertBullets (before ++ heading section ++ content ++ after) section bullets
    = before ++
      getSubstitution (heading section ++ content) before after
        (newSectionContent (heading section ++ content) bullets) ++
      after.
Proof.
  intros Hl Hb Hfirst Hc Ha.
  pose proof (sectionMatch_section before content after section Hl Hfirst Hc Ha) as Hm.
  rewrite (insertBullets_replaces _ _ _ _ _ Hb Hm).
  rewrite firstn_length_app.
  replace (skipn (length before + length (heading section ++ content))
             (before ++ heading section ++ content ++ after))
    with after; [reflexivity|].
  rewrite Nat.add_comm, <- skipn_skipn. rewrite skipn_length_app.
  rewrite app_assoc. rewrite skipn_length_app. reflexivity.
Qed.

End SectionSpan.

(** The text around the match of the section expression.  The document
    after the missing sections are created extends the given one; the
    match of the expression for [H] in it begins at the first [## H];
    [addNewBulletsToBody] returns the text before the match and the text
    after it as they were, around the rewritten match: for the features
    alone, for the bugs alone, and, the function being one insertion after
    the other, for each insertion on the document it is applied to.
    [updateSection] does the same around the span it computes. *)
Lemma merge_keeps_text_around_match
  (prBody featuresSection bugsSection : JS.str) (bullets : list JS.str) :
  Rx.literal featuresSection = true ->
  Rx.literal bugsSection = true ->
  bullets <> [] ->
  let doc := PRText.ensureSections prBody featuresSection bugsSection in
  (exists tail, doc = prBody ++ tail) /\
  (exists p sectionContent,
     PRText.sectionMatch doc featuresSection = Some (p, sectionContent) /\
     let before := firstn p doc in
     let after := skipn (p + length sectionContent) doc in
     doc = before ++ sectionContent ++ after /\
     PRText.addNewBulletsToBody prBody featuresSection bullets bugsSection [] =
       before ++
       JS.getSubstitution sectionContent before after
         (PRText.newSectionContent sectionContent bullets) ++
       after) /\
  (exists p sectionContent,
     PRText.sectionMatch doc bugsSection = Some (p, sectionContent) /\
     let before := firstn p doc in
     let after := skipn (p + length sectionContent) doc in
     doc = before ++ sectionContent ++ after /\
     PRText.addNewBulletsToBody prBody featuresSection [] bugsSection bullets =
       before ++
       JS.getSubstitution sectionContent before after
         (PRText.newSectionContent sectionContent bullets) ++
       after) /\
  (forall featureBullets bugBullets,
     PRText.addNewBulletsToBody prBody featuresSection featureBullets
       bugsSection bugBullets =
     PRText.insertBullets (PRText.insertBullets doc featuresSection featureBullets)
       bugsSection bugBullets) /\
  (forall (document section : JS.str) (p : nat) (sectionContent : JS.str),
     Rx.literal section = true ->
     PRText.sectionMatch document section = Some (p, sectionContent) ->
     let before := firstn p document in
     let after := skipn (p + length sectionContent) document in
     document = before ++ sectionContent ++ after /\
     PRText.insertBullets document section bullets =
       before ++
       JS.getSubstitution sectionContent before after
         (PRText.newSectionContent sectionContent bullets) ++
       after) /\
  (forall (sectionHeader newEntry : JS.str) (p : nat),
     JS.indexOf prBody sectionHeader 0 = Some p ->
     let q := Helpers.nextSectionPos prBody sectionHeader p in
     p + length sectionHeader <= q <= length prBody /\
     exists kept,
       Helpers.updateSection prBody sectionHeader newEntry =
         firstn p prBody ++
         (sectionHeader ++ [JS.LF] ++ newEntry ++ kept) ++
         skipn q prBody).
Proof.
  intros _ _ Hb doc.
  destruct (ensureSections_includes prBody featuresSection bugsSection) as [If Ib].
  fold doc in If, Ib.
  split; [apply ensureSections_extends|].
  split; [|split; [|split; [|split]]].
  - destruct (sectionMatch_defined _ _ If) as (p & sc & Hm).
    exists p, sc. split; [exact Hm|]. cbv zeta. split.
    + apply (sectionMatch_occurs _ _ _ _ Hm).
    + unfold PRText.addNewBulletsToBody. fold doc.
      cbn [PRText.insertBullets].
      apply insertBullets_replaces; assumption.
  - destruct (sectionMatch_defined _ _ Ib) as (p & sc & Hm).
    exists p, sc. split; [exact Hm|]. cbv zeta. split.
    + apply (sectionMatch_occurs _ _ _ _ Hm).
    + unfold PRText.addNewBulletsToBody. fold doc.
      cbn [PRText.insertBullets].
      apply insertBullets_replaces; assumption.
  - intros featureBullets bugBullets. reflexivity.
  - intros document section p sc _ Hm. cbv zeta. split.
    + apply (sectionMatch_occurs _ _ _ _ Hm).
    + apply insertBullets_replaces; assumption.
  - intros h e p Hp q. split; [apply nextSectionPos_bound; exact Hp|].
    unfold Helpers.updateSection. rewrite Hp. fold q.
    unfold JS.slice, JS.sliceFrom. rewrite Nat.sub_0_r. cbn [skipn].
    destruct (JS.trim _) as [|c t].
    + exists []. rewrite app_nil_r. reflexivity.
    + destruct (JS.startsWith [JS.LF] (c :: t)).
      * exists (c :: t). reflexivity.
      * exists ([JS.LF] ++ c :: t). reflexivity.
Qed.


(** C3. A document whose section of the bugs names [## New Features] in a
    bullet: the merge of a new feature takes that mention for the header.
    The new bullet lands among the bullets of the bugs, the bullet
    [- Prices are shown in $$] of that section comes back with one [$],
    and the section of the features is not touched.  [updateSection]
    takes the same mention for the header and breaks the bullet that
    holds it. *)
Theorem merge_rewrites_another_section :
  PRText.addNewBulletsToBody (JS.lit "## Bugs / Improvements
- Link to ## New Features fixed
- Prices are shown in $$

## New Features
- Dark mode
") Helpers.FEATURES_SECTION [JS.lit "- Login page"] Helpers.BUGS_SECTION []
  = JS.lit "## Bugs / Improvements
- Link to ## New Features fixed
- Login page
- Prices are shown in $

## New Features
- Dark mode
" /\
  PRText.sectionMatch (JS.lit "## Bugs / Improvements
- Link to ## New Features fixed
- Prices are shown in $$

## New Features
- Dark mode
") Helpers.FEATURES_SECTION
  = Some (33, JS.lit "## New Features fixed
- Prices are shown in $$
") /\
  Helpers.updateSection (JS.lit "## Bugs / Improvements
- Link to ## New Features fixed
- Prices are shown in $$

## New Features
- Dark mode
") (JS.lit "## New Features") (JS.lit "- Login page")
  = JS.lit "## Bugs / Improvements
- Link to ## New Features
- Login page
fixed
- Prices are shown in $$## New Features
- Dark mode
".
Proof.
  split; [vm_compute; reflexivity|]. split; vm_compute; reflexivity.
Qed.

(** The same merge on a document whose first [## Bugs / Improvements] is
    the header of the section. *)
Example merge_keeps_text_around_section :
  PRText.addNewBulletsToBody (JS.lit "# Pending release

## New Features
- Login page

## Bugs / Improvements
- Faster start
") Helpers.FEATURES_SECTION [] Helpers.BUGS_SECTION [JS.lit "- Fix crash"]
  = JS.lit "# Pending release

## New Features
- Login page

## Bugs / Improvements
- Fix crash
- Faster start
".
Proof. vm_compute. reflexivity. Qed.

(** ** Where the new bullets go *)

Section InsertionPoint.

Import JS Helpers PRText.

Lemma indexOf_char_after (h rest : str) (c : ascii) :
  ~ In c h -> indexOf (h ++ c :: rest) [c] 0 = Some (length h).
Proof.
  intro Hh. rewrite indexOf_0. apply (findFrom_first _ _ 0 (length h)).
  - rewrite skipn_app, Nat.sub_diag, skipn_all. simpl.
    rewrite ascii_eqb_refl. reflexivity.
  - intros q Hq. rewrite skipn_app. replace (q - length h) with 0 by lia.
    cbn [skipn]. destruct (skipn q h) as [|x t] eqn:E.
    + apply (f_equal (@length ascii)) in E. rewrite length_skipn in E. simpl in E. lia.
    + simpl. destruct (ascii_eqb c x) eqn:Ex; [|reflexivity].
      apply ascii_eqb_eq in Ex. subst x. exfalso. apply Hh.
      rewrite <- (firstn_skipn q h), E. apply in_or_app. right. left. reflexivity.
  - rewrite length_app. lia.
Qed.

Lemma join_plain (c : ascii) (sep : str) (parts : list str) :
  ~ In c sep -> (forall b, In b parts -> ~ In c b) -> ~ In c (join sep parts).
Proof.
  intros Hs. induction parts as [|b parts IH]; intros Hp Hin.
  - exact Hin.
  - destruct parts as [|b' parts].
    + apply (Hp b); [left; reflexivity | exact Hin].
    + change (join sep (b :: b' :: parts)) with (b ++ sep ++ join sep (b' :: parts)) in Hin.
      apply in_app_or in Hin. destruct Hin as [Hin|Hin].
      * apply (Hp b); [left; reflexivity | exact Hin].
      * apply in_app_or in Hin. destruct Hin as [Hin|Hin]; [exact (Hs Hin)|].
        apply IH; [|exact Hin]. intros x Hx. apply Hp. right. exact Hx.
Qed.

(** A section that opens with its header line, holds no comment line and
    no [$], receives the new bullets right under the header, above the
    text it had. *)
Lemma insertBullets_under_header
  (doc s : str) (bullets : list str) (p : nat) (sc rest : str) :
  Rx.literal s = true ->
  bullets <> [] ->
  sectionMatch doc s = Some (p, sc) ->
  sc = heading s ++ LF :: rest ->
  ~ In LF (heading s) ->
  Rx.commentLineMatch sc = None ->
  ~ In DOLLAR sc ->
  (forall b, In b bullets -> ~ In DOLLAR b) ->
  insertBullets doc s bullets =
    firstn p doc ++
    (heading s ++ [LF] ++ join [LF] bullets ++ [LF] ++ rest) ++
    skipn (p + length sc) doc.
Proof.
  intros _ Hb Hm Hsc Hlf Hc Hd Hbd.
  rewrite (insertBullets_replaces _ _ _ _ _ Hb Hm).
  assert (newSectionContent sc bullets =
          heading s ++ [LF] ++ join [LF] bullets ++ [LF] ++ rest) as Hn.
  { unfold newSectionContent, insertPoint. rewrite Hc.
    unfold afterNewline. rewrite Hsc, (indexOf_char_after _ _ _ Hlf).
    unfold slice, sliceFrom. rewrite Nat.sub_0_r. cbn [skipn].
    destruct bullets as [|b bs]; [congruence|].
    replace (heading s ++ LF :: rest) with ((heading s ++ [LF]) ++ rest)
      by (rewrite <- app_assoc; reflexivity).
    replace (length (heading s) + 1) with (length (heading s ++ [LF]))
      by (rewrite length_app; reflexivity).
    rewrite firstn_app, Nat.sub_diag, firstn_all, skipn_app, Nat.sub_diag, skipn_all.
    cbn [firstn skipn]. rewrite app_nil_r. cbn [app].
    rewrite <- !app_assoc. reflexivity. }
  rewrite Hn. rewrite getSubstitution_plain; [reflexivity|].
  intro Hin. rewrite Hsc in Hd.
  apply in_app_or in Hin. destruct Hin as [Hin|Hin].
  { apply Hd. apply in_or_app. left. exact Hin. }
  apply in_app_or in Hin. destruct Hin as [Hin|Hin].
  { destruct Hin as [Hin|[]]. apply Hd. apply in_or_app. right. left.
    exact Hin. }
  apply in_app_or in Hin. destruct Hin as [Hin|Hin].
  { revert Hin. apply join_plain; [|exact Hbd].
    intros [E|[]]. discriminate E. }
  apply in_app_or in Hin. destruct Hin as [Hin|Hin].
  { destruct Hin as [Hin|[]]. discriminate Hin. }
  apply Hd. apply in_or_app. right. right. exact Hin.
Qed.

End InsertionPoint.

Section PlaceholderLine.

Import JS Helpers PRText.

Lemma commentLineMatch_skip (pre s : str) :
  ~ In (ch 60) pre -> Rx.commentLineMatch (pre ++ s) = Rx.commentLineMatch s.
Proof.
  induction pre as [|x pre IH]; intro H.
  - reflexivity.
  - cbn [app Rx.commentLineMatch].
    assert (startsWith (lit "<!--") (x :: pre ++ s) = false) as E.
    { cbn [lit list_ascii_of_string startsWith].
      destruct (ascii_eqb "<" x) eqn:Ex; [|reflexivity].
      apply ascii_eqb_eq in Ex. subst x. exfalso. apply H. left. reflexivity. }
    rewrite E. apply IH. intro Hin. apply H. right. exact Hin.
Qed.

Lemma startsWith_In (a s : str) (c : ascii) :
  startsWith (a ++ [c]) s = true -> In c (firstn (length a + 1) s).
Proof.
  intro H. apply startsWith_iff in H. destruct H as [r ->].
  rewrite firstn_app.
  rewrite (firstn_all2 (a ++ [c])) by (rewrite length_app; cbn [length]; lia).
  apply in_or_app. left. apply in_or_app. right. left. reflexivity.
Qed.

(** The lazy [.*?] of the comment expression runs to the first [-->] that
    ends the line. *)
Lemma lazyDotUntil_comment (text rest : str) :
  (forall c, In c text -> isLineTerminator c = false) ->
  Rx.lazyDotUntil (lit "-->" ++ [LF]) (text ++ lit "-->" ++ LF :: rest)
    = Some (length text).
Proof.
  induction text as [|x text IH]; intro H.
  - reflexivity.
  - assert (startsWith (lit "-->" ++ [LF]) ((x :: text) ++ lit "-->" ++ LF :: rest) = false)
      as E.
    { destruct (startsWith (lit "-->" ++ [LF]) ((x :: text) ++ lit "-->" ++ LF :: rest))
        eqn:E; [|reflexivity].
      apply startsWith_In in E. exfalso.
      assert (In LF ((x :: text) ++ lit "-->")) as Hin.
      { replace ((x :: text) ++ lit "-->" ++ LF :: rest)
          with (((x :: text) ++ lit "-->") ++ LF :: rest) in E
          by (rewrite <- app_assoc; reflexivity).
        rewrite firstn_app in E. apply in_app_or in E. destruct E as [E|E].
        - revert E. generalize (length (lit "-->") + 1). intros n E.
          rewrite <- (firstn_skipn n ((x :: text) ++ lit "-->")).
          apply in_or_app. left. exact E.
        - rewrite length_app in E. cbn [length lit list_ascii_of_string] in E.
          replace (3 + 1 - (S (length text) + 3)) with 0 in E by lia.
          destruct E. }
      apply in_app_or in Hin. destruct Hin as [Hin|Hin].
      + apply H in Hin. discriminate Hin.
      + cbn in Hin. repeat (destruct Hin as [Hin|Hin]; [discriminate Hin|]).
        exact Hin. }
    change (Rx.lazyDotUntil (lit "-->" ++ [LF]) ((x :: text) ++ lit "-->" ++ LF :: rest))
      with (if startsWith (lit "-->" ++ [LF]) ((x :: text) ++ lit "-->" ++ LF :: rest)
            then Some 0
            else if isLineTerminator x then None
            else option_map S
                   (Rx.lazyDotUntil (lit "-->" ++ [LF]) (text ++ lit "-->" ++ LF :: rest))).
    rewrite E, (H x) by (left; reflexivity).
    rewrite IH; [reflexivity|]. intros c Hc. apply H. right. exact Hc.
Qed.

Lemma findFrom_char (c : ascii) (a r : str) (i : nat) :
  ~ In c a -> findFrom [c] (a ++ c :: r) i = Some (i + length a).
Proof.
  revert i. induction a as [|x a IH]; intros i H.
  - cbn [app findFrom startsWith]. rewrite ascii_eqb_refl. cbn [andb length].
    rewrite Nat.add_0_r. reflexivity.
  - cbn [app findFrom startsWith].
    destruct (ascii_eqb c x) eqn:E.
    + apply ascii_eqb_eq in E. subst x. exfalso. apply H. left. reflexivity.
    + cbn [andb]. rewrite IH by (intro Hin; apply H; right; exact Hin).
      cbn [length]. f_equal. lia.
Qed.

Lemma In_skipn (c : ascii) (n : nat) (l : str) : In c (skipn n l) -> In c l.
Proof.
  intro H. rewrite <- (firstn_skipn n l). apply in_or_app. right. exact H.
Qed.

(** A section that opens with its header line and a comment line longer
    than the header, and holds no [$], receives the new bullets under the
    comment line, above the text it had. *)
Lemma insertBullets_under_placeholder
  (doc s : str) (bullets : list str) (p : nat) (sc text rest : str) :
  Rx.literal s = true ->
  bullets <> [] ->
  sectionMatch doc s = Some (p, sc) ->
  sc = heading s ++ LF :: (lit "<!--" ++ text ++ lit "-->") ++ LF :: rest ->
  ~ In LF (heading s) ->
  ~ In (ch 60) (heading s) ->
  (forall c, In c text -> isLineTerminator c = false) ->
  length (heading s) <= length text + 7 ->
  ~ In DOLLAR sc ->
  (forall b, In b bullets -> ~ In DOLLAR b) ->
  insertBullets doc s bullets =
    firstn p doc ++
    (heading s ++ [LF] ++ (lit "<!--" ++ text ++ lit "-->") ++ [LF] ++
     join [LF] bullets ++ [LF] ++ rest) ++
    skipn (p + length sc) doc.
Proof.
  intros _ Hb Hm Hsc Hlf Hlt Htext Hlen Hd Hbd.
  rewrite (insertBullets_replaces _ _ _ _ _ Hb Hm).
  set (h := heading s) in *.
  set (C := lit "<!--" ++ text ++ lit "-->") in *.
  assert (length C = length text + 7) as LC.
  { unfold C. rewrite !length_app. cbn [lit list_ascii_of_string length]. lia. }
  assert (~ In LF C) as HC.
  { unfold C. intro Hin. apply in_app_or in Hin. destruct Hin as [Hin|Hin].
    - cbn in Hin. repeat (destruct Hin as [Hin|Hin]; [discriminate Hin|]). exact Hin.
    - apply in_app_or in Hin. destruct Hin as [Hin|Hin].
      + apply Htext in Hin. discriminate Hin.
      + cbn in Hin. repeat (destruct Hin as [Hin|Hin]; [discriminate Hin|]). exact Hin. }
  assert (Rx.commentLineMatch sc = Some (length C + 1)) as Hc.
  { rewrite Hsc.
    replace (h ++ LF :: C ++ LF :: rest) with ((h ++ [LF]) ++ C ++ LF :: rest)
      by (rewrite <- app_assoc; reflexivity).
    rewrite commentLineMatch_skip.
    - rewrite LC. unfold C. rewrite <- !app_assoc.
      cbn [lit list_ascii_of_string app Rx.commentLineMatch startsWith skipn].
      rewrite !ascii_eqb_refl. cbn [andb].
      change ("-"%char :: "-"%char :: ">"%char :: LF :: rest)
        with (lit "-->" ++ LF :: rest).
      change ("-"%char :: "-"%char :: ">"%char :: [LF]) with (lit "-->" ++ [LF]).
      rewrite (lazyDotUntil_comment text rest Htext).
      f_equal. lia.
    - intro Hin. apply in_app_or in Hin. destruct Hin as [Hin|[Hin|[]]].
      + exact (Hlt Hin).
      + discriminate Hin. }
  assert (afterNewline sc (length C + 1) = length h + 1 + length C + 1) as Hip.
  { unfold afterNewline, indexOf. rewrite Hsc.
    replace (h ++ LF :: C ++ LF :: rest) with ((h ++ [LF]) ++ C ++ LF :: rest)
      by (rewrite <- app_assoc; reflexivity).
    rewrite skipn_app.
    rewrite (skipn_all2 (h ++ [LF])) by (rewrite length_app; cbn [length]; lia).
    rewrite skipn_app.
    replace (length C + 1 - length (h ++ [LF]) - length C) with 0
      by (rewrite length_app; cbn [length]; lia).
    cbn [app skipn].
    rewrite findFrom_char by (intro Hin; apply HC; exact (In_skipn _ _ _ Hin)).
    rewrite length_skipn. rewrite !length_app. cbn [length].
    rewrite Nat.min_l by lia. lia. }
  assert (newSectionContent sc bullets =
          h ++ [LF] ++ C ++ [LF] ++ join [LF] bullets ++ [LF] ++ rest) as Hn.
  { unfold newSectionContent, insertPoint. rewrite Hc, Hip.
    unfold slice, sliceFrom. rewrite Nat.sub_0_r. cbn [skipn].
    destruct bullets as [|b bs]; [congruence|].
    rewrite Hsc.
    replace (h ++ LF :: C ++ LF :: rest) with ((h ++ [LF] ++ C ++ [LF]) ++ rest)
      by (rewrite <- !app_assoc; reflexivity).
    replace (length h + 1 + length C + 1) with (length (h ++ [LF] ++ C ++ [LF]))
      by (rewrite !length_app; cbn [length]; lia).
    rewrite firstn_length_app, skipn_length_app.
    rewrite <- !app_assoc. reflexivity. }
  rewrite Hn. rewrite getSubstitution_plain; [reflexivity|].
  intro Hin. rewrite Hsc in Hd.
  apply in_app_or in Hin. destruct Hin as [Hin|Hin].
  { apply Hd. apply in_or_app. left. exact Hin. }
  apply in_app_or in Hin. destruct Hin as [Hin|Hin].
  { destruct Hin as [Hin|[]]. discriminate Hin. }
  apply in_app_or in Hin. destruct Hin as [Hin|Hin].
  { apply Hd. apply in_or_app. right. right. apply in_or_app. left. exact Hin. }
  apply in_app_or in Hin. destruct Hin as [Hin|Hin].
  { destruct Hin as [Hin|[]]. discriminate Hin. }
  apply in_app_or in Hin. destruct Hin as [Hin|Hin].
  { revert Hin. apply join_plain; [|exact Hbd].
    intros [E|[]]. discriminate E. }
  apply in_app_or in Hin. destruct Hin as [Hin|Hin].
  { destruct Hin as [Hin|[]]. discriminate Hin. }
  apply Hd. apply in_or_app. right. right. apply in_or_app. right. right. exact Hin.
Qed.

End PlaceholderLine.

(** The sections that the service itself creates: the new bullets go
    under the placeholder comment. *)
Example addNewBulletsToBody_fresh_sections :
  PRText.addNewBulletsToBody (JS.lit "Pending changes")
    Helpers.FEATURES_SECTION [JS.lit "- Login page"]
    Helpers.BUGS_SECTION [JS.lit "- Fix crash"; JS.lit "- Faster start"]
  = JS.lit "Pending changes

## New Features
<!-- New feature summaries will be added here -->
- Login page


## Bugs / Improvements
<!-- Bug fixes and improvements will be added here -->
- Fix crash
- Faster start
".
Proof. vm_compute. reflexivity. Qed.

(** The scenario of the specification: one existing bullet, two new ones. *)
Example addNewBulletsToBody_two_new_one_old :
  PRText.addNewBulletsToBody
    (JS.lit "## New Features
- Dark mode

## Bugs / Improvements
")
    Helpers.FEATURES_SECTION [JS.lit "- Login page"; JS.lit "- Export to CSV"]
    Helpers.BUGS_SECTION []
  = JS.lit "## New Features
- Login page
- Export to CSV
- Dark mode

## Bugs / Improvements
".
Proof. vm_compute. reflexivity. Qed.

(** C4. The new bullets do not always land under the header with the old
    text kept as it was.  The rewritten section goes through [replace],
    which expands [$$] in it: an existing bullet that holds [$$] comes
    back with one [$].  And the insertion point is looked for from the
    length of the comment line, not from its end: after a short comment
    line the bullets land above the comment. *)
Theorem addNewBulletsToBody_misplaces_or_rewrites :
  PRText.addNewBulletsToBody
    (JS.lit "## New Features
- Prices are shown in $$

## Bugs / Improvements
")
    Helpers.FEATURES_SECTION [JS.lit "- Login page"; JS.lit "- Export to CSV"]
    Helpers.BUGS_SECTION []
  = JS.lit "## New Features
- Login page
- Export to CSV
- Prices are shown in $

## Bugs / Improvements
" /\
  PRText.addNewBulletsToBody
    (JS.lit "## New Features
<!-- soon -->
- Dark mode

## Bugs / Improvements
")
    Helpers.FEATURES_SECTION [JS.lit "- Login page"]
    Helpers.BUGS_SECTION []
  = JS.lit "## New Features
- Login page
<!-- soon -->
- Dark mode

## Bugs / Improvements
".
Proof. split; vm_compute; reflexivity. Qed.

(* ====================================================================== *)
(** * Configuration loading *)
(* ====================================================================== *)

(** C7. [loadConfig] returns the built-in defaults when the configuration
    file is not found, and throws, without falling back to the defaults,
    when the file is there and is not JSON; the handler of the event lets
    that error through and requests no write. *)
Theorem loadConfig_missing_defaults_malformed_throws
  (w : Remote.World) (s : Remote.State) :
  (forall e, Remote.repos_getContent w (Remote.clock s) = Remote.Throw e ->
             Remote.status e = Some 404 ->
             ConfigService.loadConfig w s = (Remote.Ok Config.DEFAULT_CONFIG, Remote.tick s)) /\
  (Remote.repos_getContent w (Remote.clock s) = Remote.Ok (Remote.File None) ->
   ConfigService.loadConfig w s =
     (Remote.Throw (Remote.JsError (JS.lit "SyntaxError")), Remote.tick s)) /\
  (forall context key,
     Remote.merged (Remote.pull_request context) = true ->
     Remote.has_repository context = true ->
     Remote.OPENAI_API_KEY w = Some key -> key <> [] ->
     Remote.repos_getContent w 0 = Remote.Ok (Remote.File None) ->
     Events.run w context =
       (Remote.Throw (Remote.JsError (JS.lit "SyntaxError")),
        Remote.tick ConfigService.newService)).
Proof.
  split; [|split].
  - intros e He Hs.
    unfold ConfigService.loadConfig, Remote.tryCatch, Remote.bind, Remote.request.
    rewrite He. unfold ConfigService.notFound. rewrite Hs. reflexivity.
  - intro He.
    unfold ConfigService.loadConfig, Remote.tryCatch, Remote.bind, Remote.request.
    rewrite He. reflexivity.
  - intros context key Hm Hr Hk Hne He.
    unfold Events.run, Events.probotHandler. rewrite Hm. cbn [negb].
    unfold Remote.bind at 1.
    unfold ConfigService.construct, Remote.bind at 1, Remote.apiKey.
    rewrite Hk. destruct key as [|c key]; [congruence|]. rewrite Hr.
    cbn [Remote.ret]. unfold Remote.bind at 1.
    unfold ConfigService.loadConfig, Remote.tryCatch, Remote.bind, Remote.request.
    cbn [Remote.clock ConfigService.newService]. rewrite He. reflexivity.
Qed.

Lemma loadConfig_missing_defaults_malformed_throws_witness :
  ConfigService.loadConfig quietWorld ConfigService.newService =
    (Remote.Ok Config.DEFAULT_CONFIG, Remote.tick ConfigService.newService) /\
  ConfigService.loadConfig malformedWorld ConfigService.newService =
    (Remote.Throw (Remote.JsError (JS.lit "SyntaxError")),
     Remote.tick ConfigService.newService) /\
  Events.run malformedWorld featureEvent =
    (Remote.Throw (Remote.JsError (JS.lit "SyntaxError")),
     Remote.tick ConfigService.newService).
Proof.
  split; [|split].
  - apply (proj1 (loadConfig_missing_defaults_malformed_throws
                    quietWorld ConfigService.newService) (Remote.HttpError 404));
      reflexivity.
  - apply (proj1 (proj2 (loadConfig_missing_defaults_malformed_throws
                           malformedWorld ConfigService.newService)));
      reflexivity.
  - apply (proj2 (proj2 (loadConfig_missing_defaults_malformed_throws
                           malformedWorld ConfigService.newService))
             featureEvent (JS.lit "sk-test"));
      try reflexivity. discriminate.
Defined.

(* ====================================================================== *)
(** * The draft locator *)
(* ====================================================================== *)

Section DraftLocator.

Import Remote.

Lemma find_draft_unique (before after : list PullRequest) (d : PullRequest) :
  draft d = true ->
  (forall x, In x (before ++ after) -> draft x = false) ->
  find draft (before ++ d :: after) = Some d.
Proof.
  intros Hd Hn. induction before as [|b before IH]; simpl.
  - rewrite Hd. reflexivity.
  - rewrite (Hn b) by (left; reflexivity).
    apply IH. intros x Hx. apply Hn. right. exact Hx.
Qed.

Lemma find_draft_none (prs : list PullRequest) :
  (forall x, In x prs -> draft x = false) -> find draft prs = None.
Proof.
  induction prs as [|b prs IH]; intro Hn; simpl.
  - reflexivity.
  - rewrite (Hn b) by (left; reflexivity).
    apply IH. intros x Hx. apply Hn. right. exact Hx.
Qed.

(** What the locator answers on the listing it works with. *)
Lemma findStagingToReleasePR_on_listing
  (context : Context) (w : World) (s : State) (prs : list PullRequest) :
  let c := config s in
  let qualified := owner context ++ JS.lit ":" ++ Config.stagingBranch c in
  (pulls_list w (clock s) qualified (Config.releaseBranch c) = Ok prs /\ prs <> []) \/
  (pulls_list w (clock s) qualified (Config.releaseBranch c) = Ok [] /\
   pulls_list w (S (clock s)) (Config.stagingBranch c) (Config.releaseBranch c) = Ok prs) ->
  fst (PRService.findStagingToReleasePR context w s) =
    Ok (match find draft prs with
        | Some d => Some d
        | None => hd_error prs
        end).
Proof.
  intros c qualified H.
  unfold PRService.findStagingToReleasePR, bind, getConfig, tryCatch, request.
  fold c. fold qualified.
  destruct H as [[H Hne] | [H1 H2]].
  - rewrite H. destruct prs as [|p prs]; [congruence|].
    destruct (find draft (p :: prs)); reflexivity.
  - rewrite H1. cbn [clock tick]. rewrite H2.
    destruct prs as [|p prs]; [reflexivity|].
    destruct (find draft (p :: prs)); reflexivity.
Qed.

End DraftLocator.

(** C8. On the listing of open candidates that the locator works with
    (the one for the qualified head, or, when that one is empty, the one
    for the plain branch name): when exactly one candidate is flagged as
    draft, the locator returns it, wherever it stands; when none is, the
    locator returns the first candidate. *)
Theorem findStagingToReleasePR_prefers_draft
  (context : Remote.Context) (w : Remote.World) (s : Remote.State)
  (prs : list Remote.PullRequest) :
  let c := Remote.config s in
  let qualified := Remote.owner context ++ JS.lit ":" ++ Config.stagingBranch c in
  (Remote.pulls_list w (Remote.clock s) qualified (Config.releaseBranch c) = Remote.Ok prs /\
   prs <> []) \/
  (Remote.pulls_list w (Remote.clock s) qualified (Config.releaseBranch c) = Remote.Ok [] /\
   Remote.pulls_list w (S (Remote.clock s)) (Config.stagingBranch c) (Config.releaseBranch c)
     = Remote.Ok prs) ->
  (forall before d after,
     prs = before ++ d :: after ->
     Remote.draft d = true ->
     (forall x, In x (before ++ after) -> Remote.draft x = false) ->
     fst (PRService.findStagingToReleasePR context w s) = Remote.Ok (Some d)) /\
  ((forall x, In x prs -> Remote.draft x = false) ->
   fst (PRService.findStagingToReleasePR context w s) = Remote.Ok (hd_error prs)).
Proof.
  intros c qualified H.
  pose proof (findStagingToReleasePR_on_listing context w s prs H) as R.
  split.
  - intros before d after -> Hd Hn. rewrite R.
    rewrite (find_draft_unique before after d Hd Hn). reflexivity.
  - intro Hn. rewrite R. rewrite (find_draft_none prs Hn). reflexivity.
Qed.

Lemma findStagingToReleasePR_prefers_draft_witness :
  fst (PRService.findStagingToReleasePR featureEvent twoCandidatesWorld
         ConfigService.newService)
  = Remote.Ok (Some (candidate 12 true)).
Proof.
  assert ([candidate 11 false; candidate 12 true] <> []) as Hne by discriminate.
  apply (proj1 (findStagingToReleasePR_prefers_draft
                  featureEvent twoCandidatesWorld ConfigService.newService
                  [candidate 11 false; candidate 12 true]
                  (or_introl (conj eq_refl Hne)))
               [candidate 11 false] (candidate 12 true) []).
  - reflexivity.
  - reflexivity.
  - intros x [<- | []]. reflexivity.
Defined.

(* ====================================================================== *)
(** * Invariants of the service *)
(* ====================================================================== *)

Section TitleFacts.

Import JS PRText.

Lemma ci_eqb_upper (x y : ascii) : ci_eqb x y = true -> upperChar y = upperChar x.
Proof. unfold ci_eqb. intro H. apply ascii_eqb_eq in H. symmetry. exact H. Qed.

Lemma startsWith_ci_upper (p s : str) :
  startsWith_ci p s = true ->
  toUpperCase (firstn (length p) s) = toUpperCase p.
Proof.
  revert s. induction p as [|x p IH]; intros s H.
  - reflexivity.
  - destruct s as [|y s]; simpl in H; [discriminate|].
    apply andb_true_iff in H. destruct H as [H1 H2].
    simpl. rewrite (ci_eqb_upper _ _ H1). f_equal. apply IH. exact H2.
Qed.

Lemma bumpWordAt_bump (s b : str) :
  bumpWordAt s = Some b -> exists bump, toUpperCase b = bumpText bump.
Proof.
  unfold bumpWordAt.
  destruct (startsWith_ci (lit "MAJOR") s) eqn:E1.
  { intro H. injection H as <-. exists MAJOR. apply (startsWith_ci_upper _ _ E1). }
  destruct (startsWith_ci (lit "MINOR") s) eqn:E2.
  { intro H. injection H as <-. exists MINOR. apply (startsWith_ci_upper _ _ E2). }
  destruct (startsWith_ci (lit "PATCH") s) eqn:E3.
  { intro H. injection H as <-. exists PATCH. apply (startsWith_ci_upper _ _ E3). }
  discriminate.
Qed.

Lemma versionTypeMatch_bump (response b : str) :
  versionTypeMatch response = Some b -> exists bump, toUpperCase b = bumpText bump.
Proof.
  induction response as [|x response IH].
  - simpl. discriminate.
  - cbn [versionTypeMatch].
    destruct (if startsWith_ci (lit "VERSION_TYPE:") (x :: response)
              then bumpWordAt (trimStart (skipn 13 (x :: response)))
              else None) as [b'|] eqn:E.
    + intro H. injection H as <-.
      destruct (startsWith_ci (lit "VERSION_TYPE:") (x :: response)); [|discriminate].
      apply (bumpWordAt_bump _ _ E).
    + exact IH.
Qed.

Lemma versionTypeOf_bump (response : str) :
  exists bump, versionTypeOf response = bumpText bump.
Proof.
  unfold versionTypeOf. destruct (versionTypeMatch response) as [b|] eqn:E.
  - apply (versionTypeMatch_bump _ _ E).
  - exists PATCH. reflexivity.
Qed.




End TitleFacts.

Section Invariants.

Import Config Remote ConfigService PRService Helpers PRText.

(** The configuration of the service is [c] and the writes requested so
    far satisfy [L], which every write in [okWrite] maintains. *)
Variable c : RepoConfig.
Variable L : list Write -> Prop.
Variable okWrite : Write -> Prop.
Hypothesis L_write : forall wr l, okWrite wr -> L l -> L (l ++ [wr]).

Lemma holds_tick (s : State) : holds c L s -> holds c L (tick s).
Proof. intros [H1 H2]. split; assumption. Qed.

Lemma inv_ret {A} (a : A) : inv c L (ret a).
Proof. intros w s H. exact H. Qed.

Lemma inv_throw {A} (e : Error) : inv c L (@throw A e).
Proof. intros w s H. exact H. Qed.

Lemma inv_bind {A B} (m : M A) (k : A -> M B) :
  inv c L m -> (forall a, inv c L (k a)) -> inv c L (bind m k).
Proof.
  intros Hm Hk w s H. unfold bind.
  specialize (Hm w s H). destruct (m w s) as [[a|e] s']; simpl in Hm.
  - apply Hk. exact Hm.
  - exact Hm.
Qed.

Lemma inv_tryCatch {A} (m : M A) (h : Error -> M A) :
  inv c L m -> (forall e, inv c L (h e)) -> inv c L (tryCatch m h).
Proof.
  intros Hm Hh w s H. unfold tryCatch.
  specialize (Hm w s H). destruct (m w s) as [[a|e] s']; simpl in Hm.
  - exact Hm.
  - apply Hh. exact Hm.
Qed.

(** Reading [this.config] gives [c]. *)
Lemma inv_getConfig {B} (k : RepoConfig -> M B) :
  inv c L (k c) -> inv c L (bind getConfig k).
Proof.
  intros Hk w s H. unfold bind, getConfig.
  destruct H as [Hc HL]. rewrite Hc. apply Hk. split; assumption.
Qed.

Lemma inv_apiKey : inv c L apiKey.
Proof. intros w s H. exact H. Qed.

Lemma inv_request {A} (call : World -> nat -> Result A) : inv c L (request call).
Proof. intros w s H. apply holds_tick. exact H. Qed.

Lemma inv_now : inv c L now.
Proof. intros w s H. apply holds_tick. exact H. Qed.

Lemma inv_send (wr : Write) : okWrite wr -> inv c L (send wr).
Proof.
  intros Hw w s [H1 H2]. split; [exact H1|]. apply L_write; assumption.
Qed.

(** One step of a proof that a program maintains the invariant. *)
Ltac inv_step :=
  first
    [ apply inv_ret
    | apply inv_throw
    | apply inv_apiKey
    | apply inv_request
    | apply inv_now
    | apply inv_getConfig
    | apply inv_bind; [|intro]
    | apply inv_tryCatch; [|intro]
    | match goal with
      | |- inv _ _ (match ?x with _ => _ end) => destruct x
      | |- inv _ _ (if ?x then _ else _) => destruct x
      end ].

Lemma inv_construct (context : Context) : inv c L (construct context).
Proof. unfold construct. repeat inv_step. Qed.

Lemma inv_loadConfig : inv c L loadConfig.
Proof. unfold loadConfig. repeat inv_step. Qed.

Lemma inv_callOpenAI (messages : list Message) : inv c L (callOpenAI messages).
Proof. unfold callOpenAI. repeat inv_step. Qed.

Lemma inv_getDiffStats (n : N) : inv c L (getDiffStats n).
Proof. unfold getDiffStats. repeat inv_step. Qed.

Lemma inv_getPRDetails (pr : PullRequest) : inv c L (getPRDetails pr).
Proof.
  unfold getPRDetails. apply inv_bind; [apply inv_getDiffStats|intro].
  repeat inv_step.
Qed.

Lemma inv_findStagingToReleasePR (context : Context) :
  inv c L (findStagingToReleasePR context).
Proof. unfold findStagingToReleasePR. repeat inv_step. Qed.

Lemma inv_getCurrentVersion : inv c L getCurrentVersion.
Proof. unfold getCurrentVersion. repeat inv_step. Qed.

Lemma inv_generateAISummary (prContent : str) : inv c L (generateAISummary prContent).
Proof. unfold generateAISummary. repeat inv_step. Qed.

Lemma inv_formatReleaseNotes (prBody versionType : str) :
  inv c L (formatReleaseNotes prBody versionType).
Proof.
  unfold formatReleaseNotes. cbv zeta.
  apply inv_bind; [apply inv_generateAISummary|intro].
  repeat inv_step.
Qed.

(** ** The programs that write *)

Hypothesis ok_create : forall t h b, okWrite (PullsCreate t h b).
Hypothesis ok_body : forall n b, okWrite (PullsUpdateBody n b).
Hypothesis ok_comment : forall n b, okWrite (IssuesCreateComment n b).
Hypothesis ok_release : forall t n b tc d p, okWrite (ReposCreateRelease t n b tc d p).
Hypothesis ok_title :
  forall n bump current raw,
    okWrite (PullsUpdateTitle n
               (formatTitle (bumpText bump) (releasePrefix c)
                  (calculateNewVersion current (bumpRelease bump)) (oneLine raw))).

Lemma releaseTypeOf_bump (bump : BumpClass) :
  releaseTypeOf (JS.toLowerCase (bumpText bump)) = bumpRelease bump.
Proof. destruct bump; reflexivity. Qed.

Lemma inv_updatePRTitleWithInfo (n : N) (bump : BumpClass) (raw : str) :
  inv c L (updatePRTitleWithInfo n (bumpText bump) (oneLine raw)).
Proof.
  unfold updatePRTitleWithInfo.
  apply inv_getConfig. apply inv_bind; [apply inv_getCurrentVersion|intro current].
  cbv zeta. rewrite releaseTypeOf_bump.
  apply inv_bind; [|intro; apply inv_ret].
  apply inv_send. apply ok_title.
Qed.

Lemma default_summary_short : oneLine DEFAULT_SUMMARY = DEFAULT_SUMMARY.
Proof. reflexivity. Qed.

Lemma inv_updatePRTitle (n : N) (aiSummary : str) : inv c L (updatePRTitle n aiSummary).
Proof.
  unfold updatePRTitle. apply inv_getConfig.
  apply inv_bind; [apply inv_request|intro pr]. cbv zeta.
  apply inv_bind; [apply inv_callOpenAI|intro response].
  destruct response as [[|x xs]|].
  - rewrite <- default_summary_short. apply (inv_updatePRTitleWithInfo n PATCH).
  - destruct (versionTypeOf_bump (x :: xs)) as [bump ->].
    apply inv_updatePRTitleWithInfo.
  - rewrite <- default_summary_short. apply (inv_updatePRTitleWithInfo n PATCH).
Qed.

Lemma inv_updatePRWithAISummary (context : Context) (n : N) (aiSummary : str) :
  inv c L (updatePRWithAISummary context n aiSummary).
Proof.
  unfold updatePRWithAISummary. cbv zeta.
  apply inv_bind; [apply inv_request|intro pr].
  apply inv_bind; [apply inv_now|intro timestamp].
  apply inv_bind; [|intro; apply inv_ret].
  apply inv_send. apply ok_body.
Qed.

Lemma inv_addSummaryComment (context : Context) (n : N) (aiSummary : str) :
  inv c L (addSummaryComment context n aiSummary).
Proof.
  unfold addSummaryComment. cbv zeta.
  apply inv_bind; [|intro; apply inv_ret].
  apply inv_send. apply ok_comment.
Qed.

Lemma inv_updateStagingToReleasePR (context : Context) (aiSummary : str) :
  inv c L (updateStagingToReleasePR context aiSummary).
Proof.
  unfold updateStagingToReleasePR. apply inv_getConfig.
  apply inv_bind; [apply inv_findStagingToReleasePR|intro draftPR].
  apply inv_bind; [repeat inv_step|intro prToUpdate].
  apply inv_bind.
  - destruct prToUpdate as [n|]; [apply inv_ret|].
    apply inv_bind; [apply inv_getCurrentVersion|intro current].
    apply inv_bind; [|intro; apply inv_ret].
    apply inv_send. apply ok_create.
  - intro n.
    apply inv_bind; [apply inv_updatePRWithAISummary|intro].
    apply inv_bind; [apply inv_addSummaryComment|intro].
    apply inv_updatePRTitle.
Qed.

Lemma inv_handleFeatureMergedToStaging (context : Context) :
  inv c L (handleFeatureMergedToStaging context).
Proof.
  unfold handleFeatureMergedToStaging. apply inv_getConfig. cbv zeta.
  apply inv_bind; [apply inv_getPRDetails|intro prDetails].
  apply inv_bind; [apply inv_callOpenAI|intro aiSummary].
  destruct aiSummary as [[|x xs]|]; try apply inv_ret.
  apply inv_updateStagingToReleasePR.
Qed.

Lemma inv_handleStagingMergedToRelease (context : Context) :
  inv c L (handleStagingMergedToRelease context).
Proof.
  unfold handleStagingMergedToRelease. apply inv_getConfig. cbv zeta.
  destruct (negb _); [apply inv_ret|].
  destruct (_ || _); [apply inv_ret|].
  destruct (titleMatch _) as [[versionType versionFromTitle]|]; [|apply inv_ret].
  apply inv_tryCatch; [|intro; apply inv_throw].
  apply inv_bind; [apply inv_formatReleaseNotes|intro notes].
  apply inv_bind; [apply inv_send; apply ok_release|intro release].
  apply inv_bind; [apply inv_send; apply ok_comment|intro].
  apply inv_ret.
Qed.

Lemma inv_probotHandler (context : Context) : inv c L (Events.probotHandler context).
Proof.
  unfold Events.probotHandler. cbv zeta.
  destruct (negb _); [apply inv_ret|].
  apply inv_bind; [apply inv_construct|intro].
  apply inv_bind; [apply inv_loadConfig|intro].
  apply inv_getConfig.
  apply inv_bind.
  { destruct (_ && _); [apply inv_handleFeatureMergedToStaging|apply inv_ret]. }
  intro. apply inv_getConfig.
  destruct (_ && _); [apply inv_handleStagingMergedToRelease|apply inv_ret].
Qed.

Lemma inv_probotHandler_first (context : Context) :
  inv c L (Events.probotHandler_first context).
Proof.
  unfold Events.probotHandler_first. cbv zeta.
  destruct (negb _); [apply inv_ret|].
  apply inv_bind; [apply inv_construct|intro].
  apply inv_bind; [apply inv_loadConfig|intro].
  apply inv_bind; [|intro; apply inv_ret].
  destruct (_ && _); [apply inv_handleFeatureMergedToStaging|apply inv_ret].
Qed.

End Invariants.

(* ====================================================================== *)
(** * Titles written onto the draft *)
(* ====================================================================== *)

Section DraftTitles.

Import JS Config Remote ConfigService PRService Helpers PRText.

Variable w : World.
Variable c : RepoConfig.









End DraftTitles.




(* ====================================================================== *)
(** * The configuration the service works with *)
(* ====================================================================== *)

Section EffectiveConfiguration.

Import JS Config Remote ConfigService.

Lemma always_ok (wr : Write) (l : list Write) : True -> True -> True.
Proof. intros _ _. exact I. Qed.

Lemma probotHandler_config (context : Context) (w : World) (s : State) :
  config (snd (Events.probotHandler context w s)) = config s.
Proof.
  refine (proj1 (inv_probotHandler (config s) (fun _ => True) (fun _ => True)
                   always_ok _ _ _ _ _ context w s _)); intros; try exact I.
  split; [reflexivity|exact I].
Qed.

Lemma probotHandler_first_config (context : Context) (w : World) (s : State) :
  config (snd (Events.probotHandler_first context w s)) = config s.
Proof.
  refine (proj1 (inv_probotHandler_first (config s) (fun _ => True) (fun _ => True)
                   always_ok _ _ _ _ context w s _)); intros; try exact I.
  split; [reflexivity|exact I].
Qed.

Lemma loadConfig_state (w : World) (s : State) :
  snd (loadConfig w s) = tick s.
Proof.
  unfold loadConfig, tryCatch, bind, request.
  destruct (repos_getContent w (clock s)) as [[[r|]|]|e]; cbn; try reflexivity.
  destruct (notFound e); reflexivity.
Qed.

End EffectiveConfiguration.

Section ConfigFileIgnored.

Import JS Config Remote ConfigService PRService Helpers PRText.

Lemma blind_ret {A} (a : A) : fileBlind (ret a).
Proof. intros w file s. reflexivity. Qed.

Lemma blind_throw {A} (e : Error) : fileBlind (@throw A e).
Proof. intros w file s. reflexivity. Qed.

Lemma blind_bind {A B} (m : M A) (k : A -> M B) :
  fileBlind m -> (forall a, fileBlind (k a)) -> fileBlind (bind m k).
Proof.
  intros Hm Hk w file s. unfold bind. rewrite Hm.
  destruct (m w s) as [[a|e] s']; [apply Hk|reflexivity].
Qed.

Lemma blind_tryCatch {A} (m : M A) (h : Error -> M A) :
  fileBlind m -> (forall e, fileBlind (h e)) -> fileBlind (tryCatch m h).
Proof.
  intros Hm Hh w file s. unfold tryCatch. rewrite Hm.
  destruct (m w s) as [[a|e] s']; [reflexivity|apply Hh].
Qed.

Lemma blind_getConfig : fileBlind getConfig.
Proof. intros w file s. reflexivity. Qed.

Lemma blind_apiKey : fileBlind apiKey.
Proof. intros w file s. reflexivity. Qed.

Lemma blind_now : fileBlind now.
Proof. intros w file s. reflexivity. Qed.

Lemma blind_send (wr : Write) : fileBlind (send wr).
Proof. intros w file s. reflexivity. Qed.

Lemma blind_request {A} (call : World -> nat -> Result A) :
  (forall w file n, call (withConfigFile w file) n = call w n) ->
  fileBlind (request call).
Proof. intros H w file s. unfold request. rewrite H. reflexivity. Qed.

Ltac blind_step :=
  first
    [ apply blind_ret
    | apply blind_throw
    | apply blind_getConfig
    | apply blind_apiKey
    | apply blind_now
    | apply blind_send
    | apply blind_request; reflexivity
    | apply blind_bind; [|intro]
    | apply blind_tryCatch; [|intro]
    | match goal with
      | |- fileBlind (match ?x with _ => _ end) => destruct x
      | |- fileBlind (if ?x then _ else _) => destruct x
      end ].

Lemma blind_construct (context : Context) : fileBlind (construct context).
Proof. unfold construct. repeat blind_step. Qed.

Lemma blind_callOpenAI (messages : list Message) : fileBlind (callOpenAI messages).
Proof. unfold callOpenAI. repeat blind_step. Qed.

Lemma blind_getPRDetails (pr : PullRequest) : fileBlind (getPRDetails pr).
Proof. unfold getPRDetails, getDiffStats. repeat blind_step. Qed.

Lemma blind_findStagingToReleasePR (context : Context) :
  fileBlind (findStagingToReleasePR context).
Proof. unfold findStagingToReleasePR. repeat blind_step. Qed.

Lemma blind_getCurrentVersion : fileBlind getCurrentVersion.
Proof. unfold getCurrentVersion. repeat blind_step. Qed.

Lemma blind_updatePRTitleWithInfo (n : N) (versionType summary : str) :
  fileBlind (updatePRTitleWithInfo n versionType summary).
Proof.
  unfold updatePRTitleWithInfo.
  apply blind_bind; [apply blind_getConfig|intro].
  apply blind_bind; [apply blind_getCurrentVersion|intro].
  repeat blind_step.
Qed.

Lemma blind_updatePRTitle (n : N) (aiSummary : str) : fileBlind (updatePRTitle n aiSummary).
Proof.
  unfold updatePRTitle.
  apply blind_bind; [apply blind_getConfig|intro].
  apply blind_bind; [apply blind_request; reflexivity|intro]. cbv zeta.
  apply blind_bind; [apply blind_callOpenAI|intro response].
  destruct response as [[|x xs]|]; apply blind_updatePRTitleWithInfo.
Qed.

Lemma blind_updatePRWithAISummary (context : Context) (n : N) (aiSummary : str) :
  fileBlind (updatePRWithAISummary context n aiSummary).
Proof. unfold updatePRWithAISummary. cbv zeta. repeat blind_step. Qed.

Lemma blind_addSummaryComment (context : Context) (n : N) (aiSummary : str) :
  fileBlind (addSummaryComment context n aiSummary).
Proof. unfold addSummaryComment. cbv zeta. repeat blind_step. Qed.

Lemma blind_updateStagingToReleasePR (context : Context) (aiSummary : str) :
  fileBlind (updateStagingToReleasePR context aiSummary).
Proof.
  unfold updateStagingToReleasePR.
  apply blind_bind; [apply blind_getConfig|intro].
  apply blind_bind; [apply blind_findStagingToReleasePR|intro draftPR].
  apply blind_bind; [repeat blind_step|intro prToUpdate].
  apply blind_bind.
  - destruct prToUpdate as [n|]; [apply blind_ret|].
    apply blind_bind; [apply blind_getCurrentVersion|intro].
    repeat blind_step.
  - intro n.
    apply blind_bind; [apply blind_updatePRWithAISummary|intro].
    apply blind_bind; [apply blind_addSummaryComment|intro].
    apply blind_updatePRTitle.
Qed.

Lemma blind_handleFeatureMergedToStaging (context : Context) :
  fileBlind (handleFeatureMergedToStaging context).
Proof.
  unfold handleFeatureMergedToStaging.
  apply blind_bind; [apply blind_getConfig|intro]. cbv zeta.
  apply blind_bind; [apply blind_getPRDetails|intro].
  apply blind_bind; [apply blind_callOpenAI|intro aiSummary].
  destruct aiSummary as [[|x xs]|]; try apply blind_ret.
  apply blind_updateStagingToReleasePR.
Qed.

Lemma blind_formatReleaseNotes (prBody versionType : str) :
  fileBlind (formatReleaseNotes prBody versionType).
Proof. unfold formatReleaseNotes, generateAISummary. cbv zeta. repeat blind_step. Qed.

Lemma blind_handleStagingMergedToRelease (context : Context) :
  fileBlind (handleStagingMergedToRelease context).
Proof.
  unfold handleStagingMergedToRelease.
  apply blind_bind; [apply blind_getConfig|intro]. cbv zeta.
  destruct (negb _); [apply blind_ret|].
  destruct (_ || _); [apply blind_ret|].
  destruct (titleMatch _) as [[versionType versionFromTitle]|]; [|apply blind_ret].
  apply blind_tryCatch; [|intro; apply blind_throw].
  apply blind_bind; [apply blind_formatReleaseNotes|intro].
  repeat blind_step.
Qed.

Lemma blind_afterLoadConfig (context : Context) : fileBlind (afterLoadConfig context).
Proof.
  unfold afterLoadConfig.
  apply blind_bind; [apply blind_getConfig|intro].
  apply blind_bind.
  { destruct (_ && _); [apply blind_handleFeatureMergedToStaging|apply blind_ret]. }
  intro. apply blind_bind; [apply blind_getConfig|intro].
  destruct (_ && _); [apply blind_handleStagingMergedToRelease|apply blind_ret].
Qed.

Lemma probotHandler_after_load (context : Context) (w : World) (s : State) :
  merged (pull_request context) = true ->
  fst (construct context w s) = Ok tt ->
  forall loaded, fst (loadConfig w s) = Ok loaded ->
  Events.probotHandler context w s = afterLoadConfig context w (tick s).
Proof.
  intros Hm Hc loaded Hl.
  unfold Events.probotHandler. rewrite Hm. cbn [negb]. cbv zeta.
  unfold bind at 1.
  assert (construct context w s = (Ok tt, s)) as Ec.
  { revert Hc. unfold construct, bind, apiKey.
    destruct (OPENAI_API_KEY w) as [[|x k]|]; cbn; try discriminate.
    destruct (has_repository context); cbn; [reflexivity|discriminate]. }
  rewrite Ec. unfold bind at 1.
  pose proof (loadConfig_state w s) as Es.
  destruct (loadConfig w s) as [[a|e] s']; cbn in Hl, Es; [|discriminate].
  subst s'. reflexivity.
Qed.

Lemma probotHandler_construct_throws
  (context : Context) (w : World) (s s1 : State) (e : Error) :
  merged (pull_request context) = true ->
  construct context w s = (Throw e, s1) ->
  Events.probotHandler context w s = (Throw e, s1).
Proof.
  intros Hm Hc. unfold Events.probotHandler. rewrite Hm. cbn [negb]. cbv zeta.
  unfold bind at 1. rewrite Hc. reflexivity.
Qed.

End ConfigFileIgnored.

(** C10. The configuration field of the service is [DEFAULT_CONFIG] after
    every run of the handler, in both revisions of it: [loadConfig]
    returns the merged configuration of the repository and leaves the
    field as it was, and the handler drops what [loadConfig] returns.
    Hence two repositories that differ in their configuration file only,
    and whose file loads, are handled alike. *)
Theorem service_configuration_stays_default
  (context : Remote.Context) (w : Remote.World) :
  Remote.config (snd (Events.run w context)) = Config.DEFAULT_CONFIG /\
  Remote.config (snd (Events.probotHandler_first context w ConfigService.newService))
    = Config.DEFAULT_CONFIG /\
  (forall s, Remote.config (snd (ConfigService.loadConfig w s)) = Remote.config s) /\
  (forall s repoConfig,
     Remote.repos_getContent w (Remote.clock s) = Remote.Ok (Remote.File (Some repoConfig)) ->
     fst (ConfigService.loadConfig w s)
       = Remote.Ok (Config.mergeConfigs Config.DEFAULT_CONFIG repoConfig)) /\
  (forall file1 file2 loaded1 loaded2,
     fst (ConfigService.loadConfig (withConfigFile w file1) ConfigService.newService)
       = Remote.Ok loaded1 ->
     fst (ConfigService.loadConfig (withConfigFile w file2) ConfigService.newService)
       = Remote.Ok loaded2 ->
     Events.run (withConfigFile w file1) context =
     Events.run (withConfigFile w file2) context).
Proof.
  split; [|split; [|split; [|split]]].
  - unfold Events.run. rewrite probotHandler_config. reflexivity.
  - rewrite probotHandler_first_config. reflexivity.
  - intro s. rewrite loadConfig_state. reflexivity.
  - intros s repoConfig H.
    unfold ConfigService.loadConfig, Remote.tryCatch, Remote.bind, Remote.request.
    rewrite H. reflexivity.
  - intros file1 file2 loaded1 loaded2 H1 H2. unfold Events.run.
    destruct (Remote.merged (Remote.pull_request context)) eqn:Hm.
    + destruct (ConfigService.construct context w ConfigService.newService)
        as [[[]|e] s1] eqn:Ec.
      * rewrite (probotHandler_after_load context (withConfigFile w file1) _ Hm)
          with (loaded := loaded1);
          [|rewrite blind_construct, Ec; reflexivity|exact H1].
        rewrite (probotHandler_after_load context (withConfigFile w file2) _ Hm)
          with (loaded := loaded2);
          [|rewrite blind_construct, Ec; reflexivity|exact H2].
        rewrite !blind_afterLoadConfig. reflexivity.
      * rewrite (probotHandler_construct_throws context (withConfigFile w file1) _ s1 e Hm)
          by (rewrite blind_construct; exact Ec).
        rewrite (probotHandler_construct_throws context (withConfigFile w file2) _ s1 e Hm)
          by (rewrite blind_construct; exact Ec).
        reflexivity.
    + unfold Events.probotHandler. rewrite Hm. reflexivity.
Qed.

(** With a file that renames the staging branch, [loadConfig] returns a
    configuration that is not the default one, and the event is handled
    as it is without any file. *)
Lemma service_configuration_stays_default_witness :
  fst (ConfigService.loadConfig
         (withConfigFile draftWorld (fun _ => Remote.Ok (Remote.File (Some renamedStaging))))
         ConfigService.newService)
    = Remote.Ok (Config.mergeConfigs Config.DEFAULT_CONFIG renamedStaging) /\
  Config.stagingBranch (Config.mergeConfigs Config.DEFAULT_CONFIG renamedStaging)
    = JS.lit "develop" /\
  Events.run
    (withConfigFile draftWorld (fun _ => Remote.Ok (Remote.File (Some renamedStaging))))
    featureEvent
  = Events.run
      (withConfigFile draftWorld (fun _ => Remote.Throw (Remote.HttpError 404)))
      featureEvent.
Proof.
  destruct (service_configuration_stays_default featureEvent
              (withConfigFile draftWorld
                 (fun _ => Remote.Ok (Remote.File (Some renamedStaging)))))
    as (_ & _ & _ & Hload & _).
  destruct (service_configuration_stays_default featureEvent draftWorld)
    as (_ & _ & _ & _ & Hsame).
  split; [|split].
  - apply (Hload ConfigService.newService renamedStaging). reflexivity.
  - reflexivity.
  - apply (Hsame (fun _ => Remote.Ok (Remote.File (Some renamedStaging)))
                 (fun _ => Remote.Throw (Remote.HttpError 404))
                 (Config.mergeConfigs Config.DEFAULT_CONFIG renamedStaging)
                 Config.DEFAULT_CONFIG); reflexivity.
Defined.

(* ====================================================================== *)
(** * The completion service is unavailable *)
(* ====================================================================== *)

Section Unavailable.

Import JS Config Remote ConfigService PRService.

Lemma callOpenAI_disabled (messages : list Message) (w : World) (s : State) :
  aiDisabled (config s) = true -> callOpenAI messages w s = (Ok None, s).
Proof.
  intro H. unfold callOpenAI, bind, getConfig. rewrite H. reflexivity.
Qed.

Lemma callOpenAI_failing (messages : list Message) (w : World) (s : State) (e : Error) :
  aiDisabled (config s) = false ->
  requiredFields (config s) <> None ->
  (forall n request, chat_completions_create w n request = Throw e) ->
  callOpenAI messages w s = (Throw e, tick s).
Proof.
  intros H Hr Hw. unfold callOpenAI, bind, getConfig. rewrite H.
  destruct (requiredFields (config s)) as [[[m t] k]|]; [|congruence].
  unfold request. rewrite Hw. reflexivity.
Qed.

Lemma callOpenAI_silent (messages : list Message) (w : World) (s : State) :
  aiDisabled (config s) = false ->
  requiredFields (config s) <> None ->
  (forall n request, chat_completions_create w n request = Ok None) ->
  callOpenAI messages w s = (Throw NO_RESPONSE, tick s).
Proof.
  intros H Hr Hw. unfold callOpenAI, bind, getConfig. rewrite H.
  destruct (requiredFields (config s)) as [[[m t] k]|]; [|congruence].
  unfold request. rewrite Hw. reflexivity.
Qed.

Lemma callOpenAI_null_iff (messages : list Message) (w : World) (s : State) :
  fst (callOpenAI messages w s) = Ok None <-> aiDisabled (config s) = true.
Proof.
  split.
  - unfold callOpenAI, bind, getConfig.
    destruct (aiDisabled (config s)); [reflexivity|].
    destruct (requiredFields (config s)) as [[[m t] k]|]; [|discriminate].
    unfold request.
    destruct (chat_completions_create w (clock s) _) as [[[|x xs]|]|e]; discriminate.
  - intro H. rewrite callOpenAI_disabled by exact H. reflexivity.
Qed.

Lemma getPRDetails_quiet (pr : PullRequest) (w : World) (s : State) :
  config (snd (getPRDetails pr w s)) = config s /\
  log (snd (getPRDetails pr w s)) = log s.
Proof.
  destruct (inv_getPRDetails (config s) (eq (log s)) pr w s) as [H1 H2].
  - split; reflexivity.
  - split; [exact H1|symmetry; exact H2].
Qed.

Lemma getPRDetails_readable (context : Context) (w : World) (s : State) :
  detailsReadable context w s ->
  exists d, fst (getPRDetails (pull_request context) w s) = Ok d.
Proof.
  intros (diff & commits & H1 & H2).
  unfold getPRDetails, getDiffStats, bind, request. rewrite H1.
  cbn [ret clock tick]. rewrite H2. eexists. reflexivity.
Qed.

(** The handler, when the completion call answers [r] without a summary
    wherever it is made. *)
Lemma handleFeature_without_summary
  (context : Context) (w : World) (s : State) (r : Result unit)
  (after : State -> State) :
  (forall s1, log (after s1) = log s1) ->
  (forall messages s1, config s1 = config s ->
     callOpenAI messages w s1 =
       (match r with Ok _ => Ok None | Throw e => Throw e end, after s1)) ->
  log (snd (handleFeatureMergedToStaging context w s)) = log s /\
  (detailsReadable context w s ->
   fst (handleFeatureMergedToStaging context w s) = r).
Proof.
  intros Hafter Hcall.
  destruct (getPRDetails_quiet (pull_request context) w s) as [Qc Ql].
  pose proof (getPRDetails_readable context w s) as Hread.
  remember (handleFeatureMergedToStaging context w s) as out eqn:Eout.
  unfold handleFeatureMergedToStaging in Eout.
  unfold bind at 1, getConfig in Eout. cbv zeta in Eout.
  unfold bind at 1 in Eout.
  destruct (getPRDetails (pull_request context) w s) as [[d|e] s1];
    cbn [fst snd] in Qc, Ql, Hread.
  - unfold bind in Eout. rewrite (Hcall _ s1 Qc) in Eout.
    destruct r as [[]|e]; cbv beta iota delta [ret] in Eout; subst out;
      cbn [fst snd]; rewrite Hafter; split; auto.
  - subst out. cbn [fst snd]. split; [exact Ql|].
    intro Hd. destruct (Hread Hd) as [d Hd']. discriminate Hd'.
Qed.

End Unavailable.

(** C5. With the configuration of the service (the AI feature enabled), a
    completion call that fails, or that answers without content, makes
    [callOpenAI] throw instead of answering [null], and the event of a
    feature merge fails with that error, where the handler's own warning
    for a missing summary has the update skipped and the event
    completed. *)
Lemma classification_failure_fails_the_event :
  fst (ConfigService.callOpenAI [] failingAIWorld ConfigService.newService)
    <> Remote.Ok None /\
  fst (ConfigService.callOpenAI [] failingAIWorld ConfigService.newService)
    = Remote.Throw (Remote.HttpError 500) /\
  fst (Events.run failingAIWorld featureEvent) = Remote.Throw (Remote.HttpError 500) /\
  fst (ConfigService.callOpenAI [] quietWorld ConfigService.newService)
    = Remote.Throw NO_RESPONSE /\
  fst (Events.run quietWorld featureEvent) = Remote.Throw NO_RESPONSE.
Proof.
  split; [vm_compute; discriminate|].
  repeat split; vm_compute; reflexivity.
Qed.

(** What [callOpenAI] does answer: [null] in one case, when the AI
    feature is disabled by the configuration; the handler of a feature
    merge then requests no write and, its details read, completes.  With
    the feature enabled and its settings present, a completion call that
    fails or answers without content makes [callOpenAI] throw; the handler
    requests no write and throws the same error. *)
Theorem callOpenAI_null_only_when_disabled
  (context : Remote.Context) (messages : list Remote.Message)
  (w : Remote.World) (s : Remote.State) :
  (fst (ConfigService.callOpenAI messages w s) = Remote.Ok None <->
   Config.aiDisabled (Remote.config s) = true) /\
  (Config.aiDisabled (Remote.config s) = true ->
   Remote.log (snd (PRService.handleFeatureMergedToStaging context w s)) = Remote.log s /\
   (detailsReadable context w s ->
    fst (PRService.handleFeatureMergedToStaging context w s) = Remote.Ok tt)) /\
  (Config.aiDisabled (Remote.config s) = false ->
   ConfigService.requiredFields (Remote.config s) <> None ->
   (forall e,
      (forall n request, Remote.chat_completions_create w n request = Remote.Throw e) ->
      fst (ConfigService.callOpenAI messages w s) = Remote.Throw e /\
      Remote.log (snd (PRService.handleFeatureMergedToStaging context w s)) = Remote.log s /\
      (detailsReadable context w s ->
       fst (PRService.handleFeatureMergedToStaging context w s) = Remote.Throw e)) /\
   ((forall n request, Remote.chat_completions_create w n request = Remote.Ok None) ->
    fst (ConfigService.callOpenAI messages w s) = Remote.Throw NO_RESPONSE /\
    Remote.log (snd (PRService.handleFeatureMergedToStaging context w s)) = Remote.log s /\
    (detailsReadable context w s ->
     fst (PRService.handleFeatureMergedToStaging context w s) = Remote.Throw NO_RESPONSE))).
Proof.
  split; [apply callOpenAI_null_iff|]. split.
  - intro Hoff.
    apply (handleFeature_without_summary context w s (Remote.Ok tt) (fun s1 => s1)).
    + reflexivity.
    + intros msgs s1 Hc. apply callOpenAI_disabled. rewrite Hc. exact Hoff.
  - intros Hon Hreq. split.
    + intros e Hfail. split.
      * rewrite (callOpenAI_failing messages w s e) by assumption. reflexivity.
      * apply (handleFeature_without_summary context w s (Remote.Throw e) Remote.tick).
        -- reflexivity.
        -- intros msgs s1 Hc. apply (callOpenAI_failing msgs w s1 e); rewrite ?Hc; assumption.
    + intro Hsilent. split.
      * rewrite callOpenAI_silent by assumption. reflexivity.
      * apply (handleFeature_without_summary context w s (Remote.Throw NO_RESPONSE) Remote.tick).
        -- reflexivity.
        -- intros msgs s1 Hc. apply callOpenAI_silent; rewrite ?Hc; assumption.
Qed.

Lemma callOpenAI_null_only_when_disabled_witness :
  fst (PRService.handleFeatureMergedToStaging featureEvent quietWorld serviceWithAiOff)
    = Remote.Ok tt /\
  Remote.log (snd (PRService.handleFeatureMergedToStaging featureEvent quietWorld
                     serviceWithAiOff)) = [] /\
  fst (PRService.handleFeatureMergedToStaging featureEvent failingAIWorld
         ConfigService.newService) = Remote.Throw (Remote.HttpError 500) /\
  fst (PRService.handleFeatureMergedToStaging featureEvent quietWorld
         ConfigService.newService) = Remote.Throw NO_RESPONSE.
Proof.
  assert (forall w s, Remote.pulls_get_diff w = (fun _ _ => Remote.Ok []) ->
                      Remote.pulls_listCommits w = (fun _ _ => Remote.Ok []) ->
                      detailsReadable featureEvent w s) as Hread.
  { intros w s H1 H2. exists [], []. rewrite H1, H2. split; reflexivity. }
  destruct (callOpenAI_null_only_when_disabled featureEvent [] quietWorld serviceWithAiOff)
    as (_ & Hoff & _).
  destruct (callOpenAI_null_only_when_disabled featureEvent [] failingAIWorld
              ConfigService.newService) as (_ & _ & Hfail).
  destruct (callOpenAI_null_only_when_disabled featureEvent [] quietWorld
              ConfigService.newService) as (_ & _ & Hsilent).
  assert (ConfigService.requiredFields (Remote.config ConfigService.newService) <> None)
    as Hr by discriminate.
  split; [|split; [|split]].
  - apply (Hoff eq_refl). apply Hread; reflexivity.
  - apply (Hoff eq_refl).
  - destruct (proj1 (Hfail eq_refl Hr) (Remote.HttpError 500) (fun _ _ => eq_refl))
      as (_ & _ & H).
    apply H. apply Hread; reflexivity.
  - destruct (proj2 (Hsilent eq_refl Hr) (fun _ _ => eq_refl)) as (_ & _ & H).
    apply H. apply Hread; reflexivity.
Defined.

(* ====================================================================== *)
(** * The title of the release stage *)
(* ====================================================================== *)

Section ReleaseTitle.

Import JS PRText.

Lemma startsWith_ci_length (p s : str) :
  startsWith_ci p s = true -> length p <= length s.
Proof.
  revert s. induction p as [|x p IH]; intros s H; simpl.
  - lia.
  - destruct s as [|y s]; simpl in H; [discriminate|].
    apply andb_true_iff in H. destruct H as [_ H]. apply IH in H. simpl. lia.
Qed.

Lemma startsWith_ci_intro (p a r : str) :
  toUpperCase a = toUpperCase p -> startsWith_ci p (a ++ r) = true.
Proof.
  revert a. induction p as [|x p IH]; intros a H.
  - reflexivity.
  - destruct a as [|y a]; simpl in H; [discriminate|].
    injection H as H1 H2. simpl. unfold ci_eqb. rewrite H1, ascii_eqb_refl.
    simpl. apply IH. exact H2.
Qed.

Lemma toUpperCase_length (s : str) : length (toUpperCase s) = length s.
Proof. unfold toUpperCase. apply length_map. Qed.

Lemma bumpText_upper (bump : BumpClass) : toUpperCase (bumpText bump) = bumpText bump.
Proof. destruct bump; reflexivity. Qed.

Lemma bumpText_length (bump : BumpClass) : length (bumpText bump) = 5.
Proof. destruct bump; reflexivity. Qed.

Lemma bumpWordAt_word (s b : str) :
  bumpWordAt s = Some b -> b = firstn 5 s /\ length b = 5.
Proof.
  unfold bumpWordAt. intro H.
  assert (5 <= length s /\ b = firstn 5 s) as [Hl ->].
  { destruct (startsWith_ci (lit "MAJOR") s) eqn:E1.
    { apply startsWith_ci_length in E1. split; [exact E1|congruence]. }
    destruct (startsWith_ci (lit "MINOR") s) eqn:E2.
    { apply startsWith_ci_length in E2. split; [exact E2|congruence]. }
    destruct (startsWith_ci (lit "PATCH") s) eqn:E3.
    { apply startsWith_ci_length in E3. split; [exact E3|congruence]. }
    discriminate. }
  split; [reflexivity|]. rewrite length_firstn. lia.
Qed.

Lemma bumpWordAt_intro (b r : str) (bump : BumpClass) :
  toUpperCase b = bumpText bump -> bumpWordAt (b ++ r) = Some b.
Proof.
  intro H.
  assert (length b = 5) as Hl.
  { rewrite <- toUpperCase_length, H. apply bumpText_length. }
  assert (firstn 5 (b ++ r) = b) as Hf.
  { rewrite <- Hl. apply firstn_length_app. }
  assert (startsWith_ci (bumpText bump) (b ++ r) = true) as Hs.
  { apply startsWith_ci_intro. rewrite bumpText_upper. exact H. }
  unfold bumpWordAt. rewrite Hf.
  destruct bump; cbn [bumpText] in Hs.
  - rewrite Hs. reflexivity.
  - destruct (startsWith_ci (lit "MAJOR") (b ++ r)); [reflexivity|].
    rewrite Hs. reflexivity.
  - destruct (startsWith_ci (lit "MAJOR") (b ++ r)); [reflexivity|].
    destruct (startsWith_ci (lit "MINOR") (b ++ r)); [reflexivity|].
    rewrite Hs. reflexivity.
Qed.

Lemma digitRun_firstn (s : str) :
  forallb isDigit (firstn (Rx.digitRun s) s) = true /\
  length (firstn (Rx.digitRun s) s) = Rx.digitRun s.
Proof.
  induction s as [|c s [IH1 IH2]]; simpl.
  - split; reflexivity.
  - destruct (isDigit c) eqn:E; simpl.
    + rewrite E, IH1, IH2. split; reflexivity.
    + split; reflexivity.
Qed.

Lemma digitRun_app (d r : str) (c : ascii) :
  forallb isDigit d = true -> isDigit c = false ->
  Rx.digitRun (d ++ c :: r) = length d.
Proof.
  intros Hd Hc. induction d as [|x d IH]; simpl.
  - rewrite Hc. reflexivity.
  - simpl in Hd. apply andb_true_iff in Hd. destruct Hd as [Hx Hd].
    rewrite Hx. f_equal. apply IH. exact Hd.
Qed.

(** [\d+] followed by [c]: the digits, the character, and what is left. *)
Lemma digitsThen_Some (c : ascii) (s : str) (n : nat) :
  digitsThen c s = Some n ->
  exists d, allDigits d /\ length d = n /\ s = d ++ c :: skipn (n + 1) s.
Proof.
  unfold digitsThen. destruct (Rx.digitRun s =? 0) eqn:E0; [discriminate|].
  apply Nat.eqb_neq in E0.
  destruct (startsWith [c] (skipn (Rx.digitRun s) s)) eqn:Es; [|discriminate].
  intro H. injection H as <-.
  destruct (digitRun_firstn s) as [H1 H2].
  exists (firstn (Rx.digitRun s) s). split; [|split].
  - split; [|exact H1]. intro Hnil. rewrite Hnil in H2. simpl in H2. lia.
  - exact H2.
  - apply startsWith_split in Es. change (length [c]) with 1 in Es.
    rewrite skipn_skipn in Es.
    replace (Rx.digitRun s + 1) with (1 + Rx.digitRun s) by lia.
    change (c :: skipn (1 + Rx.digitRun s) s)
      with ([c] ++ skipn (1 + Rx.digitRun s) s).
    rewrite <- Es. symmetry. apply firstn_skipn.
Qed.

Lemma digitsThen_intro (c : ascii) (d r : str) :
  allDigits d -> isDigit c = false ->
  digitsThen c (d ++ c :: r) = Some (length d).
Proof.
  intros [Hne Hd] Hc. unfold digitsThen.
  rewrite (digitRun_app d r c Hd Hc).
  destruct (length d =? 0) eqn:E.
  - apply Nat.eqb_eq in E. destruct d; [congruence|discriminate].
  - rewrite skipn_length_app. simpl. rewrite ascii_eqb_refl. reflexivity.
Qed.

Lemma allDigits_head (d : str) :
  allDigits d -> exists c t, d = c :: t /\ isDigit c = true.
Proof.
  intros [Hne Hd]. destruct d as [|c t]; [congruence|].
  simpl in Hd. apply andb_true_iff in Hd. destruct Hd as [Hc _].
  exists c, t. split; [reflexivity|exact Hc].
Qed.

Lemma digit_not_v (c : ascii) : isDigit c = true -> ci_eqb c (ch 118) = false.
Proof.
  destruct c as [[] [] [] [] [] [] [] []]; intro H; try discriminate H; reflexivity.
Qed.

Lemma ci_v (c : ascii) :
  ci_eqb c (ch 118) = true -> [c] = lit "v" \/ [c] = lit "V".
Proof.
  destruct c as [[] [] [] [] [] [] [] []]; intro H; try discriminate H;
    first [left; reflexivity | right; reflexivity].
Qed.

Lemma versionAt_Some (s : str) (n : nat) :
  versionAt s = Some n ->
  exists v d1 d2 d3 rest,
    (v = [] \/ v = lit "v" \/ v = lit "V") /\
    allDigits d1 /\ allDigits d2 /\ allDigits d3 /\
    s = (v ++ d1 ++ lit "." ++ d2 ++ lit "." ++ d3) ++ lit ":" ++ rest /\
    n = length (v ++ d1 ++ lit "." ++ d2 ++ lit "." ++ d3).
Proof.
  unfold versionAt.
  set (k := match s with
            | c :: _ => if ci_eqb c (ch 118) then 1 else 0
            | [] => 0
            end).
  assert (exists v, (v = [] \/ v = lit "v" \/ v = lit "V") /\
                    length v = k /\ s = v ++ skipn k s) as (v & Hv & Hk & Hs).
  { unfold k. destruct s as [|c t].
    - exists []. repeat split. left. reflexivity.
    - destruct (ci_eqb c (ch 118)) eqn:E.
      + exists [c]. repeat split. right. apply ci_v. exact E.
      + exists []. repeat split. left. reflexivity. }
  destruct (digitsThen (ch 46) (skipn k s)) as [n1|] eqn:E1; [|discriminate].
  destruct (digitsThen (ch 46) (skipn (n1 + 1) (skipn k s))) as [n2|] eqn:E2;
    [|discriminate].
  destruct (digitsThen (ch 58) (skipn (n2 + 1) (skipn (n1 + 1) (skipn k s))))
    as [n3|] eqn:E3; [|discriminate].
  intro H. injection H as <-.
  apply digitsThen_Some in E1. destruct E1 as (d1 & D1 & L1 & S1).
  apply digitsThen_Some in E2. destruct E2 as (d2 & D2 & L2 & S2).
  apply digitsThen_Some in E3. destruct E3 as (d3 & D3 & L3 & S3).
  exists v, d1, d2, d3,
    (skipn (n3 + 1) (skipn (n2 + 1) (skipn (n1 + 1) (skipn k s)))).
  split; [exact Hv|]. split; [exact D1|]. split; [exact D2|]. split; [exact D3|].
  split.
  - rewrite Hs at 1. rewrite S1 at 1. rewrite S2 at 1. rewrite S3 at 1.
    cbn [lit list_ascii_of_string app].
    repeat first [rewrite <- app_assoc | rewrite <- app_comm_cons].
    reflexivity.
  - rewrite !length_app. cbn [lit list_ascii_of_string length]. lia.
Qed.

Lemma versionAt_unfold (s : str) (k : nat) :
  k = match s with
      | c :: _ => if ci_eqb c (ch 118) then 1 else 0
      | [] => 0
      end ->
  versionAt s =
    match digitsThen (ch 46) (skipn k s) with
    | None => None
    | Some d1 =>
        match digitsThen (ch 46) (skipn (d1 + 1) (skipn k s)) with
        | None => None
        | Some d2 =>
            match digitsThen (ch 58) (skipn (d2 + 1) (skipn (d1 + 1) (skipn k s))) with
            | None => None
            | Some d3 => Some (k + (d1 + 1) + (d2 + 1) + d3)
            end
        end
    end.
Proof. intros ->. reflexivity. Qed.

Lemma versionAt_digits (k : nat) (d1 d2 d3 rest s : str) :
  allDigits d1 -> allDigits d2 -> allDigits d3 ->
  k = match s with
      | c :: _ => if ci_eqb c (ch 118) then 1 else 0
      | [] => 0
      end ->
  skipn k s = d1 ++ ch 46 :: d2 ++ ch 46 :: d3 ++ ch 58 :: rest ->
  versionAt s = Some (k + (length d1 + 1) + (length d2 + 1) + length d3).
Proof.
  intros D1 D2 D3 Hk Hs.
  assert (forall d t, skipn (length d + 1) (d ++ ch 46 :: t) = t) as K.
  { intros d t. replace (length d + 1) with (1 + length d) by lia.
    rewrite <- skipn_skipn, skipn_length_app. reflexivity. }
  rewrite (versionAt_unfold s k Hk), Hs.
  rewrite (digitsThen_intro (ch 46) d1 _ D1) by reflexivity. rewrite K.
  rewrite (digitsThen_intro (ch 46) d2 _ D2) by reflexivity. rewrite K.
  rewrite (digitsThen_intro (ch 58) d3 _ D3) by reflexivity.
  reflexivity.
Qed.

Lemma versionAt_intro (v d1 d2 d3 rest : str) :
  (v = [] \/ v = lit "v" \/ v = lit "V") ->
  allDigits d1 -> allDigits d2 -> allDigits d3 ->
  versionAt ((v ++ d1 ++ lit "." ++ d2 ++ lit "." ++ d3) ++ lit ":" ++ rest)
    = Some (length (v ++ d1 ++ lit "." ++ d2 ++ lit "." ++ d3)).
Proof.
  intros Hv D1 D2 D3.
  destruct (allDigits_head d1 D1) as (c & t & Hd1 & Hc).
  assert (length (v ++ d1 ++ lit "." ++ d2 ++ lit "." ++ d3) =
          length v + (length d1 + 1) + (length d2 + 1) + length d3) as Hlen.
  { rewrite !length_app. cbn [lit list_ascii_of_string length]. lia. }
  assert ((v ++ d1 ++ lit "." ++ d2 ++ lit "." ++ d3) ++ lit ":" ++ rest =
          v ++ (d1 ++ ch 46 :: d2 ++ ch 46 :: d3 ++ ch 58 :: rest)) as Hshape.
  { cbn [lit list_ascii_of_string app].
    repeat first [rewrite <- app_assoc | rewrite <- app_comm_cons]. reflexivity. }
  rewrite Hlen, Hshape.
  apply (versionAt_digits _ d1 d2 d3 rest); try assumption.
  - destruct Hv as [-> | [-> | ->]]; cbn [lit list_ascii_of_string app length].
    + rewrite Hd1. cbn [app]. rewrite (digit_not_v c Hc). reflexivity.
    + reflexivity.
    + reflexivity.
  - apply skipn_length_app.
Qed.

Lemma titleMatch_pattern (title versionType versionFromTitle : str) :
  titleMatch title = Some (versionType, versionFromTitle) <->
  releaseTitlePattern title versionType versionFromTitle.
Proof.
  split.
  - unfold titleMatch.
    destruct (bumpWordAt title) as [b|] eqn:Eb; [|discriminate].
    destruct (startsWith_ci RELEASE_WORD (skipn 5 title)) eqn:Er; [|discriminate].
    destruct (versionAt (skipn (length RELEASE_WORD) (skipn 5 title)))
      as [n|] eqn:Ev; [|discriminate].
    intro H.
    assert (b = versionType) as Hb by congruence.
    assert (firstn n (skipn (length RELEASE_WORD) (skipn 5 title)) = versionFromTitle)
      as Hf by congruence.
    clear H. subst b.
    destruct (bumpWordAt_bump _ _ Eb) as [bump Hbump].
    destruct (bumpWordAt_word _ _ Eb) as [Hw _].
    apply versionAt_Some in Ev.
    destruct Ev as (v & d1 & d2 & d3 & rest & Hv & D1 & D2 & D3 & Hs & Hn).
    exists bump, (firstn (length RELEASE_WORD) (skipn 5 title)), v, d1, d2, d3, rest.
    assert (versionFromTitle = v ++ d1 ++ lit "." ++ d2 ++ lit "." ++ d3) as Hvf.
    { rewrite <- Hf, Hs, Hn. apply firstn_length_app. }
    split; [exact Hbump|]. split; [apply (startsWith_ci_upper _ _ Er)|].
    split; [exact Hv|]. split; [exact D1|]. split; [exact D2|]. split; [exact D3|].
    split; [exact Hvf|].
    + rewrite Hvf, Hw.
      rewrite <- (firstn_skipn 5 title) at 1. f_equal.
      rewrite <- (firstn_skipn (length RELEASE_WORD) (skipn 5 title)) at 1. f_equal.
      rewrite Hs at 1. rewrite <- app_assoc. reflexivity.
  - intros (bump & word & v & d1 & d2 & d3 & rest &
            Hb & Hw & Hv & D1 & D2 & D3 & Hvf & Ht).
    assert (length versionType = 5) as L5.
    { rewrite <- toUpperCase_length, Hb. apply bumpText_length. }
    assert (length word = length RELEASE_WORD) as L10.
    { rewrite <- toUpperCase_length, Hw. reflexivity. }
    unfold titleMatch. rewrite Ht.
    rewrite (bumpWordAt_intro _ _ bump Hb).
    rewrite <- L5, skipn_length_app.
    rewrite (startsWith_ci_intro RELEASE_WORD word) by (rewrite Hw; reflexivity).
    rewrite <- L10, skipn_length_app. rewrite Hvf.
    rewrite (versionAt_intro v d1 d2 d3 rest Hv D1 D2 D3).
    rewrite firstn_length_app. reflexivity.
Qed.

Lemma handleStagingMergedToRelease_skips
  (context : Remote.Context) (w : Remote.World) (s : Remote.State) :
  titleMatch (Remote.title (Remote.pull_request context)) = None ->
  PRService.handleStagingMergedToRelease context w s = (Remote.Ok tt, s).
Proof.
  intro H. unfold PRService.handleStagingMergedToRelease, Remote.bind, Remote.getConfig.
  cbv zeta. rewrite H.
  destruct (negb _); [reflexivity|].
  destruct (_ || _); reflexivity.
Qed.

End ReleaseTitle.

Section ReleaseRun.

Import JS Config Remote ConfigService.

Lemma construct_state (context : Context) (w : World) (s : State) :
  snd (construct context w s) = s.
Proof.
  unfold construct, bind, apiKey.
  destruct (OPENAI_API_KEY w) as [[|x k]|]; try reflexivity.
  destruct (has_repository context); reflexivity.
Qed.

(** A run on a merge of staging into main whose title is not accepted
    requests no write. *)
Lemma run_release_unparsed (context : Context) (w : World) :
  merged (pull_request context) = true ->
  head_ref (pull_request context) = lit "staging" ->
  base_ref (pull_request context) = lit "main" ->
  PRText.titleMatch (title (pull_request context)) = None ->
  log (snd (Events.run w context)) = [].
Proof.
  intros Hm Hh Hb Ht. unfold Events.run, Events.probotHandler.
  rewrite Hm, Hh, Hb. cbn [negb]. cbv zeta.
  unfold bind at 1.
  pose proof (construct_state context w newService) as Ec.
  destruct (construct context w newService) as [[[]|e] s1]; cbn [snd] in Ec; subst s1;
    [|reflexivity].
  unfold bind at 1.
  pose proof (loadConfig_state w newService) as El.
  destruct (loadConfig w newService) as [[loaded|e] s2]; cbn [snd] in El; subst s2;
    [|reflexivity].
  unfold bind at 1. unfold getConfig at 1.
  change (config (tick newService)) with DEFAULT_CONFIG.
  change (Events.sameRef (lit "main") (staging_of DEFAULT_CONFIG)) with false.
  cbn [andb]. unfold bind at 1. cbn [ret].
  unfold bind at 1. unfold getConfig at 1.
  change (config (tick newService)) with DEFAULT_CONFIG.
  change (Events.sameRef (lit "main") (release_of DEFAULT_CONFIG)) with true.
  change (Events.sameRef (lit "staging") (staging_of DEFAULT_CONFIG)) with true.
  cbn [andb].
  rewrite handleStagingMergedToRelease_skips by exact Ht. reflexivity.
Qed.

End ReleaseRun.

(** C6, as stated: a title in small letters with a capital [V] before the
    version is not of the pattern [<BUMP> Release: <version>:] read to the
    letter, and is accepted all the same: the bump class is the word as
    written, the version keeps its [V], and the release of the run is
    tagged [vV1.2.0]. *)
Lemma release_title_accepted_in_any_case :
  PRText.titleMatch (JS.lit "minor release: V1.2.0:x")
    = Some (JS.lit "minor", JS.lit "V1.2.0") /\
  (forall versionType versionFromTitle,
     ~ capitalTitlePattern (JS.lit "minor release: V1.2.0:x") versionType versionFromTitle) /\
  exists notes comment,
    Remote.log (snd (Events.run draftWorld (releaseEvent (JS.lit "minor release: V1.2.0:x"))))
    = [ Remote.ReposCreateRelease (JS.lit "vV1.2.0") (JS.lit "vV1.2.0") notes
          (JS.lit "main") false false;
        Remote.IssuesCreateComment 12 comment ].
Proof.
  split; [reflexivity|]. split.
  - intros versionType versionFromTitle (bump & v & d1 & d2 & d3 & rest & -> & _ & _ & _ & _ & _ & H).
    destruct bump; cbn in H; discriminate H.
  - vm_compute. eexists. eexists. reflexivity.
Qed.

(** C6, amended. The title of the release stage is accepted when, and only
    when, it reads [<BUMP> Release: <version>:] with an optional [v]
    before the version, letters in either case, as the expression is
    matched without regard to case: [MINOR Release: v1.2.0: Add login]
    gives the bump class MINOR and the version 1.2.0, [Release something]
    gives nothing.  On a title that is not accepted the handler of the
    release stage returns at once: no release, no comment, no request at
    all, and the run of the event has requested no write. *)
Theorem release_title_parsed_or_skipped
  (context : Remote.Context) (w : Remote.World) (s : Remote.State) :
  PRText.titleMatch (JS.lit "MINOR Release: v1.2.0: Add login")
    = Some (bumpText MINOR, JS.lit "v1.2.0") /\
  PRText.stripV (JS.lit "v1.2.0") = JS.lit "1.2.0" /\
  PRText.titleMatch (JS.lit "Release something") = None /\
  (forall title versionType versionFromTitle,
     PRText.titleMatch title = Some (versionType, versionFromTitle) <->
     releaseTitlePattern title versionType versionFromTitle) /\
  (PRText.titleMatch (Remote.title (Remote.pull_request context)) = None ->
   PRService.handleStagingMergedToRelease context w s = (Remote.Ok tt, s)) /\
  (Remote.merged (Remote.pull_request context) = true ->
   Remote.head_ref (Remote.pull_request context) = JS.lit "staging" ->
   Remote.base_ref (Remote.pull_request context) = JS.lit "main" ->
   PRText.titleMatch (Remote.title (Remote.pull_request context)) = None ->
   Remote.log (snd (Events.run w context)) = []).
Proof.
  split; [reflexivity|]. split; [reflexivity|]. split; [reflexivity|].
  split; [apply titleMatch_pattern|].
  split; [apply handleStagingMergedToRelease_skips|apply run_release_unparsed].
Qed.

Lemma release_title_parsed_or_skipped_witness :
  PRService.handleStagingMergedToRelease
    (releaseEvent (JS.lit "Release something")) draftWorld ConfigService.newService
  = (Remote.Ok tt, ConfigService.newService) /\
  Remote.log (snd (Events.run draftWorld (releaseEvent (JS.lit "Release something")))) = [].
Proof.
  destruct (release_title_parsed_or_skipped
              (releaseEvent (JS.lit "Release something")) draftWorld
              ConfigService.newService) as (_ & _ & _ & _ & Hskip & Hrun).
  split.
  - apply Hskip. reflexivity.
  - apply Hrun; reflexivity.
Defined.

(* ====================================================================== *)
(** * Versions with missing, empty or surplus components *)
(* ====================================================================== *)

Section VersionEdges.

Import Helpers.

(** The answer depends on the first three parts of the split. *)
Lemma calculateNewVersion_parts (v v' : str) (t : ReleaseType) :
  (forall i, i < 3 -> partOrZero (split (ch 46) v) i = partOrZero (split (ch 46) v') i) ->
  calculateNewVersion v t = calculateNewVersion v' t.
Proof.
  intro H. unfold calculateNewVersion.
  rewrite (H 0), (H 1), (H 2) by lia. reflexivity.
Qed.

End VersionEdges.

(** X1. [calculateNewVersion] reads the first three components only and
    takes a missing or empty one for zero: [a.b.c.more] is bumped as
    [a.b.c], [a.b] as [a.b.0], [a] as [a.0.0], and [.b.c] as [0.b.c].  A
    first component that [parseInt] reads as no number comes back as
    [NaN]. *)
Theorem calculateNewVersion_partial_versions
  (a b c more : JS.str) (releaseType : Helpers.ReleaseType) :
  ~ In (JS.ch 46) a -> ~ In (JS.ch 46) b -> ~ In (JS.ch 46) c ->
  Helpers.calculateNewVersion (a ++ JS.lit "." ++ b ++ JS.lit "." ++ c ++ JS.lit "." ++ more)
    releaseType
  = Helpers.calculateNewVersion (a ++ JS.lit "." ++ b ++ JS.lit "." ++ c) releaseType /\
  Helpers.calculateNewVersion (a ++ JS.lit "." ++ b) releaseType
  = Helpers.calculateNewVersion (a ++ JS.lit "." ++ b ++ JS.lit ".0") releaseType /\
  Helpers.calculateNewVersion a releaseType
  = Helpers.calculateNewVersion (a ++ JS.lit ".0.0") releaseType /\
  Helpers.calculateNewVersion (JS.lit "." ++ b ++ JS.lit "." ++ c) releaseType
  = Helpers.calculateNewVersion (JS.lit "0." ++ b ++ JS.lit "." ++ c) releaseType /\
  (JS.parseInt10 a = JS.NaN -> a <> [] ->
   Helpers.calculateNewVersion (a ++ JS.lit "." ++ b ++ JS.lit "." ++ c) Helpers.major
   = JS.lit "NaN.0.0").
Proof.
  intros Ha Hb Hc.
  cbn [JS.lit list_ascii_of_string app].
  change "."%char with (JS.ch 46).
  assert (forall i, i < 3 -> i = 0 \/ i = 1 \/ i = 2) as I3 by (intros; lia).
  split; [|split; [|split; [|split]]].
  - apply calculateNewVersion_parts. intros i Hi.
    rewrite !split_app by assumption.
    rewrite (split_no_separator _ c) by assumption.
    destruct (I3 i Hi) as [-> | [-> | ->]]; reflexivity.
  - apply calculateNewVersion_parts. intros i Hi.
    rewrite !split_app by assumption.
    rewrite (split_no_separator _ b) by assumption.
    destruct (I3 i Hi) as [-> | [-> | ->]]; reflexivity.
  - apply calculateNewVersion_parts. intros i Hi.
    rewrite !split_app by assumption.
    rewrite (split_no_separator _ a) by assumption.
    destruct (I3 i Hi) as [-> | [-> | ->]]; reflexivity.
  - apply calculateNewVersion_parts. intros i Hi.
    pose proof (split_app (JS.ch 46) [] (b ++ JS.ch 46 :: c) (fun H => H)) as E1.
    assert (~ In (JS.ch 46) ["0"%char]) as H0 by (intros [H|[]]; discriminate H).
    pose proof (split_app (JS.ch 46) ["0"%char] (b ++ JS.ch 46 :: c) H0) as E2.
    cbn [app] in E1, E2. rewrite E1, E2.
    destruct (I3 i Hi) as [-> | [-> | ->]]; reflexivity.
  - intros Hn Hne. unfold Helpers.calculateNewVersion.
    rewrite !split_app by assumption.
    destruct a as [|x a]; [congruence|].
    cbn [Helpers.partOrZero nth_error]. rewrite Hn. reflexivity.
Qed.

(** The versions [1.4.2.9], [1.4] and [1]. *)
Lemma calculateNewVersion_partial_versions_witness :
  Helpers.calculateNewVersion (JS.lit "1.4.2.9") Helpers.patch
  = Helpers.calculateNewVersion (JS.lit "1.4.2") Helpers.patch /\
  Helpers.calculateNewVersion (JS.lit "1.4") Helpers.patch
  = Helpers.calculateNewVersion (JS.lit "1.4.0") Helpers.patch /\
  Helpers.calculateNewVersion (JS.lit "1") Helpers.patch
  = Helpers.calculateNewVersion (JS.lit "1.0.0") Helpers.patch.
Proof.
  assert (forall d : ascii, d <> JS.ch 46 -> ~ In (JS.ch 46) [d]) as H.
  { intros d Hd [E|[]]. apply Hd. exact E. }
  destruct (calculateNewVersion_partial_versions
              (JS.lit "1") (JS.lit "4") (JS.lit "2") (JS.lit "9") Helpers.patch)
    as (H1 & H2 & H3 & _); try (apply H; discriminate).
  split; [exact H1|]. split; [exact H2|exact H3].
Defined.

(* ====================================================================== *)
(** * White space at the ends of a text *)
(* ====================================================================== *)

Section TrimFacts.

Import JS.

Lemma trimStart_spaceRun (s : str) : trimStart s = skipn (Rx.spaceRun s) s.
Proof.
  induction s as [|c s IH]; simpl.
  - reflexivity.
  - destruct (isSpace c); [exact IH|reflexivity].
Qed.

Lemma trimStart_head (s : str) (c : ascii) (t : str) :
  trimStart s = c :: t -> isSpace c = false.
Proof.
  induction s as [|x s IH]; simpl.
  - discriminate.
  - destruct (isSpace x) eqn:E; [exact IH|].
    intro H. injection H as <- _. exact E.
Qed.

Lemma trimStart_nil (s : str) : trimStart s = [] -> forallb isSpace s = true.
Proof.
  induction s as [|x s IH]; simpl.
  - reflexivity.
  - destruct (isSpace x); [exact IH|discriminate].
Qed.

Lemma trimStart_suffix (s : str) :
  exists r, s = r ++ trimStart s /\ forallb isSpace r = true.
Proof.
  induction s as [|x s (r & H1 & H2)]; simpl.
  - exists []. split; reflexivity.
  - destruct (isSpace x) eqn:E.
    + exists (x :: r). simpl. rewrite E, H2. split; [f_equal; exact H1|reflexivity].
    + exists []. split; reflexivity.
Qed.

Lemma trimStart_fixed (c : ascii) (t : str) :
  isSpace c = false -> trimStart (c :: t) = c :: t.
Proof. intro H. simpl. rewrite H. reflexivity. Qed.

Lemma trimStart_spaces (r s : str) :
  forallb isSpace r = true -> trimStart (r ++ s) = trimStart s.
Proof.
  induction r as [|x r IH]; simpl; intro H.
  - reflexivity.
  - apply andb_true_iff in H. destruct H as [Hx Hr]. rewrite Hx. apply IH. exact Hr.
Qed.

(** [trimEnd] keeps a prefix and drops white space only. *)
Lemma trimEnd_prefix (s : str) :
  exists r, s = trimEnd s ++ r /\ forallb isSpace r = true.
Proof.
  unfold trimEnd. destruct (trimStart_suffix (rev s)) as (r & H1 & H2).
  exists (rev r). split.
  - rewrite <- rev_app_distr, <- H1, rev_involutive. reflexivity.
  - rewrite forallb_forall in *. intros x Hx. apply H2. apply in_rev. exact Hx.
Qed.

Lemma trimEnd_last (s t : str) (c : ascii) :
  trimEnd s = t ++ [c] -> isSpace c = false.
Proof.
  unfold trimEnd. intro H.
  apply (f_equal (@rev ascii)) in H. rewrite rev_involutive, rev_app_distr in H.
  simpl in H. apply (trimStart_head _ _ _ H).
Qed.

Lemma trimEnd_fixed (t : str) (c : ascii) :
  isSpace c = false -> trimEnd (t ++ [c]) = t ++ [c].
Proof.
  intro H. unfold trimEnd. rewrite rev_app_distr. simpl. rewrite H.
  change (c :: rev t) with ([c] ++ rev t).
  rewrite rev_app_distr, rev_involutive. reflexivity.
Qed.

Lemma trimEnd_spaces (s r : str) :
  forallb isSpace r = true -> trimEnd (s ++ r) = trimEnd s.
Proof.
  intro H. unfold trimEnd. rewrite rev_app_distr. f_equal.
  apply trimStart_spaces. rewrite forallb_forall in *.
  intros x Hx. apply H. apply in_rev. exact Hx.
Qed.

Lemma trim_head (s : str) (c : ascii) (t : str) :
  trim s = c :: t -> isSpace c = false.
Proof.
  unfold trim. intro H.
  destruct (trimEnd_prefix (trimStart s)) as (r & H1 & _).
  rewrite H in H1. simpl in H1. apply (trimStart_head _ _ _ H1).
Qed.

Lemma trim_last (s t : str) (c : ascii) :
  trim s = t ++ [c] -> isSpace c = false.
Proof. unfold trim. apply trimEnd_last. Qed.

(** A text that neither begins nor ends with white space is its own trim. *)
Lemma trim_fixed (c d : ascii) (t : str) :
  isSpace c = false -> isSpace d = false ->
  trim (c :: t ++ [d]) = c :: t ++ [d].
Proof.
  intros Hc Hd. unfold trim. rewrite trimStart_fixed by exact Hc.
  change (c :: t ++ [d]) with ((c :: t) ++ [d]). apply trimEnd_fixed. exact Hd.
Qed.

Lemma trim_fixed_one (c : ascii) : isSpace c = false -> trim [c] = [c].
Proof.
  intro Hc. unfold trim. rewrite trimStart_fixed by exact Hc.
  apply (trimEnd_fixed [] c Hc).
Qed.

Lemma trim_idempotent (s : str) : trim (trim s) = trim s.
Proof.
  destruct (trim s) as [|c t] eqn:E.
  - reflexivity.
  - pose proof (trim_head _ _ _ E) as Hc.
    destruct (exists_last (l := c :: t) ltac:(discriminate)) as (t' & d & Hl).
    rewrite Hl in E. pose proof (trim_last _ _ _ E) as Hd.
    destruct t' as [|c' t'].
    + simpl in Hl. injection Hl as <- ->. apply trim_fixed_one. exact Hc.
    + simpl in Hl. injection Hl as <- ->. apply trim_fixed; assumption.
Qed.

Lemma In_trimStart (c : ascii) (s : str) : In c (trimStart s) -> In c s.
Proof.
  destruct (trimStart_suffix s) as (r & H & _). intro Hin.
  rewrite H. apply in_or_app. right. exact Hin.
Qed.

Lemma In_trim (c : ascii) (s : str) : In c (trim s) -> In c s.
Proof.
  unfold trim. intro H. apply In_trimStart.
  destruct (trimEnd_prefix (trimStart s)) as (r & E & _).
  rewrite E. apply in_or_app. left. exact H.
Qed.

Lemma lineTerminator_space (c : ascii) : isLineTerminator c = true -> isSpace c = true.
Proof.
  unfold isLineTerminator, isSpace. intro H.
  apply orb_true_iff in H. destruct H as [H|H]; rewrite H; repeat rewrite orb_true_r; reflexivity.
Qed.

End TrimFacts.

(* ====================================================================== *)
(** * The sections of a summary *)
(* ====================================================================== *)

Section ParsedBullets.

Import JS Helpers.

Lemma pushBullet_clean (group : str) (rest : list str) :
  (forall c, In c group -> isLineTerminator c = false) ->
  Forall cleanBullet rest -> Forall cleanBullet (pushBullet group rest).
Proof.
  intros Hg Hr. unfold pushBullet. destruct (trim group) as [|x t] eqn:E.
  - exact Hr.
  - constructor; [|exact Hr]. split; [discriminate|]. split.
    + rewrite <- E. apply trim_idempotent.
    + intros c Hc. apply Hg. apply In_trim. rewrite E. exact Hc.
Qed.

Lemma scanBullets_clean (s : str) :
  forall st, scanOnLine st -> Forall cleanBullet (scanBullets st s).
Proof.
  induction s as [|c s IH]; intros st Hst.
  - destruct st; simpl; try constructor.
    apply pushBullet_clean; [exact Hst|constructor].
  - destruct st as [atStart| | |acc]; cbn [scanBullets].
    + destruct (atStart && isMarker c); apply IH; exact I.
    + destruct (isSpace c); apply IH; exact I.
    + destruct (isSpace c) eqn:E; apply IH; [exact I|].
      intros x [<-|[]]. destruct (isLineTerminator c) eqn:El; [|reflexivity].
      apply lineTerminator_space in El. congruence.
    + destruct (isLineTerminator c) eqn:E.
      * apply pushBullet_clean; [exact Hst|]. apply IH. exact I.
      * apply IH. intros x Hx. apply in_app_or in Hx.
        destruct Hx as [Hx|[<-|[]]]; [apply Hst; exact Hx|exact E].
Qed.

Lemma sectionBullets_clean (matched : option str) (header : str) :
  Forall cleanBullet (sectionBullets matched header).
Proof.
  unfold sectionBullets. destruct matched as [[|c m]|]; try constructor.
  apply scanBullets_clean. exact I.
Qed.

End ParsedBullets.

(** X2. [parseSummary] always answers two sections, [New Features] first
    and [Bugs / Improvements] second, so that the look-up by section name
    in [updatePRWithAISummary] finds both.  Every bullet in them is not
    empty, has no white space at either end and lies on one line.  A
    blank summary gives no bullet, and a section whose heading the summary
    does not hold, in any case of the letters, gives none. *)
Theorem parseSummary_two_sections_of_clean_bullets (aiSummary : JS.str) :
  exists featureBullets bugBullets,
    Helpers.parseSummary aiSummary =
      [ {| Helpers.type := Helpers.FEATURES_SECTION; Helpers.bullets := featureBullets |};
        {| Helpers.type := Helpers.BUGS_SECTION; Helpers.bullets := bugBullets |} ] /\
    PRService.bulletsOf (Helpers.parseSummary aiSummary) Helpers.FEATURES_SECTION
      = featureBullets /\
    PRService.bulletsOf (Helpers.parseSummary aiSummary) Helpers.BUGS_SECTION
      = bugBullets /\
    Forall cleanBullet featureBullets /\
    Forall cleanBullet bugBullets /\
    (JS.trim aiSummary = [] -> featureBullets = [] /\ bugBullets = []) /\
    (JS.findFrom_ci Helpers.FEATURES_SECTION aiSummary 0 = None -> featureBullets = []) /\
    (JS.findFrom_ci Helpers.BUGS_SECTION aiSummary 0 = None -> bugBullets = []).
Proof.
  unfold Helpers.parseSummary. destruct (JS.trim aiSummary) as [|c t] eqn:E.
  - exists [], []. repeat split; constructor.
  - exists (Helpers.sectionBullets (Helpers.featuresMatch aiSummary) Helpers.FEATURES_SECTION),
           (Helpers.sectionBullets (Helpers.bugsMatch aiSummary) Helpers.BUGS_SECTION).
    split; [reflexivity|]. split; [reflexivity|]. split; [reflexivity|].
    split; [apply sectionBullets_clean|]. split; [apply sectionBullets_clean|].
    split; [discriminate|]. split.
    + intro H. unfold Helpers.featuresMatch. rewrite H. reflexivity.
    + intro H. unfold Helpers.bugsMatch. rewrite H. reflexivity.
Qed.
Section SummaryRoundTrip.

Import JS Helpers.

Lemma startsWith_ci_cut (p u v : str) (c : ascii) :
  (forall x, In x p -> ci_eqb x c = false) ->
  startsWith_ci p (u ++ c :: v) = true -> startsWith_ci p u = true.
Proof.
  intro Hp. revert u. induction p as [|x p IH]; intros u H.
  - reflexivity.
  - destruct u as [|y u]; simpl in H.
    + rewrite (Hp x) in H by (left; reflexivity). discriminate H.
    + apply andb_true_iff in H. destruct H as [H1 H2]. simpl. rewrite H1.
      apply IH; [|exact H2]. intros z Hz. apply Hp. right. exact Hz.
Qed.

Lemma findFrom_ci_first (p s : str) (i k : nat) :
  startsWith_ci p (skipn k s) = true ->
  (forall q, q < k -> startsWith_ci p (skipn q s) = false) ->
  k <= length s ->
  findFrom_ci p s i = Some (i + k).
Proof.
  revert i k. induction s as [|c s IH]; intros i k Hk Hmin Hlen.
  - simpl in Hlen. assert (k = 0) by lia. subst k. simpl in Hk.
    simpl. rewrite Hk. f_equal. lia.
  - destruct k as [|k].
    + simpl in Hk. cbn [findFrom_ci]. rewrite Hk. f_equal. lia.
    + cbn [findFrom_ci]. pose proof (Hmin 0 ltac:(lia)) as H0. simpl in H0. rewrite H0.
      replace (i + S k) with (S i + k) by lia.
      apply IH.
      * exact Hk.
      * intros q Hq. apply (Hmin (S q)). lia.
      * simpl in Hlen. lia.
Qed.

Lemma bugs_header_one_line (x : ascii) : In x BUGS_SECTION -> ci_eqb x LF = false.
Proof.
  intro H. assert (forallb (fun y => negb (ci_eqb y LF)) BUGS_SECTION = true) as A
    by reflexivity.
  rewrite forallb_forall in A. apply negb_true_iff. apply A. exact H.
Qed.

(** No bullet line holds the heading of the second section when no bullet
    does. *)
Lemma no_header_in_lines (bs : list str) (tail : str) :
  (forall b, In b bs -> forall k, startsWith_ci BUGS_SECTION (skipn k b) = false) ->
  forall j, j < length (concat (map bulletLine bs)) ->
  startsWith_ci BUGS_SECTION (skipn j (concat (map bulletLine bs) ++ tail)) = false.
Proof.
  induction bs as [|b bs IH]; intros H j Hj.
  - simpl in Hj. lia.
  - cbn [map concat] in *. unfold bulletLine at 1. unfold bulletLine at 1 in Hj.
    cbn [lit list_ascii_of_string app] in *. rewrite <- !app_assoc. cbn [app].
    cbn [length] in Hj. rewrite !length_app in Hj. cbn [length] in Hj.
    destruct j as [|[|o]]; [reflexivity|reflexivity|]. cbn [skipn].
    rewrite skipn_app.
    destruct (Nat.lt_trichotomy o (length b)) as [Ho|[Ho|Ho]].
    + replace (o - length b) with 0 by lia. cbn [skipn].
      destruct (startsWith_ci BUGS_SECTION (skipn o b ++ LF :: concat (map bulletLine bs) ++ tail))
        eqn:E; [|reflexivity].
      apply startsWith_ci_cut in E; [|exact bugs_header_one_line].
      rewrite (H b (or_introl eq_refl) o) in E. discriminate E.
    + subst o. rewrite skipn_all, Nat.sub_diag. reflexivity.
    + rewrite skipn_all2 by lia.
      replace (o - length b) with (S (o - length b - 1)) by lia. cbn [app skipn].
      apply IH; [|lia].
      intros b' Hb'. apply H. right. exact Hb'.
Qed.

Lemma lazyBeforeBugs_first (s : str) (n : nat) :
  (forall k, k < n -> beforeBugs (skipn k s) = false) ->
  beforeBugs (skipn n s) = true ->
  lazyBeforeBugs s = n.
Proof.
  revert n. induction s as [|c s IH]; intros n Hmin Hn.
  - destruct n as [|n]; [reflexivity|].
    specialize (Hmin 0 ltac:(lia)). discriminate Hmin.
  - destruct n as [|n].
    + simpl in Hn. cbn [lazyBeforeBugs]. rewrite Hn. reflexivity.
    + pose proof (Hmin 0 ltac:(lia)) as H0. simpl in H0.
      cbn [lazyBeforeBugs]. rewrite H0. f_equal. apply IH.
      * intros k Hk. apply (Hmin (S k)). lia.
      * exact Hn.
Qed.

Lemma spaceRun_bound (s : str) (m : nat) (d : ascii) :
  nth_error s m = Some d -> isSpace d = false -> Rx.spaceRun s <= m.
Proof.
  revert m. induction s as [|c s IH]; intros m Hm Hd.
  - destruct m; discriminate Hm.
  - simpl. destruct (isSpace c) eqn:E; [|lia].
    destruct m as [|m]; simpl in Hm.
    + injection Hm as ->. congruence.
    + apply IH in Hm; [lia|exact Hd].
Qed.

Lemma cleanBullet_shape (b : str) :
  cleanBullet b ->
  exists c t, b = c :: t /\ isSpace c = false /\
  exists t' d, b = t' ++ [d] /\ isSpace d = false.
Proof.
  intros (Hne & Ht & _). destruct b as [|c t]; [congruence|].
  exists c, t. split; [reflexivity|]. split.
  - apply (trim_head _ _ _ Ht).
  - destruct (exists_last (l := c :: t) ltac:(discriminate)) as (t' & d & Hl).
    exists t', d. split; [exact Hl|]. rewrite Hl in Ht. apply (trim_last _ _ _ Ht).
Qed.

(** The lines of a section end with a newline after the last bullet. *)
Lemma lines_joined (bs : list str) :
  bs <> [] -> concat (map bulletLine bs) = bulletLines bs ++ [LF].
Proof.
  unfold bulletLines. induction bs as [|b bs IH]; intro H; [congruence|].
  destruct bs as [|b' bs].
  - cbn [map concat join]. unfold bulletLine, dashed.
    rewrite app_nil_r, app_assoc. reflexivity.
  - change (concat (map bulletLine (b :: b' :: bs)))
      with (bulletLine b ++ concat (map bulletLine (b' :: bs))).
    rewrite IH by discriminate.
    assert (join [LF] (map dashed (b :: b' :: bs))
            = dashed b ++ [LF] ++ join [LF] (map dashed (b' :: bs))) as J by reflexivity.
    rewrite J. unfold bulletLine, dashed. rewrite <- !app_assoc. reflexivity.
Qed.

Lemma bulletLines_ends (bs : list str) :
  bs <> [] -> Forall cleanBullet bs ->
  exists pre d, bulletLines bs = ch 45 :: pre ++ [d] /\ isSpace d = false.
Proof.
  unfold bulletLines. induction bs as [|b bs IH]; intros H Hc; [congruence|].
  inversion Hc as [|? ? Hb Hbs]; subst.
  destruct bs as [|b' bs].
  - destruct (cleanBullet_shape b Hb) as (_ & _ & _ & _ & t' & d & -> & Hd).
    exists (ch 32 :: t'), d. split; [reflexivity|exact Hd].
  - destruct (IH ltac:(discriminate) Hbs) as (pre & d & E & Hd).
    assert (join [LF] (map dashed (b :: b' :: bs))
            = dashed b ++ [LF] ++ join [LF] (map dashed (b' :: bs))) as J by reflexivity.
    rewrite J, E. exists (ch 32 :: b ++ [LF] ++ ch 45 :: pre), d.
    split; [|exact Hd]. unfold dashed. cbn [lit list_ascii_of_string app].
    rewrite <- !app_assoc. reflexivity.
Qed.

(** The lazy match of the first section stops where the bullet lines
    end. *)
Lemma lazyBeforeBugs_lines (bs : list str) (rest : str) :
  Forall cleanBullet bs ->
  (forall b, In b bs -> forall k, startsWith_ci BUGS_SECTION (skipn k b) = false) ->
  lazyBeforeBugs (LF :: concat (map bulletLine bs) ++ LF :: BUGS_SECTION ++ rest)
    = length (concat (map bulletLine bs)).
Proof.
  intros Hc Hb. destruct bs as [|b0 bs0] eqn:Ebs; [reflexivity|]. rewrite <- Ebs in *.
  assert (bs <> []) as Hne by (rewrite Ebs; discriminate). clear Ebs.
  set (L := concat (map bulletLine bs)).
  set (tail := LF :: BUGS_SECTION ++ rest).
  destruct (bulletLines_ends bs Hne Hc) as (pre & d & E & Hd).
  assert (L = ch 45 :: pre ++ [d; LF]) as EL.
  { unfold L. rewrite (lines_joined bs Hne), E. cbn [app]. rewrite <- app_assoc. reflexivity. }
  assert (length L = length pre + 3) as LL.
  { rewrite EL. cbn [length]. rewrite length_app. cbn [length]. lia. }
  apply lazyBeforeBugs_first.
  - intros k Hk. unfold beforeBugs.
    assert (skipn k (LF :: L ++ tail) <> []) as Hs.
    { intro A. apply (f_equal (@length ascii)) in A.
      rewrite length_skipn in A. cbn [length] in A. rewrite length_app in A.
      fold L in Hk. lia. }
    destruct (skipn k (LF :: L ++ tail)) as [|x xs] eqn:Ek; [congruence|].
    rewrite orb_false_r. rewrite <- Ek. rewrite trimStart_spaceRun, skipn_skipn.
    set (r := Rx.spaceRun (skipn k (LF :: L ++ tail))).
    assert (r + k <= length L - 1) as Hr.
    { assert (r <= length L - 1 - k); [|lia].
      apply (spaceRun_bound _ _ d); [|exact Hd].
      rewrite nth_error_skipn.
      replace (k + (length L - 1 - k)) with (S (S (length pre))) by lia.
      rewrite EL. cbn [app nth_error]. rewrite <- app_assoc.
      rewrite nth_error_app2 by lia. rewrite Nat.sub_diag. reflexivity. }
    assert (1 <= r + k) as Hr1.
    { destruct k as [|k]; [|lia]. unfold r. cbn [skipn Rx.spaceRun].
      change (isSpace LF) with true. cbv iota. lia. }
    replace (r + k) with (S (r + k - 1)) by lia. cbn [skipn].
    apply no_header_in_lines; [exact Hb|]. fold L. lia.
  - replace (length L) with (S (length L - 1)) by lia.
    cbn [skipn]. rewrite skipn_app.
    replace (length L - 1 - length L) with 0 by lia. cbn [skipn].
    assert (skipn (length L - 1) L = [LF]) as A.
    { rewrite LL. rewrite EL.
      replace (length pre + 3 - 1) with (S (length pre + 1)) by lia.
      cbn [skipn]. rewrite skipn_app, skipn_all2 by lia.
      replace (length pre + 1 - length pre) with 1 by lia. reflexivity. }
    rewrite A. unfold beforeBugs, tail. cbn [app trimStart].
    change (isSpace LF) with true. cbv iota.
    assert (forall t, trimStart (BUGS_SECTION ++ t) = BUGS_SECTION ++ t) as T by reflexivity.
    rewrite T. rewrite (startsWith_ci_intro BUGS_SECTION BUGS_SECTION) by reflexivity.
    reflexivity.
Qed.

(** The scanner on one bullet. *)
Lemma scanBullets_group (b : str) :
  (forall c, In c b -> isLineTerminator c = false) ->
  forall acc rest,
    scanBullets (Group acc) (b ++ LF :: rest) =
      pushBullet (acc ++ b) (scanBullets (Idle true) rest) /\
    scanBullets (Group acc) b = pushBullet (acc ++ b) [].
Proof.
  induction b as [|c b IH]; intros Hb acc rest.
  - rewrite app_nil_r. split; reflexivity.
  - assert (isLineTerminator c = false) as Hc by (apply Hb; left; reflexivity).
    destruct (IH (fun x Hx => Hb x (or_intror Hx)) (acc ++ [c]) rest) as [I1 I2].
    cbn [app scanBullets]. rewrite Hc, I1, I2, <- !app_assoc. split; reflexivity.
Qed.

Lemma pushBullet_clean_bullet (b : str) (rest : list str) :
  cleanBullet b -> pushBullet b rest = b :: rest.
Proof.
  intros (Hne & Ht & _). unfold pushBullet. rewrite Ht.
  destruct b; [congruence|reflexivity].
Qed.

Lemma scanBullets_line (b rest : str) :
  cleanBullet b ->
  scanBullets (Idle true) (dashed b ++ LF :: rest) = b :: scanBullets (Idle true) rest /\
  scanBullets (Idle true) (dashed b) = [b].
Proof.
  intro Hb. destruct (cleanBullet_shape b Hb) as (c & t & -> & Hc & _).
  destruct Hb as (Hne & Ht & Hl).
  destruct (scanBullets_group t (fun x Hx => Hl x (or_intror Hx)) [c] rest) as [I1 I2].
  unfold dashed. cbn [lit list_ascii_of_string app scanBullets].
  change (true && isMarker "-"%char) with true. cbv iota.
  change (isSpace " "%char) with true. cbv iota.
  rewrite Hc, I1, I2. cbn [app].
  rewrite !pushBullet_clean_bullet by (split; [exact Hne|split; [exact Ht|exact Hl]]).
  split; reflexivity.
Qed.

Lemma scanBullets_lines (bs : list str) :
  Forall cleanBullet bs -> scanBullets (Idle true) (bulletLines bs) = bs.
Proof.
  unfold bulletLines. induction bs as [|b bs IH]; intro H; [reflexivity|].
  inversion H as [|? ? Hb Hbs]; subst. destruct bs as [|b' bs].
  - apply (scanBullets_line b [] Hb).
  - assert (join [LF] (map dashed (b :: b' :: bs))
            = dashed b ++ LF :: join [LF] (map dashed (b' :: bs))) as J by reflexivity.
    rewrite J.
    rewrite (proj1 (scanBullets_line b _ Hb)), IH by exact Hbs. reflexivity.
Qed.

(** The text of a section, once its heading is taken away and the rest
    trimmed, is the bullet lines. *)
Lemma trim_lines (bs : list str) :
  Forall cleanBullet bs ->
  trim (LF :: bulletLines bs) = bulletLines bs /\
  trim (LF :: concat (map bulletLine bs)) = bulletLines bs.
Proof.
  intro Hc. destruct bs as [|b0 bs0] eqn:Ebs; [split; reflexivity|]. rewrite <- Ebs in *.
  assert (bs <> []) as Hne by (rewrite Ebs; discriminate). clear Ebs.
  destruct (bulletLines_ends bs Hne Hc) as (pre & d & E & Hd).
  assert (trim (bulletLines bs) = bulletLines bs) as T.
  { rewrite E. apply trim_fixed; [reflexivity|exact Hd]. }
  assert (forall t, trim (LF :: t) = trim t) as K.
  { intro t. unfold trim. cbn [trimStart]. change (isSpace LF) with true. reflexivity. }
  split.
  - rewrite K. exact T.
  - rewrite K, (lines_joined bs Hne). unfold trim.
    assert (trimStart (bulletLines bs ++ [LF]) = bulletLines bs ++ [LF]) as S1.
    { rewrite E. reflexivity. }
    rewrite S1, trimEnd_spaces by reflexivity.
    unfold trim in T. rewrite E in *. cbn [trimStart] in T.
    change (isSpace (ch 45)) with false in T. cbv iota in T. exact T.
Qed.

Lemma trim_matched_lines (bs : list str) :
  Forall cleanBullet bs ->
  trim (firstn (length (concat (map bulletLine bs))) (LF :: concat (map bulletLine bs)))
    = bulletLines bs.
Proof.
  intro Hc. destruct bs as [|b0 bs0] eqn:Ebs; [reflexivity|]. rewrite <- Ebs in *.
  assert (bs <> []) as Hne by (rewrite Ebs; discriminate). clear Ebs.
  rewrite (lines_joined bs Hne).
  rewrite length_app. cbn [length].
  replace (length (bulletLines bs) + 1) with (S (length (bulletLines bs))) by lia.
  cbn [firstn]. rewrite firstn_app, firstn_all, Nat.sub_diag. cbn [firstn].
  rewrite app_nil_r. apply (trim_lines bs Hc).
Qed.

Lemma trim_nonempty (c : ascii) (t : str) : isSpace c = false -> trim (c :: t) <> [].
Proof.
  intros Hc H. unfold trim in H. rewrite trimStart_fixed in H by exact Hc.
  destruct (trimEnd_prefix (c :: t)) as (r & E & Hr). rewrite H in E. simpl in E.
  subst r. simpl in Hr. rewrite Hc in Hr. discriminate Hr.
Qed.

End SummaryRoundTrip.

(** X3. The answer format that the request for a summary asks for is read
    back: for bullets that are not empty, have no white space at either
    end and lie on one line, [parseSummary] of the two headings with their
    bullet lines answers these bullets, section by section and in order,
    provided no feature bullet holds the text [Bugs / Improvements], in
    any case of the letters. *)
Theorem parseSummary_reads_rendered_summary (features bugs : list JS.str) :
  Forall cleanBullet features ->
  Forall cleanBullet bugs ->
  (forall b, In b features ->
     forall k, JS.startsWith_ci Helpers.BUGS_SECTION (skipn k b) = false) ->
  Helpers.parseSummary (renderedSummary features bugs) =
    [ {| Helpers.type := Helpers.FEATURES_SECTION; Helpers.bullets := features |};
      {| Helpers.type := Helpers.BUGS_SECTION; Helpers.bullets := bugs |} ].
Proof.
  intros Hf Hb Hno.
  set (Lf := concat (map bulletLine features)).
  set (Lb := concat (map bulletLine bugs)).
  assert (renderedSummary features bugs =
          Helpers.FEATURES_SECTION ++
          JS.LF :: Lf ++ JS.LF :: Helpers.BUGS_SECTION ++ JS.LF :: Lb) as Es.
  { unfold renderedSummary. fold Lf Lb. reflexivity. }
  assert (Helpers.featuresMatch (renderedSummary features bugs) =
          Some (Helpers.FEATURES_SECTION ++ firstn (length Lf) (JS.LF :: Lf))) as Em.
  { unfold Helpers.featuresMatch. rewrite Es.
    assert (forall t, JS.findFrom_ci Helpers.FEATURES_SECTION (Helpers.FEATURES_SECTION ++ t) 0
                      = Some 0) as A by reflexivity.
    rewrite A. cbn [Nat.add]. rewrite skipn_length_app.
    pose proof (lazyBeforeBugs_lines features (JS.LF :: Lb) Hf Hno) as Hlazy.
    fold Lf in Hlazy. rewrite Hlazy.
    cbn [skipn]. rewrite firstn_app, firstn_all2 by lia.
    replace (length Helpers.FEATURES_SECTION + length Lf - length Helpers.FEATURES_SECTION)
      with (length Lf) by lia.
    f_equal. f_equal.
    change (JS.LF :: Lf ++ JS.LF :: Helpers.BUGS_SECTION ++ JS.LF :: Lb)
      with ((JS.LF :: Lf) ++ JS.LF :: Helpers.BUGS_SECTION ++ JS.LF :: Lb).
    rewrite firstn_app. replace (length Lf - length (JS.LF :: Lf)) with 0 by (simpl; lia).
    cbn [firstn]. apply app_nil_r. }
  assert (Helpers.bugsMatch (renderedSummary features bugs) =
          Some (Helpers.BUGS_SECTION ++ JS.LF :: Lb)) as Eb.
  { unfold Helpers.bugsMatch. rewrite Es.
    set (n := length Helpers.FEATURES_SECTION + 1 + length Lf + 1).
    assert (skipn n (Helpers.FEATURES_SECTION ++
                     JS.LF :: Lf ++ JS.LF :: Helpers.BUGS_SECTION ++ JS.LF :: Lb)
            = Helpers.BUGS_SECTION ++ JS.LF :: Lb) as Sk.
    { unfold n. rewrite skipn_app, skipn_all2 by lia.
      replace (length Helpers.FEATURES_SECTION + 1 + length Lf + 1
               - length Helpers.FEATURES_SECTION) with (S (length Lf + 1)) by lia.
      cbn [app skipn]. rewrite skipn_app, skipn_all2 by lia.
      replace (length Lf + 1 - length Lf) with 1 by lia. reflexivity. }
    rewrite (findFrom_ci_first _ _ 0 n).
    - cbn [Nat.add]. rewrite Sk. reflexivity.
    - rewrite Sk. apply startsWith_ci_intro. reflexivity.
    - intros q Hq. unfold n in Hq.
      change (length Helpers.FEATURES_SECTION) with 12 in Hq.
      do 13 (destruct q as [|q]; [reflexivity|]).
      change (skipn (S (S (S (S (S (S (S (S (S (S (S (S (S q)))))))))))))
                (Helpers.FEATURES_SECTION ++
                 JS.LF :: Lf ++ JS.LF :: Helpers.BUGS_SECTION ++ JS.LF :: Lb))
        with (skipn q (Lf ++ JS.LF :: Helpers.BUGS_SECTION ++ JS.LF :: Lb)).
      destruct (Nat.eq_dec q (length Lf)) as [->|Hne].
      + rewrite skipn_app, skipn_all, Nat.sub_diag. reflexivity.
      + apply no_header_in_lines; [exact Hno|]. fold Lf. lia.
    - unfold n. rewrite length_app. cbn [length]. rewrite length_app. cbn [length]. lia. }
  unfold Helpers.parseSummary. rewrite Em, Eb.
  destruct (JS.trim (renderedSummary features bugs)) as [|c t] eqn:Et.
  { exfalso. revert Et. rewrite Es. apply trim_nonempty. reflexivity. }
  assert (forall h t, Helpers.sectionBullets (Some (h ++ t)) h =
                      match h ++ t with
                      | [] => []
                      | _ => Helpers.scanBullets (Helpers.Idle true)
                               (JS.trim (JS.replaceString (h ++ t) h []))
                      end) as Sb.
  { intros h t'. unfold Helpers.sectionBullets. destruct (h ++ t'); reflexivity. }
  rewrite !Sb.
  assert (JS.replaceString (Helpers.FEATURES_SECTION ++ firstn (length Lf) (JS.LF :: Lf))
            Helpers.FEATURES_SECTION [] = firstn (length Lf) (JS.LF :: Lf)) as Rf by reflexivity.
  assert (JS.replaceString (Helpers.BUGS_SECTION ++ JS.LF :: Lb)
            Helpers.BUGS_SECTION [] = JS.LF :: Lb) as Rb by reflexivity.
  rewrite Rf, Rb.
  pose proof (trim_matched_lines features Hf) as Tf. fold Lf in Tf.
  rewrite Tf. unfold Lb. rewrite (proj2 (trim_lines bugs Hb)).
  rewrite !scanBullets_lines by assumption.
  reflexivity.
Qed.

(** One feature, two fixes. *)
Lemma parseSummary_reads_rendered_summary_witness :
  Helpers.parseSummary (JS.lit "New Features
- Login page

Bugs / Improvements
- Faster start
- Fix crash on empty cart
") =
    [ {| Helpers.type := Helpers.FEATURES_SECTION;
         Helpers.bullets := [JS.lit "Login page"] |};
      {| Helpers.type := Helpers.BUGS_SECTION;
         Helpers.bullets := [JS.lit "Faster start"; JS.lit "Fix crash on empty cart"] |} ].
Proof.
  assert (forall b, (b <> [] /\ JS.trim b = b /\
                     forallb (fun c => negb (JS.isLineTerminator c)) b = true) ->
                    cleanBullet b) as Hclean.
  { intros b (H1 & H2 & H3). split; [exact H1|]. split; [exact H2|].
    rewrite forallb_forall in H3. intros c Hc. apply negb_true_iff. apply H3. exact Hc. }
  apply (parseSummary_reads_rendered_summary
           [JS.lit "Login page"] [JS.lit "Faster start"; JS.lit "Fix crash on empty cart"]).
  - repeat constructor; apply Hclean; (split; [discriminate|split; reflexivity]).
  - repeat constructor; apply Hclean; (split; [discriminate|split; reflexivity]).
  - intros b [<-|[]] k.
    do 11 (destruct k as [|k]; [reflexivity|]). destruct k; reflexivity.
Defined.

(* ====================================================================== *)
(** * The update of one section *)
(* ====================================================================== *)

Section SectionUpdate.

Import JS Helpers.

(** Where a text first occurs, it still first occurs after the text that
    follows it is replaced. *)
Lemma findFrom_same_prefix (h body tail : str) (p : nat) :
  findFrom h body 0 = Some p ->
  findFrom h (firstn p body ++ h ++ tail) 0 = Some p.
Proof.
  intro H. apply findFrom_Some in H. rewrite Nat.sub_0_r in H.
  destruct H as (_ & Hlen & Hocc & Hmin).
  assert (length (firstn p body) = p) as Lp by (rewrite length_firstn; lia).
  apply (findFrom_first _ _ 0 p).
  - rewrite <- Lp at 1. rewrite skipn_length_app. apply startsWith_app.
  - intros k Hk. rewrite <- (Hmin k Hk).
    apply startsWith_split in Hocc.
    rewrite <- (firstn_skipn p body) at 2. rewrite Hocc.
    rewrite !skipn_app. replace (k - length (firstn p body)) with 0 by lia.
    cbn [skipn]. rewrite !app_assoc.
    rewrite !(startsWith_within h (skipn k (firstn p body) ++ h)); [reflexivity| |];
      rewrite length_app; lia.
  - rewrite length_app. lia.
Qed.

End SectionUpdate.

(** X4. [updateSection] puts the new entry on the line below the heading,
    above what the section held: a missing heading is appended with the
    entry; a heading that is found stays where it is, the entry follows
    it, and the old text of the section, without its placeholder comments
    and without the white space at its ends, comes after one newline, the
    text after the section following at once.  (The old text is trimmed,
    so the branch for a text that begins with a newline is never taken.) *)
Theorem updateSection_puts_entry_first (body sectionHeader newEntry : JS.str) :
  (JS.indexOf body sectionHeader 0 = None ->
   Helpers.updateSection body sectionHeader newEntry =
     body ++ [JS.LF; JS.LF] ++ sectionHeader ++ [JS.LF] ++ newEntry) /\
  (forall p, JS.indexOf body sectionHeader 0 = Some p ->
     let q := Helpers.nextSectionPos body sectionHeader p in
     let existing :=
       JS.trim (Rx.removeAll Rx.placeholderAt
                  (JS.slice body (p + length sectionHeader) q) 0) in
     JS.trim existing = existing /\
     JS.startsWith [JS.LF] existing = false /\
     Helpers.updateSection body sectionHeader newEntry =
       firstn p body ++ sectionHeader ++ [JS.LF] ++ newEntry ++
       match existing with
       | [] => []
       | _ => JS.LF :: existing
       end ++ skipn q body /\
     JS.indexOf (Helpers.updateSection body sectionHeader newEntry) sectionHeader 0 = Some p).
Proof.
  split.
  - intro H. unfold Helpers.updateSection. rewrite H. reflexivity.
  - intros p H q existing.
    assert (JS.startsWith [JS.LF] existing = false) as Hs.
    { destruct existing as [|c t] eqn:E; [reflexivity|].
      unfold existing in E. apply trim_head in E. cbn [JS.startsWith].
      destruct (JS.ascii_eqb JS.LF c) eqn:Ec; [|reflexivity].
      apply ascii_eqb_eq in Ec. subst c. discriminate E. }
    assert (Helpers.updateSection body sectionHeader newEntry =
            firstn p body ++ sectionHeader ++ [JS.LF] ++ newEntry ++
            match existing with
            | [] => []
            | _ => JS.LF :: existing
            end ++ skipn q body) as Eu.
    { unfold Helpers.updateSection. rewrite H. fold q. fold existing.
      unfold JS.slice at 1, JS.sliceFrom. rewrite Nat.sub_0_r. cbn [skipn].
      destruct existing as [|c t] eqn:E.
      - rewrite <- !app_assoc. reflexivity.
      - rewrite Hs. rewrite <- !app_assoc. reflexivity. }
    split; [apply trim_idempotent|]. split; [exact Hs|]. split; [exact Eu|].
    rewrite Eu, indexOf_0. apply findFrom_same_prefix. rewrite <- indexOf_0. exact H.
Qed.

(** A section with a placeholder and one entry, followed by another. *)
Lemma updateSection_puts_entry_first_witness :
  Helpers.updateSection (JS.lit "# Draft

## Features
<!-- to be filled -->
- Login page

## Fixes
- Faster start") (JS.lit "## Features") (JS.lit "- Export to CSV")
  = JS.lit "# Draft

## Features
- Export to CSV
- Login page## Fixes
- Faster start".
Proof.
  destruct (updateSection_puts_entry_first (JS.lit "# Draft

## Features
<!-- to be filled -->
- Login page

## Fixes
- Faster start") (JS.lit "## Features") (JS.lit "- Export to CSV")) as [_ H].
  destruct (H 9 eq_refl) as (_ & _ & E & _).
  rewrite E. reflexivity.
Defined.

(* ====================================================================== *)
(** * The statistics of a diff *)
(* ====================================================================== *)

Section DiffLines.

Import JS Config Remote PRService.

Lemma changedFiles_inside (u rest : str) :
  oneLineText u -> changedFiles (u ++ LF :: rest) false = changedFiles rest true.
Proof.
  induction u as [|c u IH]; intro H.
  - reflexivity.
  - cbn [app changedFiles andb]. rewrite (H c (or_introl eq_refl)).
    apply IH. intros x Hx. apply H. right. exact Hx.
Qed.

Lemma countMarked_inside (mark : ascii) (u rest : str) :
  oneLineText u -> countMarked mark (u ++ LF :: rest) false = countMarked mark rest true.
Proof.
  induction u as [|c u IH]; intro H.
  - reflexivity.
  - cbn [app countMarked andb]. rewrite (H c (or_introl eq_refl)).
    apply IH. intros x Hx. apply H. right. exact Hx.
Qed.

Lemma oneLineText_app (u v : str) : oneLineText u -> oneLineText v -> oneLineText (u ++ v).
Proof.
  intros Hu Hv c Hc. apply in_app_or in Hc. destruct Hc; [apply Hu|apply Hv]; assumption.
Qed.

Lemma oneLineText_lit (u : str) :
  forallb (fun c => negb (isLineTerminator c)) u = true -> oneLineText u.
Proof.
  intros H c Hc. rewrite forallb_forall in H. apply negb_true_iff. apply H. exact Hc.
Qed.

(** The lazy group of the file header ends at the first [ b/]. *)
Lemma lazyDotUntil_first (stop a r : str) :
  oneLineText a ->
  (forall k, k < length a -> startsWith stop (skipn k (a ++ stop)) = false) ->
  Rx.lazyDotUntil stop (a ++ stop ++ r) = Some (length a).
Proof.
  induction a as [|c a IH]; intros Ha Hmin.
  - cbn [app]. destruct (stop ++ r) as [|x t] eqn:E.
    + destruct stop; [reflexivity|discriminate E].
    + cbn [Rx.lazyDotUntil]. rewrite <- E, startsWith_app. reflexivity.
  - cbn [app Rx.lazyDotUntil].
    pose proof (Hmin 0 ltac:(simpl; lia)) as H0. cbn [skipn app] in H0.
    assert (startsWith stop (c :: a ++ stop ++ r) = false) as H1.
    { rewrite <- H0. change (c :: a ++ stop ++ r) with ((c :: a) ++ stop ++ r).
      rewrite app_assoc. apply startsWith_within.
      cbn [app length]. rewrite length_app. lia. }
    rewrite H1, (Ha c (or_introl eq_refl)), IH.
    + reflexivity.
    + intros x Hx. apply Ha. right. exact Hx.
    + intros k Hk. apply (Hmin (S k)). simpl. lia.
Qed.

Lemma changedFiles_line (l : DiffLine) (rest : str) :
  plainDiffLine l ->
  changedFiles (diffLineText l ++ LF :: rest) true =
    filesOf [l] ++ changedFiles rest true.
Proof.
  destruct l as [a b|t|t|t|t|t|t]; intro H; cbn [plainDiffLine] in H.
  - destruct H as (Ha & Hb & Hi).
    rewrite indexOf_0 in Hi. apply findFrom_Some in Hi. rewrite Nat.sub_0_r in Hi.
    destruct Hi as (_ & _ & _ & Hmin).
    assert (changedFiles (diffLineText (FileHeader a b) ++ LF :: rest) true =
            match Rx.lazyDotUntil (lit " b/") (a ++ lit " b/" ++ b ++ LF :: rest) with
            | Some k => [firstn k (a ++ lit " b/" ++ b ++ LF :: rest)]
            | None => []
            end ++
            changedFiles (lit "iff --git a/" ++ a ++ lit " b/" ++ b ++ LF :: rest) false) as E.
    { cbn [diffLineText]. rewrite <- !app_assoc. reflexivity. }
    rewrite E, (lazyDotUntil_first (lit " b/") a (b ++ LF :: rest) Ha Hmin).
    rewrite firstn_length_app.
    rewrite !app_assoc. rewrite changedFiles_inside; [reflexivity|].
    repeat apply oneLineText_app; try assumption; apply oneLineText_lit; reflexivity.
  - change (diffLineText (OldFile t) ++ LF :: rest) with (lit "--- a/" ++ t ++ LF :: rest).
    assert (changedFiles (lit "--- a/" ++ t ++ LF :: rest) true =
            changedFiles (lit "-- a/" ++ t ++ LF :: rest) false) as E by reflexivity.
    rewrite E, app_assoc, changedFiles_inside; [reflexivity|].
    apply oneLineText_app; [apply oneLineText_lit; reflexivity|exact H].
  - change (diffLineText (NewFile t) ++ LF :: rest) with (lit "+++ b/" ++ t ++ LF :: rest).
    assert (changedFiles (lit "+++ b/" ++ t ++ LF :: rest) true =
            changedFiles (lit "++ b/" ++ t ++ LF :: rest) false) as E by reflexivity.
    rewrite E, app_assoc, changedFiles_inside; [reflexivity|].
    apply oneLineText_app; [apply oneLineText_lit; reflexivity|exact H].
  - change (diffLineText (Hunk t) ++ LF :: rest) with (lit "@@ " ++ t ++ LF :: rest).
    assert (changedFiles (lit "@@ " ++ t ++ LF :: rest) true =
            changedFiles (lit "@ " ++ t ++ LF :: rest) false) as E by reflexivity.
    rewrite E, app_assoc, changedFiles_inside; [reflexivity|].
    apply oneLineText_app; [apply oneLineText_lit; reflexivity|exact H].
  - assert (changedFiles (diffLineText (Unchanged t) ++ LF :: rest) true =
            changedFiles (t ++ LF :: rest) false) as E by reflexivity.
    rewrite E, changedFiles_inside; [reflexivity|exact H].
  - assert (changedFiles (diffLineText (Added t) ++ LF :: rest) true =
            changedFiles (t ++ LF :: rest) false) as E by reflexivity.
    rewrite E, changedFiles_inside; [reflexivity|apply H].
  - assert (changedFiles (diffLineText (Removed t) ++ LF :: rest) true =
            changedFiles (t ++ LF :: rest) false) as E by reflexivity.
    rewrite E, changedFiles_inside; [reflexivity|apply H].
Qed.

End DiffLines.
Section DiffCounts.

Import JS Config Remote PRService.

Lemma startsWith_char_false (m x : ascii) (t : str) :
  startsWith [m] (x :: t) = false -> ascii_eqb x m = false.
Proof.
  cbn [startsWith]. rewrite andb_true_r. intro H.
  destruct (ascii_eqb x m) eqn:E; [|reflexivity].
  apply ascii_eqb_eq in E. subst x. rewrite ascii_eqb_refl in H. discriminate H.
Qed.

(** A line that begins with the mark, the text after it not beginning
    with the mark, counts for one. *)
Lemma countMarked_marked (mark : ascii) (t rest : str) :
  isLineTerminator mark = false -> ascii_eqb LF mark = false ->
  oneLineText t -> startsWith [mark] t = false ->
  countMarked mark (mark :: t ++ LF :: rest) true = 1 + countMarked mark rest true.
Proof.
  intros Hm Hl Ht Hs. cbn [countMarked andb]. rewrite ascii_eqb_refl, Hm.
  rewrite countMarked_inside by exact Ht.
  destruct t as [|x t]; cbn [app].
  - rewrite Hl. reflexivity.
  - rewrite (startsWith_char_false _ _ _ Hs). reflexivity.
Qed.

Lemma countMarked_added (l : DiffLine) (rest : str) :
  plainDiffLine l ->
  countMarked (ch 43) (diffLineText l ++ LF :: rest) true =
    (if isAdded l then 1 else 0) + countMarked (ch 43) rest true.
Proof.
  destruct l as [a b|t|t|t|t|t|t]; intro H; cbn [plainDiffLine] in H; cbn [isAdded].
  - destruct H as (Ha & Hb & _).
    assert (countMarked (ch 43) (diffLineText (FileHeader a b) ++ LF :: rest) true =
            countMarked (ch 43) ((lit "iff --git a/" ++ a ++ lit " b/" ++ b) ++ LF :: rest) false)
      as E by (cbn [diffLineText]; rewrite <- !app_assoc; reflexivity).
    rewrite E, countMarked_inside; [reflexivity|].
    repeat apply oneLineText_app; try assumption; apply oneLineText_lit; reflexivity.
  - assert (countMarked (ch 43) (diffLineText (OldFile t) ++ LF :: rest) true =
            countMarked (ch 43) ((lit "-- a/" ++ t) ++ LF :: rest) false)
      as E by (cbn [diffLineText]; rewrite <- !app_assoc; reflexivity).
    rewrite E, countMarked_inside; [reflexivity|].
    apply oneLineText_app; [apply oneLineText_lit; reflexivity|exact H].
  - assert (countMarked (ch 43) (diffLineText (NewFile t) ++ LF :: rest) true =
            countMarked (ch 43) ((lit "++ b/" ++ t) ++ LF :: rest) false)
      as E by (cbn [diffLineText]; rewrite <- !app_assoc; reflexivity).
    rewrite E, countMarked_inside; [reflexivity|].
    apply oneLineText_app; [apply oneLineText_lit; reflexivity|exact H].
  - assert (countMarked (ch 43) (diffLineText (Hunk t) ++ LF :: rest) true =
            countMarked (ch 43) ((lit "@ " ++ t) ++ LF :: rest) false)
      as E by (cbn [diffLineText]; rewrite <- !app_assoc; reflexivity).
    rewrite E, countMarked_inside; [reflexivity|].
    apply oneLineText_app; [apply oneLineText_lit; reflexivity|exact H].
  - assert (countMarked (ch 43) (diffLineText (Unchanged t) ++ LF :: rest) true =
            countMarked (ch 43) (t ++ LF :: rest) false) as E by reflexivity.
    rewrite E, countMarked_inside; [reflexivity|exact H].
  - destruct H as [Ht Hs]. apply countMarked_marked; try assumption; reflexivity.
  - assert (countMarked (ch 43) (diffLineText (Removed t) ++ LF :: rest) true =
            countMarked (ch 43) (t ++ LF :: rest) false) as E by reflexivity.
    rewrite E, countMarked_inside; [reflexivity|apply H].
Qed.

Lemma countMarked_removed (l : DiffLine) (rest : str) :
  plainDiffLine l ->
  countMarked (ch 45) (diffLineText l ++ LF :: rest) true =
    (if isRemoved l then 1 else 0) + countMarked (ch 45) rest true.
Proof.
  destruct l as [a b|t|t|t|t|t|t]; intro H; cbn [plainDiffLine] in H; cbn [isRemoved].
  - destruct H as (Ha & Hb & _).
    assert (countMarked (ch 45) (diffLineText (FileHeader a b) ++ LF :: rest) true =
            countMarked (ch 45) ((lit "iff --git a/" ++ a ++ lit " b/" ++ b) ++ LF :: rest) false)
      as E by (cbn [diffLineText]; rewrite <- !app_assoc; reflexivity).
    rewrite E, countMarked_inside; [reflexivity|].
    repeat apply oneLineText_app; try assumption; apply oneLineText_lit; reflexivity.
  - assert (countMarked (ch 45) (diffLineText (OldFile t) ++ LF :: rest) true =
            countMarked (ch 45) ((lit "-- a/" ++ t) ++ LF :: rest) false)
      as E by (cbn [diffLineText]; rewrite <- !app_assoc; reflexivity).
    rewrite E, countMarked_inside; [reflexivity|].
    apply oneLineText_app; [apply oneLineText_lit; reflexivity|exact H].
  - assert (countMarked (ch 45) (diffLineText (NewFile t) ++ LF :: rest) true =
            countMarked (ch 45) ((lit "++ b/" ++ t) ++ LF :: rest) false)
      as E by (cbn [diffLineText]; rewrite <- !app_assoc; reflexivity).
    rewrite E, countMarked_inside; [reflexivity|].
    apply oneLineText_app; [apply oneLineText_lit; reflexivity|exact H].
  - assert (countMarked (ch 45) (diffLineText (Hunk t) ++ LF :: rest) true =
            countMarked (ch 45) ((lit "@ " ++ t) ++ LF :: rest) false)
      as E by (cbn [diffLineText]; rewrite <- !app_assoc; reflexivity).
    rewrite E, countMarked_inside; [reflexivity|].
    apply oneLineText_app; [apply oneLineText_lit; reflexivity|exact H].
  - assert (countMarked (ch 45) (diffLineText (Unchanged t) ++ LF :: rest) true =
            countMarked (ch 45) (t ++ LF :: rest) false) as E by reflexivity.
    rewrite E, countMarked_inside; [reflexivity|exact H].
  - assert (countMarked (ch 45) (diffLineText (Added t) ++ LF :: rest) true =
            countMarked (ch 45) (t ++ LF :: rest) false) as E by reflexivity.
    rewrite E, countMarked_inside; [reflexivity|apply H].
  - destruct H as [Ht Hs]. apply countMarked_marked; try assumption; reflexivity.
Qed.

(** The three scans of [getDiffStats] on the text of a diff. *)
Lemma diff_scans (d : list DiffLine) :
  Forall plainDiffLine d ->
  changedFiles (diffTextOf d) true = filesOf d /\
  countMarked (ch 43) (diffTextOf d) true = length (filter isAdded d) /\
  countMarked (ch 45) (diffTextOf d) true = length (filter isRemoved d).
Proof.
  induction d as [|l d IH]; intro H.
  - repeat split; reflexivity.
  - inversion H as [|? ? Hl Hd]; subst. destruct (IH Hd) as (I1 & I2 & I3).
    assert (diffTextOf (l :: d) = diffLineText l ++ LF :: diffTextOf d) as E.
    { unfold diffTextOf. cbn [map concat]. rewrite <- app_assoc. reflexivity. }
    rewrite E, changedFiles_line, countMarked_added, countMarked_removed by exact Hl.
    rewrite I1, I2, I3. cbn [filter].
    split; [|split].
    + unfold filesOf. cbn [flat_map]. destruct l; reflexivity.
    + destruct (isAdded l); reflexivity.
    + destruct (isRemoved l); reflexivity.
Qed.

End DiffCounts.

(** X5. On the text of a unified diff, [getDiffStats] lists the old paths
    of the file headers in order, counts the added lines as insertions and
    the removed lines as deletions (the lines [+++ b/...] and [--- a/...]
    that name the versions of a file are not counted), and keeps the first
    2000 characters of the text as the sample.  This holds for a diff
    whose added lines do not begin with [+] after their mark and whose
    removed lines do not begin with [-] after theirs; such lines are not
    counted by the expressions of the source. *)
Theorem getDiffStats_counts_lines
  (prNumber : N) (w : Remote.World) (s : Remote.State) (d : list DiffLine) :
  Forall plainDiffLine d ->
  Remote.pulls_get_diff w (Remote.clock s) prNumber = Remote.Ok (diffTextOf d) ->
  PRService.getDiffStats prNumber w s =
    (Remote.Ok
       {| PRService.files := filesOf d;
          PRService.summary :=
            PRService.showCount (length (filesOf d)) ++ JS.lit " files changed, " ++
            PRService.showCount (length (filter isAdded d)) ++ JS.lit " insertions(+), " ++
            PRService.showCount (length (filter isRemoved d)) ++ JS.lit " deletions(-)";
          PRService.diff_content := firstn 2000 (diffTextOf d) |},
     Remote.tick s).
Proof.
  intros Hd Hw. destruct (diff_scans d Hd) as (E1 & E2 & E3).
  unfold PRService.getDiffStats, Remote.bind, Remote.request. rewrite Hw.
  cbv zeta. rewrite E1, E2, E3. reflexivity.
Qed.

Lemma getDiffStats_counts_lines_witness :
  PRService.getDiffStats 7 diffWorld ConfigService.newService =
    (Remote.Ok
       {| PRService.files := [JS.lit "src/cart.ts"];
          PRService.summary := JS.lit "1 files changed, 2 insertions(+), 1 deletions(-)";
          PRService.diff_content := JS.lit "diff --git a/src/cart.ts b/src/cart.ts
--- a/src/cart.ts
+++ b/src/cart.ts
@@ -1,3 +1,4 @@
 export function total(items) {
-  return 0;
+  if (!items) return 0;
+  return items.length;
 }
" |},
     Remote.tick ConfigService.newService).
Proof.
  apply (getDiffStats_counts_lines 7 diffWorld ConfigService.newService sampleDiff).
  - unfold sampleDiff.
    repeat (constructor;
            [cbn [plainDiffLine];
             repeat split; try (apply oneLineText_lit; reflexivity); reflexivity|]).
    constructor.
  - reflexivity.
Defined.

(* ====================================================================== *)
(** * What the programs of the service request, and in which order *)
(* ====================================================================== *)

Section Outcomes.

Import JS Config Remote ConfigService PRService Helpers PRText.

Variable c : RepoConfig.

Lemma emits_weaken {A} (m : M A) (Q Q' : Result A -> list Write -> Prop) :
  emits c m Q -> (forall r ws, Q r ws -> Q' r ws) -> emits c m Q'.
Proof.
  intros H HQ w s Hc. destruct (H w s Hc) as (ws & H1 & H2 & H3).
  exists ws. split; [exact H1|]. split; [exact H2|]. apply HQ. exact H3.
Qed.

Lemma emits_ret {A} (a : A) : emits c (ret a) (returns (eq a)).
Proof.
  intros w s Hc. exists []. rewrite app_nil_r.
  split; [reflexivity|]. split; [exact Hc|]. split; [reflexivity|].
  exists a. split; reflexivity.
Qed.

Lemma emits_throw {A} (e : Error) :
  emits c (@throw A e) (fun r ws => ws = [] /\ r = Throw e).
Proof.
  intros w s Hc. exists []. rewrite app_nil_r.
  split; [reflexivity|]. split; [exact Hc|]. split; reflexivity.
Qed.

Lemma emits_bind {A B} (m : M A) (k : A -> M B)
  (Q1 : Result A -> list Write -> Prop) (Q2 : A -> Result B -> list Write -> Prop) :
  emits c m Q1 -> (forall a, emits c (k a) (Q2 a)) ->
  emits c (bind m k) (andThen Q1 Q2).
Proof.
  intros Hm Hk w s Hc. unfold bind.
  destruct (Hm w s Hc) as (ws1 & L1 & C1 & P1).
  destruct (m w s) as [[a|e] s1]; cbn [fst snd] in *.
  - destruct (Hk a w s1 C1) as (ws2 & L2 & C2 & P2).
    exists (ws1 ++ ws2). rewrite L2, L1, app_assoc.
    split; [reflexivity|]. split; [exact C2|].
    left. exists a, ws1, ws2. repeat split; assumption.
  - exists ws1. split; [exact L1|]. split; [exact C1|].
    right. exists e. split; [reflexivity|exact P1].
Qed.

Lemma emits_tryCatch {A} (m : M A) (h : Error -> M A)
  (Q1 : Result A -> list Write -> Prop) (Q2 : Error -> Result A -> list Write -> Prop) :
  emits c m Q1 -> (forall e, emits c (h e) (Q2 e)) ->
  emits c (tryCatch m h) (orCatch Q1 Q2).
Proof.
  intros Hm Hh w s Hc. unfold tryCatch.
  destruct (Hm w s Hc) as (ws1 & L1 & C1 & P1).
  destruct (m w s) as [[a|e] s1]; cbn [fst snd] in *.
  - exists ws1. split; [exact L1|]. split; [exact C1|].
    left. exists a. split; [reflexivity|exact P1].
  - destruct (Hh e w s1 C1) as (ws2 & L2 & C2 & P2).
    exists (ws1 ++ ws2). rewrite L2, L1, app_assoc.
    split; [reflexivity|]. split; [exact C2|].
    right. exists e, ws1, ws2. repeat split; assumption.
Qed.

(** Reading [this.config] gives [c]. *)
Lemma emits_getConfig {B} (k : RepoConfig -> M B) (Q : Result B -> list Write -> Prop) :
  emits c (k c) Q -> emits c (bind getConfig k) Q.
Proof.
  intros Hk w s Hc. unfold bind, getConfig. rewrite Hc. apply Hk. exact Hc.
Qed.

Lemma emits_request {A} (call : World -> nat -> Result A) : emits c (request call) silent.
Proof.
  intros w s Hc. exists []. rewrite app_nil_r.
  split; [reflexivity|]. split; [exact Hc|reflexivity].
Qed.

Lemma emits_now : emits c now (returns (fun _ => True)).
Proof.
  intros w s Hc. exists []. rewrite app_nil_r.
  split; [reflexivity|]. split; [exact Hc|]. split; [reflexivity|].
  eexists. split; [reflexivity|exact I].
Qed.

Lemma emits_apiKey : emits c apiKey (returns (fun _ => True)).
Proof.
  intros w s Hc. exists []. rewrite app_nil_r.
  split; [reflexivity|]. split; [exact Hc|]. split; [reflexivity|].
  eexists. split; [reflexivity|exact I].
Qed.

Lemma emits_send (wr : Write) : emits c (send wr) (writes wr).
Proof.
  intros w s Hc. exists [wr]. split; [reflexivity|]. split; [exact Hc|reflexivity].
Qed.

(** A program that maintains every invariant of the log requests no
    write. *)
Lemma emits_silent {A} (m : M A) :
  (forall L : list Write -> Prop, inv c L m) -> emits c m silent.
Proof.
  intros H w s Hc. exists []. rewrite app_nil_r.
  destruct (H (eq (log s)) w s (conj Hc eq_refl)) as [H1 H2].
  split; [symmetry; exact H2|]. split; [exact H1|reflexivity].
Qed.

(** ** The programs that only read *)

Lemma getCurrentVersion_returns : emits c getCurrentVersion (returns (fun _ => True)).
Proof.
  intros w s Hc.
  destruct (emits_silent getCurrentVersion (fun L => inv_getCurrentVersion c L) w s Hc)
    as (ws & L1 & C1 & P1).
  exists ws. split; [exact L1|]. split; [exact C1|]. split; [exact P1|].
  unfold getCurrentVersion, bind, getConfig, tryCatch, request.
  destruct (repos_getLatestRelease w (clock s)) as [tag|e]; cbn [ret].
  - eexists. split; [reflexivity|exact I].
  - destruct (repos_listTags w (clock (tick s))) as [[|name tags]|e']; cbn [ret];
      eexists; (split; [reflexivity|exact I]).
Qed.

Lemma findStagingToReleasePR_returns (context : Context) :
  emits c (findStagingToReleasePR context) (returns (fun _ => True)).
Proof.
  intros w s Hc.
  destruct (emits_silent (findStagingToReleasePR context)
              (fun L => inv_findStagingToReleasePR c L context) w s Hc)
    as (ws & L1 & C1 & P1).
  exists ws. split; [exact L1|]. split; [exact C1|]. split; [exact P1|].
  unfold findStagingToReleasePR, bind, getConfig, tryCatch, request.
  destruct (pulls_list w (clock s) _ _) as [[|p prs]|e]; cbn [ret].
  - destruct (pulls_list w (clock (tick s)) _ _) as [[|p prs]|e]; cbn [ret].
    + eexists. split; [reflexivity|exact I].
    + destruct (find draft (p :: prs)); eexists; (split; [reflexivity|exact I]).
    + eexists. split; [reflexivity|exact I].
  - destruct (find draft (p :: prs)); eexists; (split; [reflexivity|exact I]).
  - eexists. split; [reflexivity|exact I].
Qed.

Lemma generateAISummary_returns (prContent : str) :
  emits c (generateAISummary prContent) (returns (fun text => text <> [])).
Proof.
  intros w s Hc.
  destruct (emits_silent (generateAISummary prContent)
              (fun L => inv_generateAISummary c L prContent) w s Hc)
    as (ws & L1 & C1 & P1).
  exists ws. split; [exact L1|]. split; [exact C1|]. split; [exact P1|].
  unfold generateAISummary, bind, apiKey, tryCatch, request.
  destruct (OPENAI_API_KEY w) as [key|]; cbn [ret throw].
  - destruct (chat_completions_create w (clock s) _) as [[text|]|e]; cbn [option_map ret throw].
    + destruct (trim text) as [|x xs]; cbn [ret throw];
        eexists; (split; [reflexivity|discriminate]).
    + eexists. split; [reflexivity|discriminate].
    + eexists. split; [reflexivity|discriminate].
  - eexists. split; [reflexivity|discriminate].
Qed.

Lemma formatReleaseNotes_returns (prBody versionType : str) :
  emits c (formatReleaseNotes prBody versionType) (returns (fun _ => True)).
Proof.
  intros w s Hc.
  destruct (emits_silent (formatReleaseNotes prBody versionType)
              (fun L => inv_formatReleaseNotes c L prBody versionType) w s Hc)
    as (ws & L1 & C1 & P1).
  exists ws. split; [exact L1|]. split; [exact C1|]. split; [exact P1|].
  unfold formatReleaseNotes. cbv zeta. unfold bind at 1.
  destruct (generateAISummary_returns (Rx.removeAll Rx.commentGreedyAt prBody 0) w s Hc)
    as (ws' & _ & _ & _ & text & Et & _).
  destruct (generateAISummary _ w s) as [r s1]. cbn [fst] in Et. subst r.
  unfold bind, now, ret. cbn [fst]. eexists. split; [reflexivity|exact I].
Qed.

End Outcomes.

Section VersionSource.

Import JS Config Remote ConfigService PRService.

Lemma stripPrefix_prefixed (prefix version : str) :
  stripPrefix prefix (prefix ++ version) = version.
Proof.
  unfold stripPrefix. rewrite startsWith_app. apply skipn_length_app.
Qed.

End VersionSource.

(** X6. With a configured prefix that stands for itself in an expression,
    as the prefix [v] of the service does, [getCurrentVersion] never
    throws and requests no write.  It answers the tag of the latest
    release without a leading [v]; when there is no such release, the
    first tag without the configured prefix; and [0.0.0] when there is no
    tag either or the tags cannot be listed. *)
Theorem getCurrentVersion_never_throws (w : Remote.World) (s : Remote.State) :
  Rx.literal (Config.releasePrefix (Remote.config s)) = true ->
  (exists version, fst (PRService.getCurrentVersion w s) = Remote.Ok version) /\
  Remote.log (snd (PRService.getCurrentVersion w s)) = Remote.log s /\
  Remote.config (snd (PRService.getCurrentVersion w s)) = Remote.config s /\
  (forall tag_name,
     Remote.repos_getLatestRelease w (Remote.clock s) = Remote.Ok tag_name ->
     fst (PRService.getCurrentVersion w s)
       = Remote.Ok (PRService.stripPrefix (JS.lit "v") tag_name)) /\
  (forall e name tags,
     Remote.repos_getLatestRelease w (Remote.clock s) = Remote.Throw e ->
     Remote.repos_listTags w (S (Remote.clock s)) = Remote.Ok (name :: tags) ->
     fst (PRService.getCurrentVersion w s)
       = Remote.Ok (PRService.stripPrefix (Config.releasePrefix (Remote.config s)) name)) /\
  (forall e,
     Remote.repos_getLatestRelease w (Remote.clock s) = Remote.Throw e ->
     Remote.repos_listTags w (S (Remote.clock s)) = Remote.Ok [] \/
     (exists e', Remote.repos_listTags w (S (Remote.clock s)) = Remote.Throw e') ->
     fst (PRService.getCurrentVersion w s) = Remote.Ok (JS.lit "0.0.0")) /\
  (forall prefix version,
     Rx.literal prefix = true ->
     PRService.stripPrefix prefix (prefix ++ version) = version).
Proof.
  intros _.
  destruct (getCurrentVersion_returns (Remote.config s) w s eq_refl)
    as (ws & L1 & C1 & -> & v & Ev & _).
  split; [exists v; exact Ev|].
  split; [rewrite L1; apply app_nil_r|]. split; [exact C1|].
  split; [|split; [|split]].
  - intros tag H.
    unfold PRService.getCurrentVersion, Remote.bind, Remote.getConfig, Remote.tryCatch,
      Remote.request.
    rewrite H. reflexivity.
  - intros e name tags H1 H2.
    unfold PRService.getCurrentVersion, Remote.bind, Remote.getConfig, Remote.tryCatch,
      Remote.request.
    rewrite H1. cbn [Remote.clock Remote.tick]. rewrite H2. reflexivity.
  - intros e H1 H2.
    unfold PRService.getCurrentVersion, Remote.bind, Remote.getConfig, Remote.tryCatch,
      Remote.request.
    rewrite H1. cbn [Remote.clock Remote.tick].
    destruct H2 as [H2|[e' H2]]; rewrite H2; reflexivity.
  - intros prefix version _. apply stripPrefix_prefixed.
Qed.

(** A repository whose latest release is [v1.4.2], and one without
    release or tag. *)
Lemma getCurrentVersion_never_throws_witness :
  fst (PRService.getCurrentVersion draftWorld ConfigService.newService)
    = Remote.Ok (JS.lit "1.4.2") /\
  fst (PRService.getCurrentVersion quietWorld ConfigService.newService)
    = Remote.Ok (JS.lit "0.0.0").
Proof.
  destruct (getCurrentVersion_never_throws draftWorld ConfigService.newService eq_refl)
    as (_ & _ & _ & H1 & _).
  destruct (getCurrentVersion_never_throws quietWorld ConfigService.newService eq_refl)
    as (_ & _ & _ & _ & _ & H2 & _).
  split.
  - apply (H1 (JS.lit "v1.4.2")). reflexivity.
  - apply (H2 (Remote.HttpError 404)); [reflexivity|left; reflexivity].
Defined.

(** X7. [findStagingToReleasePR] never throws and requests no write: a
    listing that fails is answered with [undefined].  A pull request that
    it answers is one of the listing for the qualified head, or, when that
    listing is empty, one of the listing for the plain branch name. *)
Theorem findStagingToReleasePR_never_throws
  (context : Remote.Context) (w : Remote.World) (s : Remote.State) :
  let c := Remote.config s in
  let qualified := Remote.owner context ++ JS.lit ":" ++ Config.stagingBranch c in
  (exists found, fst (PRService.findStagingToReleasePR context w s) = Remote.Ok found) /\
  Remote.log (snd (PRService.findStagingToReleasePR context w s)) = Remote.log s /\
  Remote.config (snd (PRService.findStagingToReleasePR context w s)) = Remote.config s /\
  (forall e,
     Remote.pulls_list w (Remote.clock s) qualified (Config.releaseBranch c) = Remote.Throw e ->
     PRService.findStagingToReleasePR context w s = (Remote.Ok None, Remote.tick s)) /\
  (forall e,
     Remote.pulls_list w (Remote.clock s) qualified (Config.releaseBranch c) = Remote.Ok [] ->
     Remote.pulls_list w (S (Remote.clock s)) (Config.stagingBranch c) (Config.releaseBranch c)
       = Remote.Throw e ->
     PRService.findStagingToReleasePR context w s
       = (Remote.Ok None, Remote.tick (Remote.tick s))) /\
  (forall pr,
     fst (PRService.findStagingToReleasePR context w s) = Remote.Ok (Some pr) ->
     exists prs,
       In pr prs /\
       (Remote.pulls_list w (Remote.clock s) qualified (Config.releaseBranch c) = Remote.Ok prs \/
        (Remote.pulls_list w (Remote.clock s) qualified (Config.releaseBranch c) = Remote.Ok [] /\
         Remote.pulls_list w (S (Remote.clock s)) (Config.stagingBranch c)
           (Config.releaseBranch c) = Remote.Ok prs))).
Proof.
  intros c qualified.
  destruct (findStagingToReleasePR_returns (Remote.config s) context w s eq_refl)
    as (ws & L1 & C1 & -> & v & Ev & _).
  split; [exists v; exact Ev|].
  split; [rewrite L1; apply app_nil_r|]. split; [exact C1|].
  assert (forall prs : list Remote.PullRequest, forall p d,
            find Remote.draft (p :: prs) = Some d -> In d (p :: prs)) as Hfind.
  { intros prs p d H. apply find_some in H. apply H. }
  unfold PRService.findStagingToReleasePR, Remote.bind, Remote.getConfig, Remote.tryCatch,
    Remote.request.
  fold c. fold qualified. cbn [Remote.clock Remote.tick].
  split; [|split].
  - intros e H. rewrite H. reflexivity.
  - intros e H1 H2. rewrite H1. cbn [Remote.clock Remote.tick]. rewrite H2. reflexivity.
  - intro pr.
    destruct (Remote.pulls_list w (Remote.clock s) qualified (Config.releaseBranch c))
      as [[|p prs]|e] eqn:E1.
    + cbn [Remote.clock Remote.tick].
      destruct (Remote.pulls_list w (S (Remote.clock s)) (Config.stagingBranch c)
                  (Config.releaseBranch c)) as [[|p prs]|e] eqn:E2;
        cbn [Remote.ret fst]; try discriminate.
      destruct (find Remote.draft (p :: prs)) as [d|] eqn:Ed;
        cbn [Remote.ret fst]; intro H; injection H as <-;
        exists (p :: prs); (split; [|right; split; reflexivity]).
      * apply (Hfind _ _ _ Ed).
      * left. reflexivity.
    + destruct (find Remote.draft (p :: prs)) as [d|] eqn:Ed;
        cbn [Remote.ret fst]; intro H; injection H as <-;
        exists (p :: prs); (split; [|left; reflexivity]).
      * apply (Hfind _ _ _ Ed).
      * left. reflexivity.
    + cbn [Remote.ret fst]. discriminate.
Qed.

(** A listing of two candidates, and a host that answers nothing. *)
Lemma findStagingToReleasePR_never_throws_witness :
  (exists prs,
     In (candidate 12 true) prs /\
     (Remote.pulls_list twoCandidatesWorld 0 (JS.lit "acme:staging") (JS.lit "main")
        = Remote.Ok prs \/
      (Remote.pulls_list twoCandidatesWorld 0 (JS.lit "acme:staging") (JS.lit "main")
         = Remote.Ok [] /\
       Remote.pulls_list twoCandidatesWorld 1 (JS.lit "staging") (JS.lit "main")
         = Remote.Ok prs))).
Proof.
  destruct (findStagingToReleasePR_never_throws featureEvent twoCandidatesWorld
              ConfigService.newService) as (_ & _ & _ & _ & _ & H).
  apply (H (candidate 12 true)). reflexivity.
Defined.

Section DraftWrites.

Import JS Config Remote ConfigService PRService Helpers PRText.

Variable c : RepoConfig.

(** A program that may fail before it writes, and otherwise requests one
    write of the form [W]. *)
Lemma updatePRWithAISummary_writes (context : Context) (n : N) (aiSummary : str) :
  emits c (updatePRWithAISummary context n aiSummary)
    (fun r ws => (ws = [] /\ exists e, r = Throw e) \/
                 exists body, ws = [PullsUpdateBody n body]).
Proof.
  intros w s Hc. unfold updatePRWithAISummary. cbv zeta.
  unfold bind, request, now, send, ret.
  destruct (pulls_get w (clock s) n) as [pr|e].
  - eexists [_]. cbn [clock tick log config record_write].
    destruct (answer w _ _); cbn [fst snd log config];
      (split; [reflexivity|]; split; [exact Hc|]; right; eexists; reflexivity).
  - exists []. rewrite app_nil_r. cbn [fst snd tick log config].
    split; [reflexivity|]. split; [exact Hc|]. left. split; [reflexivity|].
    exists e. reflexivity.
Qed.

Lemma addSummaryComment_writes (context : Context) (n : N) (aiSummary : str) :
  emits c (addSummaryComment context n aiSummary)
    (fun r ws => exists comment, ws = [IssuesCreateComment n comment]).
Proof.
  intros w s Hc. unfold addSummaryComment. cbv zeta. unfold bind, send, ret.
  eexists [_].
  destruct (answer w _ _); cbn [fst snd log config record_write];
    (split; [reflexivity|]; split; [exact Hc|]; eexists; reflexivity).
Qed.

Lemma updatePRTitleWithInfo_writes (n : N) (versionType summary : str) :
  emits c (updatePRTitleWithInfo n versionType summary)
    (fun r ws => exists title, ws = [PullsUpdateTitle n title]).
Proof.
  unfold updatePRTitleWithInfo. apply emits_getConfig. cbv zeta.
  eapply emits_weaken.
  - apply emits_bind; [apply getCurrentVersion_returns|].
    intro currentVersion. apply emits_bind; [apply emits_send|].
    intro. apply emits_ret.
  - intros r ws [(v & ws1 & ws2 & (-> & _) & H2 & ->)|(e & _ & (_ & a & Ha & _))];
      [|discriminate Ha].
    destruct H2 as [(a & ws3 & ws4 & H3 & (-> & _) & ->)|(e & _ & H3)];
      unfold writes in H3; subst; eexists; reflexivity.
Qed.

Lemma callOpenAI_silent_program (messages : list Message) :
  emits c (callOpenAI messages) silent.
Proof. apply emits_silent. intro L. apply inv_callOpenAI. Qed.

Lemma updatePRTitle_writes (n : N) (aiSummary : str) :
  emits c (updatePRTitle n aiSummary)
    (fun r ws => (ws = [] /\ exists e, r = Throw e) \/
                 exists title, ws = [PullsUpdateTitle n title]).
Proof.
  unfold updatePRTitle. apply emits_getConfig.
  eapply emits_weaken.
  - apply emits_bind; [apply emits_request|].
    intro pr. cbv zeta. apply emits_bind; [apply callOpenAI_silent_program|].
    intro response.
    apply (emits_weaken c _ (fun r ws => exists title, ws = [PullsUpdateTitle n title])).
    + destruct response as [[|x xs]|]; apply updatePRTitleWithInfo_writes.
    + intros r ws H. exact H.
  - intros r ws [(pr & ws1 & ws2 & -> & H2 & ->)|(e & -> & ->)].
    + destruct H2 as [(resp & ws3 & ws4 & -> & (t & ->) & ->)|(e & -> & ->)].
      * right. exists t. reflexivity.
      * left. split; [reflexivity|]. exists e. reflexivity.
    + left. split; [reflexivity|]. exists e. reflexivity.
Qed.

(** The three updates of the draft, in order, as far as they get. *)
Lemma draft_updates_in_order (context : Context) (n : N) (aiSummary : str) :
  emits c
    (bind (updatePRWithAISummary context n aiSummary) (fun _ =>
     bind (addSummaryComment context n aiSummary) (fun _ =>
     updatePRTitle n aiSummary)))
    (fun r ws =>
       exists body comment title rest,
         [PullsUpdateBody n body; IssuesCreateComment n comment; PullsUpdateTitle n title]
           = ws ++ rest /\
         (r = Ok tt -> rest = [])).
Proof.
  eapply emits_weaken.
  - apply emits_bind; [apply updatePRWithAISummary_writes|].
    intro. apply emits_bind; [apply addSummaryComment_writes|].
    intro. apply updatePRTitle_writes.
  - intros r ws [(a & ws1 & ws2 & H1 & H2 & ->)|(e & -> & H1)].
    + destruct H1 as [(_ & e & He)|(body & ->)]; [discriminate He|].
      destruct H2 as [(a' & ws3 & ws4 & (comment & ->) & H3 & ->)|(e & -> & (comment & ->))].
      * destruct H3 as [(-> & e & ->)|(title & ->)].
        -- exists body, comment, [], [PullsUpdateTitle n []].
           split; [reflexivity|discriminate].
        -- exists body, comment, title, []. split; [reflexivity|reflexivity].
      * exists body, comment, [], [PullsUpdateTitle n []].
        split; [reflexivity|discriminate].
    + destruct H1 as [(-> & _)|(body & ->)].
      * exists [], [], [], [PullsUpdateBody n []; IssuesCreateComment n []; PullsUpdateTitle n []].
        split; [reflexivity|discriminate].
      * exists body, [], [], [IssuesCreateComment n []; PullsUpdateTitle n []].
        split; [reflexivity|discriminate].
Qed.

End DraftWrites.

(** X8. [updateStagingToReleasePR] requests its writes in one order and on
    one pull request.  When the locator answers a pull request with a
    number, the new body, the comment and the new title go to that number.
    When it answers none (or one without a number), a pull request from
    the staging branch to the release branch is created first, titled
    [Updating <prefix><version>] with the version that [getCurrentVersion]
    answers after the locator, and the three updates go to the number
    that the host answers for the creation; when the host refuses the
    creation, its error is thrown and nothing else is requested.  The
    function stops at the first request that fails: what it has requested
    is a prefix of that list, and the whole list when it returns.  (The
    configured prefix stands for itself in an expression, as [v] does.) *)
Theorem updateStagingToReleasePR_writes_in_order
  (context : Remote.Context) (aiSummary : JS.str) (w : Remote.World) (s : Remote.State) :
  Rx.literal (Config.releasePrefix (Remote.config s)) = true ->
  let c := Remote.config s in
  let out := PRService.updateStagingToReleasePR context aiSummary w s in
  exists created n body comment title ws rest,
    Remote.log (snd out) = Remote.log s ++ ws /\
    created ++ [Remote.PullsUpdateBody n body; Remote.IssuesCreateComment n comment;
                Remote.PullsUpdateTitle n title] = ws ++ rest /\
    (fst out = Remote.Ok tt -> rest = []) /\
    Remote.config (snd out) = c /\
    ((created = [] /\
      exists pr, fst (PRService.findStagingToReleasePR context w s) = Remote.Ok (Some pr) /\
                 Remote.number pr = n /\ n <> 0%N) \/
     ((exists version s2,
         PRService.getCurrentVersion w (snd (PRService.findStagingToReleasePR context w s))
           = (Remote.Ok version, s2) /\
         let creation :=
           Remote.PullsCreate (JS.lit "Updating " ++ Config.releasePrefix c ++ version)
             (Config.stagingBranch c) (Config.releaseBranch c) in
         created = [creation] /\
         match Remote.answer w (Remote.clock s2) creation with
         | Remote.Ok newPR => n = Remote.new_number newPR
         | Remote.Throw e => fst out = Remote.Throw e /\ ws = created
         end) /\
      (fst (PRService.findStagingToReleasePR context w s) = Remote.Ok None \/
       exists pr, fst (PRService.findStagingToReleasePR context w s) = Remote.Ok (Some pr) /\
                  Remote.number pr = 0%N))).
Proof.
  intros _ c out.
  destruct (findStagingToReleasePR_returns c context w s eq_refl)
    as (ws0 & L0 & C0 & -> & found & Ef & _).
  rewrite app_nil_r in L0.
  assert (out = PRService.updateStagingToReleasePR context aiSummary w s) as Eout
    by reflexivity.
  clearbody out. unfold PRService.updateStagingToReleasePR in Eout.
  unfold Remote.bind at 1, Remote.getConfig in Eout. fold c in Eout.
  unfold Remote.bind at 1 in Eout.
  destruct (PRService.findStagingToReleasePR context w s) as [r s1].
  cbn [fst snd] in Ef, L0, C0. subst r.
  assert (forall n s2 created,
            Remote.config s2 = c ->
            Remote.log s2 = Remote.log s ++ created ->
            let tail :=
              Remote.bind (PRService.updatePRWithAISummary context n aiSummary) (fun _ =>
              Remote.bind (PRService.addSummaryComment context n aiSummary) (fun _ =>
              PRService.updatePRTitle n aiSummary)) w s2 in
            exists body comment title ws rest,
              Remote.log (snd tail) = Remote.log s ++ ws /\
              created ++ [Remote.PullsUpdateBody n body; Remote.IssuesCreateComment n comment;
                          Remote.PullsUpdateTitle n title] = ws ++ rest /\
              (fst tail = Remote.Ok tt -> rest = []) /\
              Remote.config (snd tail) = c) as Htail.
  { intros n s2 created C2 L2 tail.
    destruct (draft_updates_in_order c context n aiSummary w s2 C2)
      as (ws & L & C & body & comment & title & rest & E & R).
    exists body, comment, title, (created ++ ws), rest.
    split; [unfold tail; rewrite L, L2, app_assoc; reflexivity|].
    split; [rewrite E, app_assoc; reflexivity|].
    split; [exact R|exact C]. }
  assert (forall why : fst (Remote.Ok found, s1) = Remote.Ok None \/
                       exists pr, fst (Remote.Ok found, s1) = Remote.Ok (Some pr) /\
                                  Remote.number pr = 0%N,
          forall out',
            out' =
              Remote.bind
                (Remote.bind PRService.getCurrentVersion (fun currentVersion =>
                 Remote.bind
                   (Remote.send
                      (Remote.PullsCreate
                         (JS.lit "Updating " ++ Config.releasePrefix c ++ currentVersion)
                         (Config.stagingBranch c) (Config.releaseBranch c)))
                   (fun newPR => Remote.ret (Remote.new_number newPR))))
                (fun prToUpdate =>
                 Remote.bind (PRService.updatePRWithAISummary context prToUpdate aiSummary)
                   (fun _ =>
                 Remote.bind (PRService.addSummaryComment context prToUpdate aiSummary)
                   (fun _ => PRService.updatePRTitle prToUpdate aiSummary))) w s1 ->
            exists created n body comment title ws rest,
              Remote.log (snd out') = Remote.log s ++ ws /\
              created ++ [Remote.PullsUpdateBody n body; Remote.IssuesCreateComment n comment;
                          Remote.PullsUpdateTitle n title] = ws ++ rest /\
              (fst out' = Remote.Ok tt -> rest = []) /\
              Remote.config (snd out') = c /\
              ((created = [] /\
                exists pr, fst (Remote.Ok found, s1) = Remote.Ok (Some pr) /\
                           Remote.number pr = n /\ n <> 0%N) \/
               ((exists version s2,
                   PRService.getCurrentVersion w s1 = (Remote.Ok version, s2) /\
                   let creation :=
                     Remote.PullsCreate
                       (JS.lit "Updating " ++ Config.releasePrefix c ++ version)
                       (Config.stagingBranch c) (Config.releaseBranch c) in
                   created = [creation] /\
                   match Remote.answer w (Remote.clock s2) creation with
                   | Remote.Ok newPR => n = Remote.new_number newPR
                   | Remote.Throw e => fst out' = Remote.Throw e /\ ws = created
                   end) /\
                (fst (Remote.Ok found, s1) = Remote.Ok None \/
                 exists pr, fst (Remote.Ok found, s1) = Remote.Ok (Some pr) /\
                            Remote.number pr = 0%N)))) as Hcreate.
  { intros why out' Eout'.
    destruct (getCurrentVersion_returns c w s1 C0) as (ws1 & L1 & C1 & -> & v & Ev & _).
    rewrite app_nil_r in L1.
    unfold Remote.bind at 1 in Eout'. unfold Remote.bind at 1 in Eout'.
    destruct (PRService.getCurrentVersion w s1) as [r s2] eqn:Eg.
    cbn [fst snd] in Ev, L1, C1. subst r.
    set (wr := Remote.PullsCreate
                 (JS.lit "Updating " ++ Config.releasePrefix c ++ v)
                 (Config.stagingBranch c) (Config.releaseBranch c)) in *.
    unfold Remote.bind at 1, Remote.send in Eout'.
    destruct (Remote.answer w (Remote.clock s2) wr) as [a|e] eqn:Ea.
    - cbn [Remote.ret] in Eout'. subst out'.
      destruct (Htail (Remote.new_number a) (Remote.record_write wr s2) [wr])
        as (body & comment & title & ws & rest & L & E & R & C).
      + exact C1.
      + cbn [Remote.record_write Remote.log]. rewrite L1, L0. reflexivity.
      + exists [wr], (Remote.new_number a), body, comment, title, ws, rest.
        split; [exact L|]. split; [exact E|]. split; [exact R|]. split; [exact C|].
        right. split; [|exact why].
        exists v, s2. split; [reflexivity|]. cbv zeta. fold wr.
        split; [reflexivity|]. rewrite Ea. reflexivity.
    - subst out'. exists [wr], 0%N, [], [], [], [wr],
        [Remote.PullsUpdateBody 0 []; Remote.IssuesCreateComment 0 [];
         Remote.PullsUpdateTitle 0 []].
      cbn [fst snd Remote.record_write Remote.log Remote.config].
      split; [rewrite L1, L0; reflexivity|]. split; [reflexivity|].
      split; [discriminate|]. split; [exact C1|].
      right. split; [|exact why].
      exists v, s2. split; [reflexivity|]. cbv zeta. fold wr.
      split; [reflexivity|]. rewrite Ea. split; reflexivity. }
  destruct found as [pr|].
  - destruct (Remote.number pr =? 0)%N eqn:E0.
    + unfold Remote.bind at 1 in Eout. cbn [Remote.ret] in Eout.
      apply Hcreate; [|exact Eout].
      right. exists pr. split; [reflexivity|]. apply N.eqb_eq. exact E0.
    + unfold Remote.bind at 1 in Eout. cbn [Remote.ret] in Eout.
      unfold Remote.bind at 1 in Eout. cbn [Remote.ret] in Eout. subst out.
      destruct (Htail (Remote.number pr) s1 [] C0)
        as (body & comment & title & ws & rest & L & E & R & C).
      { rewrite app_nil_r. exact L0. }
      exists [], (Remote.number pr), body, comment, title, ws, rest.
      split; [exact L|]. split; [exact E|]. split; [exact R|]. split; [exact C|].
      left. split; [reflexivity|]. exists pr. split; [reflexivity|]. split; [reflexivity|].
      apply N.eqb_neq. exact E0.
  - unfold Remote.bind at 1 in Eout. cbn [Remote.ret] in Eout.
    apply Hcreate; [|exact Eout].
    left. reflexivity.
Qed.

(** A repository without a draft: the draft is created, and the three
    updates go to the pull request that the host answers. *)
Lemma updateStagingToReleasePR_writes_in_order_witness :
  exists body comment title,
    Remote.log
      (snd (PRService.updateStagingToReleasePR featureEvent
              (JS.lit "New Features
- Login page
") newDraftWorld ConfigService.newService))
    = [ Remote.PullsCreate (JS.lit "Updating v0.0.0") (JS.lit "staging") (JS.lit "main");
        Remote.PullsUpdateBody 31 body;
        Remote.IssuesCreateComment 31 comment;
        Remote.PullsUpdateTitle 31 title ].
Proof.
  destruct (updateStagingToReleasePR_writes_in_order featureEvent
              (JS.lit "New Features
- Login page
") newDraftWorld ConfigService.newService eq_refl)
    as (created & n & body & comment & title & ws & rest & L & E & R & _ & [(_ & pr & F & _)|H]).
  - vm_compute in F. discriminate F.
  - destruct H as ((version & s2 & V & H) & _). cbv zeta in H. destruct H as (-> & A).
    vm_compute in V. injection V as <- <-. vm_compute in A. subst n.
    rewrite (R eq_refl) in E. rewrite app_nil_r in E. subst ws.
    exists body, comment, title. rewrite L. reflexivity.
Defined.

(** X9. [handleStagingMergedToRelease] acts on a merged pull request from
    the staging branch to the release branch only.  When the title is
    accepted, it requests one release, tagged and named with the
    configured prefix and the version of the title without a leading [v],
    on the release branch, neither draft nor prerelease, with the notes
    that [formatReleaseNotes] answers for the body (which never fails);
    when the host accepts the release, it then comments on the pull
    request with the link of the release; when the host refuses it, the
    error is thrown again and no comment is requested. *)
Theorem handleStagingMergedToRelease_release_then_comment
  (context : Remote.Context) (w : Remote.World) (s : Remote.State) :
  let c := Remote.config s in
  let pr := Remote.pull_request context in
  let out := PRService.handleStagingMergedToRelease context w s in
  (Remote.merged pr = false -> out = (Remote.Ok tt, s)) /\
  (Remote.head_ref pr <> Config.stagingBranch c \/
   Remote.base_ref pr <> Config.releaseBranch c -> out = (Remote.Ok tt, s)) /\
  (forall versionType versionFromTitle,
     Remote.merged pr = true ->
     Remote.head_ref pr = Config.stagingBranch c ->
     Remote.base_ref pr = Config.releaseBranch c ->
     PRText.titleMatch (Remote.title pr) = Some (versionType, versionFromTitle) ->
     let version := Config.releasePrefix c ++ PRText.stripV versionFromTitle in
     exists notes s1,
       PRService.formatReleaseNotes (PRService.orEmpty (Remote.body pr)) versionType w s
         = (Remote.Ok notes, s1) /\
       Remote.log s1 = Remote.log s /\
       Remote.config (snd out) = c /\
       let release :=
         Remote.ReposCreateRelease version version notes (Config.releaseBranch c) false false in
       match Remote.answer w (Remote.clock s1) release with
       | Remote.Throw e =>
           fst out = Remote.Throw e /\ Remote.log (snd out) = Remote.log s ++ [release]
       | Remote.Ok published =>
           Remote.log (snd out) =
             Remote.log s ++
             [release;
              Remote.IssuesCreateComment (Remote.number pr)
                (PRService.PARTY ++ JS.lit " Release [" ++ version ++ JS.lit "](" ++
                 Remote.new_html_url published ++ JS.lit ") has been published!")]
       end).
Proof.
  intros c pr out.
  assert (out = PRService.handleStagingMergedToRelease context w s) as Eout by reflexivity.
  clearbody out. unfold PRService.handleStagingMergedToRelease in Eout.
  unfold Remote.bind at 1, Remote.getConfig in Eout. cbv zeta in Eout.
  fold c in Eout. fold pr in Eout.
  split; [|split].
  - intro Hm. rewrite Hm in Eout. exact Eout.
  - intro Hb. destruct (Remote.merged pr); [|exact Eout]. cbn [negb] in Eout.
    destruct (negb (JS.str_eqb (Remote.head_ref pr) (Config.stagingBranch c)) ||
              negb (JS.str_eqb (Remote.base_ref pr) (Config.releaseBranch c))) eqn:E;
      [exact Eout|].
    apply orb_false_iff in E. destruct E as [E1 E2].
    apply negb_false_iff in E1, E2. apply str_eqb_eq in E1, E2.
    destruct Hb as [Hb|Hb]; contradiction.
  - intros versionType versionFromTitle Hm Hh Hb Ht version.
    rewrite Hm, Hh, Hb, Ht in Eout. cbn [negb] in Eout.
    assert (forall x, JS.str_eqb x x = true) as Hrefl
      by (intro x; apply str_eqb_eq; reflexivity).
    rewrite !Hrefl in Eout. cbn [negb orb] in Eout.
    fold version in Eout.
    destruct (formatReleaseNotes_returns c (PRService.orEmpty (Remote.body pr)) versionType
                w s eq_refl) as (ws & L1 & C1 & -> & notes & En & _).
    rewrite app_nil_r in L1.
    unfold Remote.tryCatch, Remote.bind at 1 in Eout.
    destruct (PRService.formatReleaseNotes (PRService.orEmpty (Remote.body pr)) versionType w s)
      as [r s1].
    cbn [fst snd] in En, L1, C1. subst r.
    exists notes, s1. split; [reflexivity|]. split; [exact L1|].
    unfold Remote.bind at 1, Remote.send at 1 in Eout. cbv zeta.
    destruct (Remote.answer w (Remote.clock s1)
                (Remote.ReposCreateRelease version version notes (Config.releaseBranch c)
                   false false)) as [published|e].
    + unfold Remote.bind, Remote.send, Remote.ret in Eout.
      destruct (Remote.answer w _ (Remote.IssuesCreateComment _ _)) in Eout;
        subst out; cbn [fst snd Remote.record_write Remote.log Remote.config Remote.throw];
        (split; [exact C1|]); rewrite L1, <- app_assoc; reflexivity.
    + unfold Remote.throw in Eout. subst out.
      cbn [fst snd Remote.record_write Remote.log Remote.config].
      split; [exact C1|]. split; [reflexivity|]. rewrite L1. reflexivity.
Qed.

(** The merge of staging into main under the title of a minor release. *)
Lemma handleStagingMergedToRelease_release_then_comment_witness :
  Remote.log (snd (PRService.handleStagingMergedToRelease
                     (releaseEvent (JS.lit "MINOR Release: v1.5.0: Add login"))
                     draftWorld ConfigService.newService)) =
    [ Remote.ReposCreateRelease (JS.lit "v1.5.0") (JS.lit "v1.5.0")
        (JS.lit "# Release

**Release Type:** MINOR
**Release Date:** 2025-03-01

New Features
- Login page

Bugs / Improvements

---
*This release was automatically published by the GitHub Release Bot with AI-generated summary.*")
        (JS.lit "main") false false;
      Remote.IssuesCreateComment 12
        (PRService.PARTY ++ JS.lit " Release [v1.5.0]() has been published!") ].
Proof.
  destruct (handleStagingMergedToRelease_release_then_comment
              (releaseEvent (JS.lit "MINOR Release: v1.5.0: Add login"))
              draftWorld ConfigService.newService) as (_ & _ & H).
  destruct (H (JS.lit "MINOR") (JS.lit "v1.5.0") eq_refl eq_refl eq_refl eq_refl)
    as (notes & s1 & En & _ & _ & Hw).
  vm_compute in En. injection En as <- <-.
  exact Hw.
Defined.

(* ====================================================================== *)
(** * From the title of the draft to the release *)
(* ====================================================================== *)

Section TitleRoundTrip.

Import JS Config Helpers PRText.

Lemma showNat_allDigits (z : Z) : (0 <= z)%Z -> allDigits (showNat z).
Proof.
  intro Hz. destruct (showNat_spec z Hz) as (x & ds & E & Hd & _).
  rewrite E. split; [discriminate|exact Hd].
Qed.

(** A title of the form that [updatePRTitleWithInfo] writes with the
    prefix [v] is accepted by the release stage. *)
Lemma titleMatch_formatTitle (bump : BumpClass) (d1 d2 d3 summary : str) :
  allDigits d1 -> allDigits d2 -> allDigits d3 ->
  titleMatch (formatTitle (bumpText bump) (lit "v")
                (d1 ++ lit "." ++ d2 ++ lit "." ++ d3) summary)
    = Some (bumpText bump, lit "v" ++ d1 ++ lit "." ++ d2 ++ lit "." ++ d3).
Proof.
  intros D1 D2 D3. apply titleMatch_pattern.
  exists bump, (lit " Release: "), (lit "v"), d1, d2, d3, (ch 32 :: summary).
  split; [apply bumpText_upper|]. split; [reflexivity|].
  split; [right; left; reflexivity|].
  split; [exact D1|]. split; [exact D2|]. split; [exact D3|].
  split; [reflexivity|].
  unfold formatTitle. cbn [lit list_ascii_of_string app].
  rewrite <- !app_assoc. cbn [app]. rewrite <- !app_assoc. reflexivity.
Qed.

Lemma calculateNewVersion_not_a_number (current : str) (releaseType : ReleaseType) :
  parseInt10 (partOrZero (split (ch 46) current) 0) = NaN ->
  exists rest, calculateNewVersion current releaseType = lit "NaN" ++ rest.
Proof.
  intro H. unfold calculateNewVersion. rewrite H.
  destruct releaseType; cbn [succ show]; eexists; rewrite <- ?app_assoc; reflexivity.
Qed.

End TitleRoundTrip.

(** X10. What the first stage writes, the second stage reads: for a
    current version of three numeric components, the title that
    [updatePRTitleWithInfo] forms with the prefix of the default
    configuration is accepted by the expression of
    [handleStagingMergedToRelease], with the same bump class and the new
    version; the tag of the release is that prefix and the new version,
    and [getCurrentVersion] reads the new version back from the tag.
    When the first component of the current version does not read as a
    number, the title is not accepted, whatever the bump class. *)
Theorem produced_title_is_accepted
  (bump : BumpClass) (current raw : JS.str) :
  let prefix := Config.releasePrefix Config.DEFAULT_CONFIG in
  let newVersion := Helpers.calculateNewVersion current (bumpRelease bump) in
  let title := PRText.formatTitle (bumpText bump) prefix newVersion (PRText.oneLine raw) in
  (forall a b c ma mi pa,
     JS.split (JS.ch 46) current = [a; b; c] ->
     versionComponent a ma -> versionComponent b mi -> versionComponent c pa ->
     PRText.titleMatch title = Some (bumpText bump, JS.lit "v" ++ newVersion) /\
     prefix ++ PRText.stripV (JS.lit "v" ++ newVersion) = JS.lit "v" ++ newVersion /\
     PRService.stripPrefix (JS.lit "v") (prefix ++ PRText.stripV (JS.lit "v" ++ newVersion))
       = newVersion) /\
  (JS.parseInt10 (Helpers.partOrZero (JS.split (JS.ch 46) current) 0) = JS.NaN ->
   PRText.titleMatch title = None).
Proof.
  intros prefix newVersion title. split.
  - intros a b c ma mi pa Hs Ha Hb Hc.
    split; [|split; reflexivity].
    destruct (calculateNewVersion_of_components current a b c ma mi pa Hs Ha Hb Hc)
      as (E1 & E2 & E3).
    destruct Ha as [_ Ra], Hb as [_ Rb], Hc as [_ Rc].
    assert (allDigits (JS.lit "0")) as D0 by (split; [discriminate|reflexivity]).
    unfold title, newVersion, prefix.
    change (Config.releasePrefix Config.DEFAULT_CONFIG) with (JS.lit "v").
    destruct bump; cbn [bumpRelease].
    + rewrite E1.
      apply (titleMatch_formatTitle MAJOR (JS.showNat (ma + 1)) (JS.lit "0") (JS.lit "0"));
        try assumption.
      apply showNat_allDigits. lia.
    + rewrite E2.
      apply (titleMatch_formatTitle MINOR (JS.showNat ma) (JS.showNat (mi + 1)) (JS.lit "0"));
        try assumption; apply showNat_allDigits; lia.
    + rewrite E3.
      apply (titleMatch_formatTitle PATCH (JS.showNat ma) (JS.showNat mi) (JS.showNat (pa + 1)));
        apply showNat_allDigits; lia.
  - intro H.
    destruct (calculateNewVersion_not_a_number current (bumpRelease bump) H) as [rest E].
    unfold title, newVersion, prefix. rewrite E.
    destruct bump; reflexivity.
Qed.

(** The version [1.4.2] under a minor bump, and the tag [latest]. *)
Lemma produced_title_is_accepted_witness :
  PRText.titleMatch (JS.lit "MINOR Release: v1.5.0: Add login")
    = Some (JS.lit "MINOR", JS.lit "v1.5.0") /\
  PRText.titleMatch (JS.lit "MINOR Release: vNaN.1.0: Add login") = None.
Proof.
  destruct (produced_title_is_accepted MINOR (JS.lit "1.4.2") (JS.lit "Add login"))
    as [H1 _].
  destruct (produced_title_is_accepted MINOR (JS.lit "latest") (JS.lit "Add login"))
    as [_ H2].
  split.
  - apply (H1 (JS.lit "1") (JS.lit "4") (JS.lit "2") 1%Z 4%Z 2%Z).
    + reflexivity.
    + split; [reflexivity|unfold JS.MAX_SAFE_INTEGER; lia].
    + split; [reflexivity|unfold JS.MAX_SAFE_INTEGER; lia].
    + split; [reflexivity|unfold JS.MAX_SAFE_INTEGER; lia].
  - apply H2. reflexivity.
Defined.

(* ====================================================================== *)
(** * The answer to the request for a version type *)
(* ====================================================================== *)

Section VersionAnswer.

Import JS Helpers PRText.

Lemma summaryMatch_step (x : ascii) (r : str) :
  ci_eqb "S"%char x = false -> summaryMatch (x :: r) = summaryMatch r.
Proof.
  intro H. cbn [summaryMatch lit list_ascii_of_string startsWith_ci]. rewrite H.
  reflexivity.
Qed.

Lemma summaryMatch_skip (pre r : str) :
  (forall x, In x pre -> ci_eqb "S"%char x = false) ->
  summaryMatch (pre ++ r) = summaryMatch r.
Proof.
  induction pre as [|x pre IH]; intro H.
  - reflexivity.
  - cbn [app]. rewrite summaryMatch_step by (apply H; left; reflexivity).
    apply IH. intros y Hy. apply H. right. exact Hy.
Qed.

Lemma bump_word_letters (bump : BumpClass) (word : str) (x : ascii) :
  toUpperCase word = bumpText bump -> In x word ->
  ci_eqb "S"%char x = false /\ isSpace x = false.
Proof.
  intros H Hx.
  assert (In (upperChar x) (bumpText bump)) as Hu.
  { rewrite <- H. unfold toUpperCase. apply in_map. exact Hx. }
  assert (forall u, In u (bumpText bump) ->
                    ascii_eqb "S"%char u = false /\ isUpperAZ u = true) as Hl.
  { intros u Hin.
    assert (forallb (fun v => negb (ascii_eqb "S"%char v) && isUpperAZ v) (bumpText bump)
            = true) as A by (destruct bump; reflexivity).
    rewrite forallb_forall in A. specialize (A u Hin).
    apply andb_true_iff in A. destruct A as [A1 A2].
    apply negb_true_iff in A1. split; assumption. }
  destruct (Hl _ Hu) as [H1 H2]. split.
  - unfold ci_eqb. exact H1.
  - revert H2. clear. destruct x as [[] [] [] [] [] [] [] []]; intro H; try reflexivity;
      discriminate H.
Qed.

Lemma lazyLine_cons (x : ascii) (s : str) :
  lazyLine (x :: s) =
    if isLineTerminator x then None
    else match s with
         | [] => Some 1
         | d :: _ => if ascii_eqb d LF then Some 1 else option_map S (lazyLine s)
         end.
Proof. destruct s; reflexivity. Qed.

(** The lazy group of the summary runs to the end of its line. *)
Lemma lazyLine_line (x : ascii) (t tail : str) :
  oneLineText (x :: t) ->
  tail = [] \/ (exists more, tail = LF :: more) ->
  lazyLine ((x :: t) ++ tail) = Some (length (x :: t)).
Proof.
  intros Hl Ht. revert x Hl. induction t as [|d t IH]; intros x Hl.
  - cbn [app]. rewrite lazyLine_cons, (Hl x (or_introl eq_refl)).
    destruct Ht as [->|[more ->]]; [reflexivity|].
    rewrite ascii_eqb_refl. reflexivity.
  - cbn [app]. rewrite lazyLine_cons, (Hl x (or_introl eq_refl)).
    assert (ascii_eqb d LF = false) as Hd.
    { destruct (ascii_eqb d LF) eqn:E; [|reflexivity].
      apply ascii_eqb_eq in E. subst d.
      specialize (Hl LF (or_intror (or_introl eq_refl))). discriminate Hl. }
    rewrite Hd.
    change (d :: t ++ tail) with ((d :: t) ++ tail).
    rewrite IH by (intros y Hy; apply Hl; right; exact Hy).
    reflexivity.
Qed.

End VersionAnswer.

(** X11. The answer format that the request for a version type asks for
    is read back: from [VERSION_TYPE: <word>] on the first line and
    [SUMMARY: <text>] on the second, with the word MAJOR, MINOR or PATCH in
    any case of its letters and a text that is not empty, has no white
    space at either end and lies on one line, [updatePRTitle] takes the
    bump class in capitals and the text as it is. *)
Theorem version_answer_is_read_back
  (bump : BumpClass) (word summary tail : JS.str) :
  JS.toUpperCase word = bumpText bump ->
  cleanBullet summary ->
  tail = [] \/ (exists more, tail = JS.LF :: more) ->
  let response :=
    JS.lit "VERSION_TYPE: " ++ word ++ [JS.LF] ++ JS.lit "SUMMARY: " ++ summary ++ tail in
  PRText.versionTypeOf response = bumpText bump /\
  PRText.summaryOf response = summary.
Proof.
  intros Hw Hs Ht response.
  destruct (cleanBullet_shape summary Hs) as (x & t & Es & Hx & _).
  destruct Hs as (_ & Htrim & Hline).
  assert (exists y w', word = y :: w') as (y & w' & Ew).
  { destruct word as [|y w']; [destruct bump; discriminate Hw|]. exists y, w'. reflexivity. }
  assert (isSpace y = false) as Hy.
  { apply (bump_word_letters bump word y Hw). rewrite Ew. left. reflexivity. }
  split.
  - unfold PRText.versionTypeOf.
    assert (PRText.versionTypeMatch response = Some word) as E.
    { unfold response.
      assert (forall r, PRText.versionTypeMatch (JS.lit "VERSION_TYPE: " ++ r) =
                        match PRText.bumpWordAt (JS.trimStart r) with
                        | Some b => Some b
                        | None => PRText.versionTypeMatch
                                    (JS.lit "ERSION_TYPE: " ++ r)
                        end) as A by reflexivity.
      assert (forall r, JS.trimStart (word ++ r) = word ++ r) as T.
      { intro r. rewrite Ew. cbn [app JS.trimStart]. rewrite Hy. reflexivity. }
      rewrite A, T, (bumpWordAt_intro word _ bump Hw). reflexivity. }
    rewrite E. exact Hw.
  - unfold PRText.summaryOf.
    assert (PRText.summaryMatch response = Some summary) as E.
    { unfold response.
      assert (forall r, PRText.summaryMatch (JS.lit "VERSION_TYPE: " ++ r)
                        = PRText.summaryMatch r) as A by reflexivity.
      rewrite A. rewrite summaryMatch_skip
        by (intros z Hz; apply (bump_word_letters bump word z Hw Hz)).
      rewrite (summaryMatch_skip [JS.LF]) by (intros z [<-|[]]; reflexivity).
      assert (forall r, PRText.summaryMatch (JS.lit "SUMMARY: " ++ r) =
                        match PRText.summaryGroup (JS.ch 32 :: r)
                                (Rx.spaceRun (JS.ch 32 :: r)) with
                        | Some g => Some g
                        | None => PRText.summaryMatch (JS.lit "UMMARY: " ++ r)
                        end) as B by reflexivity.
      rewrite B. rewrite Es. cbn [app Rx.spaceRun].
      change (JS.isSpace (JS.ch 32)) with true. cbv iota. rewrite Hx.
      cbn [PRText.summaryGroup skipn].
      change (x :: t ++ tail) with ((x :: t) ++ tail).
      rewrite lazyLine_line; [|rewrite <- Es; exact Hline|exact Ht].
      rewrite firstn_length_app. reflexivity. }
    rewrite E. exact Htrim.
Qed.

(** The answer of the example environment. *)
Lemma version_answer_is_read_back_witness :
  PRText.versionTypeOf (JS.lit "VERSION_TYPE: minor
SUMMARY: Add a login page
") = JS.lit "MINOR" /\
  PRText.summaryOf (JS.lit "VERSION_TYPE: minor
SUMMARY: Add a login page
") = JS.lit "Add a login page".
Proof.
  apply (version_answer_is_read_back MINOR (JS.lit "minor") (JS.lit "Add a login page")
           [JS.LF]).
  - reflexivity.
  - split; [discriminate|]. split; [reflexivity|].
    apply oneLineText_lit. reflexivity.
  - right. exists []. reflexivity.
Defined.

(* ====================================================================== *)
(** * The notes of a release, the settings of the completion call, and the
      routing of events *)
(* ====================================================================== *)

(** X12. [generateAISummary] never throws, requests no write and never
    answers an empty text: it answers the trimmed answer of the completion
    service, and the two empty headings whenever the key is missing, the
    call fails, or the answer is missing or blank.  It does not read the
    configuration of the service: the request goes out with its own model
    and settings, also when the AI feature is disabled. *)
Theorem generateAISummary_always_answers
  (prContent : JS.str) (w : Remote.World) (s : Remote.State) :
  let out := PRService.generateAISummary prContent w s in
  let answered := Remote.chat_completions_create w (Remote.clock s)
                    (releaseSummaryRequest prContent) in
  (exists text,
     fst out = Remote.Ok text /\ text <> [] /\
     (text = PRService.FALLBACK_SUMMARY \/
      exists key answer,
        Remote.OPENAI_API_KEY w = Some key /\
        answered = Remote.Ok (Some answer) /\ text = JS.trim answer)) /\
  Remote.log (snd out) = Remote.log s /\
  Remote.config (snd out) = Remote.config s /\
  (Remote.OPENAI_API_KEY w = None -> fst out = Remote.Ok PRService.FALLBACK_SUMMARY) /\
  (forall e, answered = Remote.Throw e -> fst out = Remote.Ok PRService.FALLBACK_SUMMARY) /\
  (answered = Remote.Ok None -> fst out = Remote.Ok PRService.FALLBACK_SUMMARY) /\
  (forall answer, answered = Remote.Ok (Some answer) -> JS.trim answer = [] ->
     fst out = Remote.Ok PRService.FALLBACK_SUMMARY) /\
  (forall s', Remote.clock s' = Remote.clock s ->
     fst (PRService.generateAISummary prContent w s') = fst out).
Proof.
  intros out answered.
  destruct (generateAISummary_returns (Remote.config s) prContent w s eq_refl)
    as (ws & L1 & C1 & -> & _).
  rewrite app_nil_r in L1. fold out in L1, C1.
  assert (forall s', Remote.clock s' = Remote.clock s ->
            fst (PRService.generateAISummary prContent w s') =
            match Remote.OPENAI_API_KEY w with
            | Some _ =>
                match answered with
                | Remote.Ok (Some answer) =>
                    match JS.trim answer with
                    | [] => Remote.Ok PRService.FALLBACK_SUMMARY
                    | x :: xs => Remote.Ok (x :: xs)
                    end
                | _ => Remote.Ok PRService.FALLBACK_SUMMARY
                end
            | None => Remote.Ok PRService.FALLBACK_SUMMARY
            end) as Hform.
  { intros s' Hs'.
    unfold PRService.generateAISummary, Remote.tryCatch, Remote.bind, Remote.apiKey,
      Remote.request.
    destruct (Remote.OPENAI_API_KEY w) as [key|]; [|reflexivity].
    cbv beta iota. rewrite Hs'.
    change (Remote.chat_completions_create w (Remote.clock s) _) with answered.
    destruct answered as [[answer|]|e]; cbn [option_map]; try reflexivity.
    destruct (JS.trim answer); reflexivity. }
  pose proof (Hform s eq_refl) as Hout. fold out in Hout.
  split; [|split; [exact L1|split; [exact C1|]]].
  - rewrite Hout. destruct (Remote.OPENAI_API_KEY w) as [key|].
    + destruct answered as [[answer|]|e] eqn:Ea.
      * destruct (JS.trim answer) as [|x xs] eqn:Et.
        -- eexists. split; [reflexivity|]. split; [discriminate|left; reflexivity].
        -- eexists. split; [reflexivity|]. split; [discriminate|].
           right. exists key, answer. rewrite Et. repeat split; reflexivity.
      * eexists. split; [reflexivity|]. split; [discriminate|left; reflexivity].
      * eexists. split; [reflexivity|]. split; [discriminate|left; reflexivity].
    + eexists. split; [reflexivity|]. split; [discriminate|left; reflexivity].
  - split; [|split; [|split; [|split]]].
    + intro H. rewrite Hout, H. reflexivity.
    + intros e H. rewrite Hout, H. destruct (Remote.OPENAI_API_KEY w); reflexivity.
    + intro H. rewrite Hout, H. destruct (Remote.OPENAI_API_KEY w); reflexivity.
    + intros answer H Ht. rewrite Hout, H, Ht.
      destruct (Remote.OPENAI_API_KEY w); reflexivity.
    + intros s' Hs'. rewrite (Hform s' Hs'), Hout. reflexivity.
Qed.

(** The service with the AI feature off still asks for the notes of a
    release. *)
Lemma generateAISummary_always_answers_witness :
  fst (PRService.generateAISummary (JS.lit "- Login page") draftWorld serviceWithAiOff)
    = fst (PRService.generateAISummary (JS.lit "- Login page") draftWorld
             ConfigService.newService) /\
  fst (PRService.generateAISummary (JS.lit "- Login page") failingAIWorld
         ConfigService.newService) = Remote.Ok PRService.FALLBACK_SUMMARY.
Proof.
  destruct (generateAISummary_always_answers (JS.lit "- Login page") draftWorld
              ConfigService.newService) as (_ & _ & _ & _ & _ & _ & _ & H1).
  destruct (generateAISummary_always_answers (JS.lit "- Login page") failingAIWorld
              ConfigService.newService) as (_ & _ & _ & _ & H2 & _).
  split.
  - apply H1. reflexivity.
  - apply (H2 (Remote.HttpError 500)). reflexivity.
Defined.

(** X14. With the AI feature enabled, [callOpenAI] needs a model that is
    not empty, a temperature that is not [0] and a number of tokens that
    is not [0]: a setting that is missing, or empty, or [0] makes it throw
    before any request.  Otherwise it makes one request, with exactly
    these three settings and the messages it is given, and answers the
    content that comes back, throwing when there is none. *)
Theorem callOpenAI_requires_nonzero_settings
  (messages : list Remote.Message) (w : Remote.World) (s : Remote.State) :
  Config.aiDisabled (Remote.config s) = false ->
  (ConfigService.requiredFields (Remote.config s) = None ->
   ConfigService.callOpenAI messages w s = (Remote.Throw MISSING_FIELDS, s)) /\
  (forall model temperature max_tokens,
     ConfigService.requiredFields (Remote.config s) = Some (model, temperature, max_tokens) ->
     ConfigService.callOpenAI messages w s =
       (match Remote.chat_completions_create w (Remote.clock s)
                {| Remote.req_model := model;
                   Remote.req_messages := messages;
                   Remote.req_temperature := temperature;
                   Remote.req_max_tokens := max_tokens |} with
        | Remote.Ok (Some (x :: xs)) => Remote.Ok (Some (x :: xs))
        | Remote.Ok _ => Remote.Throw NO_RESPONSE
        | Remote.Throw e => Remote.Throw e
        end, Remote.tick s)) /\
  (forall model temperature max_tokens,
     ConfigService.requiredFields (Remote.config s) = Some (model, temperature, max_tokens) <->
     exists o,
       Config.openai_of (Remote.config s) = Some o /\
       Config.model o = Some model /\ model <> [] /\
       Config.temperature o = Some temperature /\ ~ (temperature == 0)%Q /\
       Config.max_tokens o = Some max_tokens /\ max_tokens <> 0%Z).
Proof.
  intro Hon. split; [|split].
  - intro H. unfold ConfigService.callOpenAI, Remote.bind, Remote.getConfig.
    rewrite Hon, H. reflexivity.
  - intros m t k H. unfold ConfigService.callOpenAI, Remote.bind, Remote.getConfig.
    rewrite Hon, H. unfold Remote.request.
    destruct (Remote.chat_completions_create w (Remote.clock s) _) as [[[|x xs]|]|e];
      reflexivity.
  - intros m t k. unfold ConfigService.requiredFields.
    destruct (Config.openai_of (Remote.config s)) as [o|].
    + destruct (Config.model o) as [[|x m']|] eqn:Em;
        destruct (Config.temperature o) as [t'|] eqn:Et;
        destruct (Config.max_tokens o) as [k'|] eqn:Ek;
        try (split; [discriminate|];
             intros (o' & Ho & H1 & H2 & H3 & H4 & H5 & H6);
             injection Ho as <-; congruence).
      unfold ConfigService.zeroQ, ConfigService.zeroZ.
      destruct (Qeq_bool t' 0) eqn:Eq; cbn [orb].
      * split; [discriminate|].
        intros (o' & Ho & H1 & H2 & H3 & H4 & H5 & H6). injection Ho as <-.
        rewrite Et in H3. injection H3 as <-.
        apply Qeq_bool_iff in Eq. contradiction.
      * destruct (k' =? 0)%Z eqn:Ez.
        -- split; [discriminate|].
           intros (o' & Ho & H1 & H2 & H3 & H4 & H5 & H6). injection Ho as <-.
           rewrite Ek in H5. injection H5 as <-. apply Z.eqb_eq in Ez. contradiction.
        -- split.
           ++ intro H. injection H as <- <- <-. exists o.
              repeat split; try assumption; try discriminate.
              ** intro Hq. apply Qeq_bool_iff in Hq. congruence.
              ** apply Z.eqb_neq. exact Ez.
           ++ intros (o' & Ho & H1 & H2 & H3 & H4 & H5 & H6). injection Ho as <-.
              rewrite Em in H1. rewrite Et in H3. rewrite Ek in H5.
              injection H1 as <-. injection H3 as <-. injection H5 as <-. reflexivity.
    + split; [discriminate|]. intros (o & Ho & _). discriminate Ho.
Qed.

(** The temperature [0], and the default settings. *)
Lemma callOpenAI_requires_nonzero_settings_witness :
  ConfigService.callOpenAI []  quietWorld
    {| Remote.config := zeroTemperature; Remote.clock := 0; Remote.log := [] |}
  = (Remote.Throw MISSING_FIELDS,
     {| Remote.config := zeroTemperature; Remote.clock := 0; Remote.log := [] |}) /\
  ConfigService.requiredFields Config.DEFAULT_CONFIG
    = Some (JS.lit "gpt-4o-mini", (2 # 10)%Q, 2048%Z).
Proof.
  split.
  - apply (callOpenAI_requires_nonzero_settings [] quietWorld
             {| Remote.config := zeroTemperature; Remote.clock := 0; Remote.log := [] |});
      reflexivity.
  - apply (callOpenAI_requires_nonzero_settings [] quietWorld ConfigService.newService
             eq_refl).
    exists {| Config.model := Some (JS.lit "gpt-4o-mini");
              Config.temperature := Some (2 # 10)%Q;
              Config.max_tokens := Some 2048%Z |}.
    repeat split; try discriminate.
Defined.

(** X15. The handler of the event acts on merged pull requests only, and
    by the branch names of the default configuration: an event for a pull
    request that was closed without a merge is answered at once; a merged
    one needs the key of the completion service, whatever its branches;
    and a merge requests no write unless it goes into [staging] from a
    branch other than [main], or into [main] from [staging]. *)
Theorem probotHandler_routes_by_default_branches
  (context : Remote.Context) (w : Remote.World) :
  let pr := Remote.pull_request context in
  let out := Events.run w context in
  (Remote.merged pr = false -> out = (Remote.Ok tt, ConfigService.newService)) /\
  (Remote.merged pr = true ->
   Remote.OPENAI_API_KEY w = None \/ Remote.OPENAI_API_KEY w = Some [] ->
   out = (Remote.Throw NO_API_KEY, ConfigService.newService)) /\
  (Remote.merged pr = true ->
   (Remote.base_ref pr = JS.lit "staging" -> Remote.head_ref pr = JS.lit "main") ->
   ~ (Remote.base_ref pr = JS.lit "main" /\ Remote.head_ref pr = JS.lit "staging") ->
   Remote.log (snd out) = []).
Proof.
  intros pr out.
  assert (out = Events.probotHandler context w ConfigService.newService) as Eout
    by reflexivity.
  clearbody out. unfold Events.probotHandler in Eout. fold pr in Eout.
  split; [|split].
  - intro Hm. rewrite Hm in Eout. exact Eout.
  - intros Hm Hk. rewrite Hm in Eout. cbn [negb] in Eout. cbv zeta in Eout.
    unfold Remote.bind at 1, ConfigService.construct, Remote.bind at 1, Remote.apiKey
      in Eout.
    destruct Hk as [Hk|Hk]; rewrite Hk in Eout; exact Eout.
  - intros Hm H1 H2. rewrite Hm in Eout. cbn [negb] in Eout. cbv zeta in Eout.
    unfold Remote.bind at 1 in Eout.
    pose proof (construct_state context w ConfigService.newService) as Ec.
    destruct (ConfigService.construct context w ConfigService.newService) as [[[]|e] s1];
      cbn [snd] in Ec; subst s1; [|subst out; reflexivity].
    unfold Remote.bind at 1 in Eout.
    pose proof (loadConfig_state w ConfigService.newService) as El.
    destruct (ConfigService.loadConfig w ConfigService.newService) as [[loaded|e] s2];
      cbn [snd] in El; subst s2; [|subst out; reflexivity].
    unfold Remote.bind at 1, Remote.getConfig at 1 in Eout.
    change (Remote.config (Remote.tick ConfigService.newService))
      with Config.DEFAULT_CONFIG in Eout.
    change (Config.staging_of Config.DEFAULT_CONFIG) with (Some (JS.lit "staging")) in Eout.
    change (Config.release_of Config.DEFAULT_CONFIG) with (Some (JS.lit "main")) in Eout.
    cbn [Events.sameRef] in Eout.
    assert (JS.str_eqb (Remote.base_ref pr) (JS.lit "staging") &&
            negb (JS.str_eqb (Remote.head_ref pr) (JS.lit "main")) = false) as F1.
    { destruct (JS.str_eqb (Remote.base_ref pr) (JS.lit "staging")) eqn:E; [|reflexivity].
      apply str_eqb_eq in E. rewrite (H1 E). reflexivity. }
    assert (JS.str_eqb (Remote.base_ref pr) (JS.lit "main") &&
            JS.str_eqb (Remote.head_ref pr) (JS.lit "staging") = false) as F2.
    { destruct (JS.str_eqb (Remote.base_ref pr) (JS.lit "main")) eqn:E; [|reflexivity].
      destruct (JS.str_eqb (Remote.head_ref pr) (JS.lit "staging")) eqn:E'; [|reflexivity].
      apply str_eqb_eq in E, E'. exfalso. apply H2. split; assumption. }
    rewrite F1 in Eout. unfold Remote.bind at 1 in Eout. cbn [Remote.ret] in Eout.
    unfold Remote.bind at 1, Remote.getConfig at 1 in Eout.
    change (Remote.config (Remote.tick ConfigService.newService))
      with Config.DEFAULT_CONFIG in Eout.
    change (Config.staging_of Config.DEFAULT_CONFIG) with (Some (JS.lit "staging")) in Eout.
    change (Config.release_of Config.DEFAULT_CONFIG) with (Some (JS.lit "main")) in Eout.
    cbn [Events.sameRef] in Eout. rewrite F2 in Eout.
    subst out. reflexivity.
Qed.

(** A merge of [main] back into [staging], with a host that would answer
    every request. *)
Lemma probotHandler_routes_by_default_branches_witness :
  Remote.log (snd (Events.run draftWorld
    {| Remote.owner := JS.lit "acme";
       Remote.repo := JS.lit "shop";
       Remote.has_repository := true;
       Remote.pull_request := {|
         Remote.number := 13%N;
         Remote.title := JS.lit "Back-merge";
         Remote.body := None;
         Remote.merged := true;
         Remote.draft := false;
         Remote.head_ref := JS.lit "main";
         Remote.base_ref := JS.lit "staging";
         Remote.user_login := None;
         Remote.html_url := [] |} |})) = [].
Proof.
  apply probotHandler_routes_by_default_branches.
  - reflexivity.
  - reflexivity.
  - intros [H _]. discriminate H.
Defined.

(* ====================================================================== *)
(** * The merge of two configurations *)
(* ====================================================================== *)

Section DeepMerge.

Import Config.

Lemma override_assoc {A} (a b c : option A) :
  override (override a b) c = override a (override b c).
Proof. destruct c, b; reflexivity. Qed.

Lemma mergeObject_assoc {A} (merge : A -> A -> A) (a b c : option A) :
  (forall x y z, merge (merge x y) z = merge x (merge y z)) ->
  mergeObject merge (mergeObject merge a b) c = mergeObject merge a (mergeObject merge b c).
Proof.
  intro H. destruct c as [z|], b as [y|], a as [x|]; cbn; try reflexivity.
  rewrite H. reflexivity.
Qed.

Lemma mergeBranches_assoc (x y z : Branches) :
  mergeBranches (mergeBranches x y) z = mergeBranches x (mergeBranches y z).
Proof. unfold mergeBranches. cbn. rewrite !override_assoc. reflexivity. Qed.

Lemma mergePr_assoc (x y z : PrOptions) :
  mergePr (mergePr x y) z = mergePr x (mergePr y z).
Proof. unfold mergePr. cbn. rewrite !override_assoc. reflexivity. Qed.

Lemma mergeRelease_assoc (x y z : ReleaseOptions) :
  mergeRelease (mergeRelease x y) z = mergeRelease x (mergeRelease y z).
Proof. unfold mergeRelease. cbn. rewrite !override_assoc. reflexivity. Qed.

Lemma mergeChangelog_assoc (x y z : ChangelogOptions) :
  mergeChangelog (mergeChangelog x y) z = mergeChangelog x (mergeChangelog y z).
Proof. unfold mergeChangelog. cbn. rewrite !override_assoc. reflexivity. Qed.

Lemma mergeTags_assoc (x y z : ReleaseTags) :
  mergeTags (mergeTags x y) z = mergeTags x (mergeTags y z).
Proof. unfold mergeTags. cbn. rewrite !override_assoc. reflexivity. Qed.

Lemma mergeOpenAI_assoc (x y z : OpenAIOptions) :
  mergeOpenAI (mergeOpenAI x y) z = mergeOpenAI x (mergeOpenAI y z).
Proof. unfold mergeOpenAI. cbn. rewrite !override_assoc. reflexivity. Qed.

Lemma mergeAi_assoc (x y z : AiOptions) :
  mergeAi (mergeAi x y) z = mergeAi x (mergeAi y z).
Proof.
  unfold mergeAi. cbn. rewrite !override_assoc.
  rewrite (mergeObject_assoc mergeOpenAI) by apply mergeOpenAI_assoc. reflexivity.
Qed.

End DeepMerge.

(** X13. For configuration objects of the declared type [RepoConfig]
    (each key that is given holds a value of its declared type),
    [mergeConfigs] is a deep merge in which the custom value wins:
    merging the empty object changes nothing, merging into the empty
    object gives the custom configuration, and merging twice is merging
    the merge.  Over the defaults, a file sets what it names and nothing
    else: the staging branch, the release branch and the prefix of the
    merged configuration are those of the file where it gives them and
    the default ones elsewhere, and the AI feature is off only when the
    file switches it off. *)
Theorem mergeConfigs_deep_override (d c1 c2 : Config.RepoConfig) :
  Config.mergeConfigs d emptyConfig = d /\
  Config.mergeConfigs emptyConfig d = d /\
  Config.mergeConfigs (Config.mergeConfigs d c1) c2
    = Config.mergeConfigs d (Config.mergeConfigs c1 c2) /\
  Config.stagingBranch (Config.mergeConfigs Config.DEFAULT_CONFIG c1)
    = Config.orElse (Config.staging_of c1) (JS.lit "staging") /\
  Config.releaseBranch (Config.mergeConfigs Config.DEFAULT_CONFIG c1)
    = Config.orElse (Config.release_of c1) (JS.lit "main") /\
  Config.releasePrefix (Config.mergeConfigs Config.DEFAULT_CONFIG c1)
    = Config.orElse (Config.prefix_of c1) (JS.lit "v") /\
  (Config.aiDisabled (Config.mergeConfigs Config.DEFAULT_CONFIG c1) = true <->
   exists a, Config.ai c1 = Some a /\ Config.enabled a = Some false).
Proof.
  split; [|split; [|split; [|split; [|split; [|split]]]]].
  - destruct d as [b p r ch t a]. reflexivity.
  - destruct d as [[b|] [p|] [r|] [ch|] [t|] [a|]]; reflexivity.
  - unfold Config.mergeConfigs. cbn.
    rewrite (mergeObject_assoc Config.mergeBranches) by apply mergeBranches_assoc.
    rewrite (mergeObject_assoc Config.mergePr) by apply mergePr_assoc.
    rewrite (mergeObject_assoc Config.mergeRelease) by apply mergeRelease_assoc.
    rewrite (mergeObject_assoc Config.mergeChangelog) by apply mergeChangelog_assoc.
    rewrite (mergeObject_assoc Config.mergeTags) by apply mergeTags_assoc.
    rewrite (mergeObject_assoc Config.mergeAi) by apply mergeAi_assoc.
    reflexivity.
  - unfold Config.stagingBranch, Config.staging_of, Config.mergeConfigs. cbn.
    destruct (Config.branches c1) as [[r [st|]]|]; reflexivity.
  - unfold Config.releaseBranch, Config.release_of, Config.mergeConfigs. cbn.
    destruct (Config.branches c1) as [[[r|] st]|]; reflexivity.
  - unfold Config.releasePrefix, Config.prefix_of, Config.mergeConfigs. cbn.
    destruct (Config.release c1) as [[[p|] ? ? ?]|]; reflexivity.
  - unfold Config.aiDisabled, Config.mergeConfigs. cbn.
    destruct (Config.ai c1) as [[[[|]|] o f v]|]; cbn; split; intro H;
      try discriminate H; try reflexivity.
    + destruct H as (a & Ha & He). injection Ha as <-. discriminate He.
    + eexists. split; reflexivity.
    + destruct H as (a & Ha & He). injection Ha as <-. discriminate He.
    + destruct H as (a & Ha & _). discriminate Ha.
Qed.

(* ====================================================================== *)
(** * The empty commit *)
(* ====================================================================== *)

(** X16. [createEmptyCommit] requests at most two writes, in this order:
    a commit with the tree of the commit that the branch points to and
    that commit as its only parent, and then the move of the branch to
    the new commit.  The branch is the one given, else the staging branch
    of the configuration, else [staging]; the message is the one given,
    else [Empty commit [<time>]].  An error of any of the four calls is
    thrown again, and nothing is requested after it; the function returns
    only when both writes were accepted, with the [sha] of the new commit
    and its address. *)
Theorem createEmptyCommit_keeps_the_tree
  (context : Remote.Context) (branch message : option JS.str)
  (h : Git.Host) (s : Git.State) :
  let out := Git.createEmptyCommit context branch message h s in
  let ref := Git.headsRef (Git.targetBranchOf (Git.config s) branch) in
  let given := match message with Some (_ :: _) => true | _ => false end in
  let commitMessage :=
    match message with
    | Some (x :: xs) => x :: xs
    | _ => JS.lit "Empty commit [" ++ Git.toISOString h (Git.clock s) ++ JS.lit "]"
    end in
  let k := if given then Git.clock s else S (Git.clock s) in
  Git.config (snd out) = Git.config s /\
  match Git.getRef h k ref with
  | Remote.Throw e => fst out = Remote.Throw e /\ Git.log (snd out) = Git.log s
  | Remote.Ok reference =>
      match Git.getCommit h (S k) reference with
      | Remote.Throw e => fst out = Remote.Throw e /\ Git.log (snd out) = Git.log s
      | Remote.Ok latestCommit =>
          let commit :=
            Git.CreateCommit commitMessage (Git.tree_sha latestCommit)
              [Git.sha latestCommit] in
          match Git.createCommit h (S (S k)) commitMessage (Git.tree_sha latestCommit)
                  [Git.sha latestCommit] with
          | Remote.Throw e =>
              fst out = Remote.Throw e /\ Git.log (snd out) = Git.log s ++ [commit]
          | Remote.Ok newCommit =>
              Git.log (snd out) = Git.log s ++ [commit; Git.UpdateRef ref newCommit] /\
              match Git.updateRef h (S (S (S k))) ref newCommit with
              | Remote.Throw e => fst out = Remote.Throw e
              | Remote.Ok _ =>
                  fst out = Remote.Ok (newCommit, Git.commitUrl context newCommit)
              end
          end
      end
  end.
Proof.
  intros out ref given commitMessage k.
  assert (out = Git.createEmptyCommit context branch message h s) as Eout by reflexivity.
  clearbody out. unfold Git.createEmptyCommit in Eout.
  unfold Git.bind at 1, Git.getConfig in Eout. cbv zeta in Eout. fold ref in Eout.
  unfold Git.bind at 1 in Eout.
  assert (match message with
          | Some (x :: xs) => Git.ret (x :: xs)
          | _ => Git.bind Git.now (fun iso =>
                   Git.ret (JS.lit "Empty commit [" ++ iso ++ JS.lit "]"))
          end h s =
          (Remote.Ok commitMessage,
           {| Git.config := Git.config s; Git.clock := k; Git.log := Git.log s |})) as Em.
  { unfold commitMessage, k, given. destruct s as [c n l].
    destruct message as [[|x xs]|]; reflexivity. }
  rewrite Em in Eout. clear Em.
  unfold Git.tryCatch, Git.bind at 1, Git.request at 1 in Eout.
  cbn [Git.clock Git.tick Git.config Git.log] in Eout.
  destruct (Git.getRef h k ref) as [reference|e].
  2:{ subst out. cbn. repeat split; reflexivity. }
  unfold Git.bind at 1, Git.request at 1 in Eout.
  cbn [Git.clock Git.tick Git.config Git.log] in Eout.
  destruct (Git.getCommit h (S k) reference) as [latestCommit|e].
  2:{ subst out. cbn. repeat split; reflexivity. }
  unfold Git.bind at 1, Git.send at 1 in Eout.
  cbn [Git.clock Git.tick Git.config Git.log] in Eout. cbv zeta.
  destruct (Git.createCommit h (S (S k)) commitMessage (Git.tree_sha latestCommit)
              [Git.sha latestCommit]) as [newCommit|e].
  2:{ subst out. cbn. repeat split; reflexivity. }
  unfold Git.bind at 1, Git.send at 1 in Eout.
  cbn [Git.clock Git.tick Git.config Git.log] in Eout.
  destruct (Git.updateRef h (S (S (S k))) ref newCommit) as [[]|e].
  - subst out. cbn. rewrite <- app_assoc. repeat split; reflexivity.
  - subst out. cbn. rewrite <- app_assoc. repeat split; reflexivity.
Qed.

(** An empty commit on the staging branch of the default configuration. *)
Example createEmptyCommit_on_staging :
  Git.createEmptyCommit featureEvent None (Some (JS.lit "Trigger the pipeline"))
    oneCommitHost gitService
  = (Remote.Ok (JS.lit "decaf", JS.lit "https://github.com/acme/shop/commit/decaf"),
     {| Git.config := Config.DEFAULT_CONFIG;
        Git.clock := 4;
        Git.log :=
          [ Git.CreateCommit (JS.lit "Trigger the pipeline") (JS.lit "7ree")
              [JS.lit "c0ffee"];
            Git.UpdateRef (JS.lit "heads/staging") (JS.lit "decaf") ] |}).
Proof. vm_compute. reflexivity. Qed.

(* ====================================================================== *)
(** * The notes of a release *)
(* ====================================================================== *)

Section ReleaseNotes.

Import JS Remote PRText PRService.

Lemma lineRest_prefix (s : str) :
  s = Rx.lineRest s ++ skipn (length (Rx.lineRest s)) s /\
  forall c, In c (Rx.lineRest s) -> isLineTerminator c = false.
Proof.
  induction s as [|x s [IH1 IH2]].
  - split; [reflexivity|]. intros c [].
  - cbn [Rx.lineRest]. destruct (isLineTerminator x) eqn:E.
    + split; [reflexivity|]. intros c [].
    + cbn [length skipn app]. split.
      * f_equal. exact IH1.
      * intros c [<-|H]; [exact E|apply IH2; exact H].
Qed.

Lemma releaseHeaderMatch_cons (x : ascii) (s : str) :
  releaseHeaderMatch (x :: s) =
    match
      (if startsWith (lit "# Release ") (x :: s) then
         let l := Rx.lineRest (skipn 10 (x :: s)) in
         match l with
         | [] => None
         | _ => if startsWith [LF] (skipn (10 + length l) (x :: s))
                then Some (firstn (10 + length l + 1) (x :: s)) else None
         end
       else None)
    with
    | Some m => Some m
    | None => releaseHeaderMatch s
    end.
Proof. reflexivity. Qed.

Lemma releaseHeaderMatch_Some (s m : str) :
  releaseHeaderMatch s = Some m ->
  exists before title after,
    s = before ++ m ++ after /\
    m = lit "# Release " ++ title ++ [LF] /\
    title <> [] /\
    forall c, In c title -> isLineTerminator c = false.
Proof.
  induction s as [|x s IH]; intro H.
  - cbn in H. discriminate.
  - rewrite releaseHeaderMatch_cons in H.
    assert (releaseHeaderMatch s = Some m ->
            exists before title after,
              x :: s = before ++ m ++ after /\
              m = lit "# Release " ++ title ++ [LF] /\
              title <> [] /\
              forall c, In c title -> isLineTerminator c = false) as Later.
    { intro H'. destruct (IH H') as (b & t & a & E1 & E2 & E3 & E4).
      exists (x :: b), t, a. rewrite E1. auto. }
    destruct (startsWith (lit "# Release ") (x :: s)) eqn:E; [|exact (Later H)].
    apply startsWith_iff in E. destruct E as [rest E].
    rewrite E in H.
    change (skipn 10 (lit "# Release " ++ rest)) with rest in H.
    cbv zeta in H.
    destruct (lineRest_prefix rest) as [P1 P2].
    destruct (Rx.lineRest rest) as [|t ts] eqn:L; [exact (Later H)|].
    assert (skipn (10 + length (t :: ts)) (lit "# Release " ++ rest)
            = skipn (length (t :: ts)) rest) as K by reflexivity.
    rewrite K in H. clear K.
    destruct (startsWith [LF] (skipn (length (t :: ts)) rest)) eqn:F; [|exact (Later H)].
    apply startsWith_iff in F. destruct F as [after F].
    assert (firstn (10 + length (t :: ts) + 1) (lit "# Release " ++ rest)
            = lit "# Release " ++ (t :: ts) ++ [LF]) as K.
    { assert (firstn (10 + length (t :: ts) + 1) (lit "# Release " ++ rest)
              = lit "# Release " ++ firstn (length (t :: ts) + 1) rest) as K
        by reflexivity.
      rewrite K. f_equal. rewrite P1, F. rewrite firstn_app.
      replace (length (t :: ts) + 1 - length (t :: ts)) with 1 by lia.
      rewrite firstn_all2 by lia. reflexivity. }
    rewrite K in H. injection H as <-. rewrite E.
    exists [], (t :: ts), after.
    split; [|split; [reflexivity|split; [discriminate|exact P2]]].
    cbn [app]. rewrite P1 at 1. rewrite F. cbn [app lit list_ascii_of_string].
    rewrite <- !app_assoc. reflexivity.
Qed.

Lemma split_head (c : ascii) (s : str) :
  exists d ds rest,
    split c s = d :: ds /\ s = d ++ rest /\ ~ In c d /\
    (rest = [] \/ exists t, rest = c :: t).
Proof.
  induction s as [|x s (d & ds & rest & E1 & E2 & E3 & E4)].
  - exists [], [], []. cbn. split; [reflexivity|]. split; [reflexivity|].
    split; [intros []|left; reflexivity].
  - cbn [split]. destruct (ascii_eqb x c) eqn:E.
    + apply ascii_eqb_eq in E. subst x.
      exists [], (split c s), (c :: s). split; [reflexivity|]. split; [reflexivity|].
      split; [intros []|right; eexists; reflexivity].
    + rewrite E1. exists (x :: d), ds, rest. split; [reflexivity|].
      split; [cbn [app]; f_equal; exact E2|]. split; [|exact E4].
      intros [->|H]; [rewrite ascii_eqb_refl in E; discriminate|exact (E3 H)].
Qed.

Lemma datePart_before_T (iso : str) :
  exists rest,
    iso = datePart iso ++ rest /\ ~ In (ch 84) (datePart iso) /\
    (rest = [] \/ exists t, rest = ch 84 :: t).
Proof.
  unfold datePart. destruct (split_head (ch 84) iso) as (d & ds & rest & E1 & E2 & E3 & E4).
  rewrite E1. exists rest. auto.
Qed.

Lemma removeAll_no_match (matchAt : str -> option nat) (s : str) :
  (forall k, matchAt (skipn k s) = None) -> Rx.removeAll matchAt s 0 = s.
Proof.
  induction s as [|x s IH]; intro H.
  - reflexivity.
  - cbn [Rx.removeAll]. pose proof (H 0) as H0. cbn [skipn] in H0. rewrite H0.
    f_equal. apply IH.
    intro k. exact (H (S k)).
Qed.

End ReleaseNotes.

(** X17. The notes of a release always have one shape, whatever the body
    of the pull request holds and whatever the completion service does:
    a heading that begins with [# Release], the release type that was
    given, the date (the time of the host up to its [T]), a summary that
    is not empty, and the closing line.  The heading is [# Release] alone,
    or a heading [# Release <title>] that stands in the body stripped of
    its comments.  The summary is the one that [generateAISummary] makes
    of the body stripped of its comments, which is the body itself when it
    holds no [<!-- ]; no write is requested. *)
Theorem formatReleaseNotes_shape
  (prBody versionType : JS.str) (w : Remote.World) (s : Remote.State) :
  let existingContent := Rx.removeAll Rx.commentGreedyAt prBody 0 in
  let out := PRService.formatReleaseNotes prBody versionType w s in
  exists header summary s1 date time,
    PRService.generateAISummary existingContent w s = (Remote.Ok summary, s1) /\
    summary <> [] /\
    Remote.toISOString w (Remote.clock s1) = date ++ time /\
    ~ In (JS.ch 84) date /\ (time = [] \/ exists t, time = JS.ch 84 :: t) /\
    fst out =
      Remote.Ok
        (header ++ [JS.LF] ++
         JS.lit "**Release Type:** " ++ versionType ++ [JS.LF] ++
         JS.lit "**Release Date:** " ++ date ++ [JS.LF; JS.LF] ++
         summary ++ [JS.LF; JS.LF] ++ JS.lit "---" ++ [JS.LF] ++
         JS.lit "*This release was automatically published by the GitHub Release Bot with AI-generated summary.*") /\
    Remote.log (snd out) = Remote.log s /\
    Remote.config (snd out) = Remote.config s /\
    (header = JS.lit "# Release" ++ [JS.LF] \/
     exists before title after,
       existingContent = before ++ header ++ after /\
       header = JS.lit "# Release " ++ title ++ [JS.LF] /\
       title <> [] /\
       forall c, In c title -> JS.isLineTerminator c = false) /\
    ((forall k, JS.startsWith (JS.lit "<!-- ") (skipn k prBody) = false) ->
     existingContent = prBody).
Proof.
  intros existingContent out.
  destruct (generateAISummary_returns (Remote.config s) existingContent w s eq_refl)
    as (ws & L1 & C1 & -> & summary & Es & Hne).
  rewrite app_nil_r in L1.
  assert (out = PRService.formatReleaseNotes prBody versionType w s) as Eout by reflexivity.
  clearbody out. unfold PRService.formatReleaseNotes in Eout. cbv zeta in Eout.
  fold existingContent in Eout. unfold Remote.bind at 1 in Eout.
  destruct (PRService.generateAISummary existingContent w s) as [r s1]. cbn [fst snd] in *. subst r.
  unfold Remote.bind, Remote.now, Remote.ret in Eout.
  destruct (datePart_before_T (Remote.toISOString w (Remote.clock s1))) as (time & D1 & D2 & D3).
  assert (exists header,
            (header = JS.lit "# Release" ++ [JS.LF] \/
             exists before title after,
               existingContent = before ++ header ++ after /\
               header = JS.lit "# Release " ++ title ++ [JS.LF] /\
               title <> [] /\
               forall c, In c title -> JS.isLineTerminator c = false) /\
            match PRText.releaseHeaderMatch existingContent with
            | Some releaseTitle => releaseTitle
            | None => JS.lit "# Release" ++ [JS.LF]
            end = header) as (header & Hh & Eh).
  { destruct (PRText.releaseHeaderMatch existingContent) as [m|] eqn:E.
    - exists m. split; [right; apply releaseHeaderMatch_Some; exact E|reflexivity].
    - eexists. split; [left; reflexivity|reflexivity]. }
  exists header, summary, s1, (PRService.datePart (Remote.toISOString w (Remote.clock s1))), time.
  split; [reflexivity|]. split; [exact Hne|]. split; [exact D1|].
  split; [exact D2|]. split; [exact D3|].
  subst out. cbn [fst snd Remote.tick Remote.log Remote.config].
  split; [|split; [exact L1|split; [exact C1|split; [exact Hh|]]]].
  - f_equal. rewrite <- Eh.
    destruct (PRText.releaseHeaderMatch existingContent); cbn [JS.join];
      rewrite <- ?app_assoc; reflexivity.
  - intro H. apply removeAll_no_match. intro k. unfold Rx.commentGreedyAt.
    rewrite (H k). reflexivity.
Qed.

(* ====================================================================== *)
(** * The time stamp of the draft *)
(* ====================================================================== *)


Section Timestamp.

Import JS PRText.

Lemma lineRest_rest (s : str) :
  exists rest,
    s = Rx.lineRest s ++ rest /\
    (rest = [] \/ exists c t, rest = c :: t /\ isLineTerminator c = true).
Proof.
  induction s as [|x s (rest & E & R)].
  - exists []. split; [reflexivity|left; reflexivity].
  - cbn [Rx.lineRest]. destruct (isLineTerminator x) eqn:L.
    + exists (x :: s). split; [reflexivity|]. right. exists x, s. auto.
    + exists rest. split; [cbn [app]; f_equal; exact E|exact R].
Qed.

Lemma lineRest_app (a b : str) :
  (forall c, In c a -> isLineTerminator c = false) ->
  Rx.lineRest (a ++ b) = a ++ Rx.lineRest b.
Proof.
  induction a as [|x a IH]; intro H.
  - reflexivity.
  - cbn [app Rx.lineRest]. rewrite (H x) by (left; reflexivity).
    f_equal. apply IH. intros c Hc. apply H. right. exact Hc.
Qed.

Lemma lineRest_stop (rest : str) :
  rest = [] \/ (exists c t, rest = c :: t /\ isLineTerminator c = true) ->
  Rx.lineRest rest = [].
Proof.
  intros [->|(c & t & -> & L)]; [reflexivity|].
  cbn [Rx.lineRest]. rewrite L. reflexivity.
Qed.

(** A character of the line that follows [mid] is in it as well when the
    text after [mid] begins with that character. *)
Lemma lineRest_In_head (c : ascii) (mid y z : str) :
  isLineTerminator c = false ->
  In c (Rx.lineRest (mid ++ y)) -> In c (Rx.lineRest (mid ++ c :: z)).
Proof.
  intros Hc. induction mid as [|x mid IH]; intro H.
  - cbn [app Rx.lineRest]. rewrite Hc. left. reflexivity.
  - cbn [app Rx.lineRest] in H |- *. destruct (isLineTerminator x); [exact H|].
    destruct H as [H|H]; [left; exact H|right; apply IH; exact H].
Qed.

Lemma findLast_char_Some (c : ascii) (l : str) (i j : nat) :
  Rx.findLast [c] l i = Some j ->
  exists u v, l = u ++ c :: v /\ j = i + length u /\ ~ In c v.
Proof.
  revert i. induction l as [|x l IH]; intros i H.
  - cbn in H. discriminate.
  - cbn [Rx.findLast] in H. destruct (Rx.findLast [c] l (S i)) as [j'|] eqn:E.
    + injection H as ->. destruct (IH _ E) as (u & v & -> & -> & Hv).
      exists (x :: u), v. cbn [app length]. split; [reflexivity|]. split; [lia|exact Hv].
    + cbn [startsWith] in H. rewrite andb_true_r in H.
      destruct (ascii_eqb c x) eqn:Ex; [|discriminate].
      injection H as <-. apply ascii_eqb_eq in Ex. subst x.
      exists [], l. cbn [app length]. split; [reflexivity|]. split; [lia|].
      clear IH. revert i E. induction l as [|y l IHl]; intros i E.
      * intros [].
      * cbn [Rx.findLast] in E. destruct (Rx.findLast [c] l (S (S i))) eqn:E'; [discriminate|].
        cbn [startsWith] in E. rewrite andb_true_r in E.
        destruct (ascii_eqb c y) eqn:Ey; [discriminate|].
        intros [->|Hin]; [rewrite ascii_eqb_refl in Ey; discriminate|].
        exact (IHl _ E' Hin).
Qed.

Lemma findLast_char_None (c : ascii) (l : str) (i : nat) :
  Rx.findLast [c] l i = None -> ~ In c l.
Proof.
  revert i. induction l as [|y l IHl]; intros i E.
  - intros [].
  - cbn [Rx.findLast] in E. destruct (Rx.findLast [c] l (S i)) eqn:E'; [discriminate|].
    cbn [startsWith] in E. rewrite andb_true_r in E.
    destruct (ascii_eqb c y) eqn:Ey; [discriminate|].
    intros [->|Hin]; [rewrite ascii_eqb_refl in Ey; discriminate|].
    exact (IHl _ E' Hin).
Qed.

Lemma findLast_char_absent (c : ascii) (l : str) (i : nat) :
  ~ In c l -> Rx.findLast [c] l i = None.
Proof.
  intro H. destruct (Rx.findLast [c] l i) as [j|] eqn:E; [|reflexivity].
  destruct (findLast_char_Some _ _ _ _ E) as (u & v & -> & _ & _).
  exfalso. apply H. apply in_or_app. right. left. reflexivity.
Qed.

Lemma findLast_char_last (c : ascii) (u v : str) (i : nat) :
  ~ In c v -> Rx.findLast [c] (u ++ c :: v) i = Some (i + length u).
Proof.
  intro Hv. revert i. induction u as [|x u IH]; intro i.
  - cbn [app Rx.findLast]. rewrite (findLast_char_absent c v (S i) Hv).
    cbn [startsWith]. rewrite ascii_eqb_refl. cbn [andb length]. f_equal. lia.
  - cbn [app Rx.findLast]. rewrite IH. cbn [length]. f_equal. lia.
Qed.

Lemma lastUpdatedMatch_cons (x : ascii) (s : str) (i : nat) :
  lastUpdatedMatch (x :: s) i =
    match
      (if startsWith (lit "*Last updated:") (x :: s) then
         match Rx.greedyDotUntil (lit "*") (skipn 14 (x :: s)) with
         | Some k => Some (i, 14 + k + 1)
         | None => None
         end
       else None)
    with
    | Some m => Some m
    | None => lastUpdatedMatch s (S i)
    end.
Proof. reflexivity. Qed.

Lemma skipn_past (q : nat) (x : ascii) (s : str) :
  skipn (14 + S q) (x :: s) = skipn (14 + q) s.
Proof. reflexivity. Qed.

(** The match of the expression for the time stamp: the first place where
    the mark stands with a [*] after it on its line, up to the last [*]
    of that line. *)
Lemma lastUpdatedMatch_Some (s : str) (i p n : nat) :
  lastUpdatedMatch s i = Some (p, n) ->
  exists q u v,
    p = i + q /\ q <= length s /\
    startsWith (lit "*Last updated:") (skipn q s) = true /\
    Rx.lineRest (skipn (14 + q) s) = u ++ ch 42 :: v /\ ~ In (ch 42) v /\
    n = 14 + length u + 1 /\
    forall k, k < q -> startsWith (lit "*Last updated:") (skipn k s) = true ->
              ~ In (ch 42) (Rx.lineRest (skipn (14 + k) s)).
Proof.
  revert i. induction s as [|x s IH]; intros i H.
  - cbn in H. discriminate.
  - rewrite lastUpdatedMatch_cons in H.
    assert (forall P : Prop, (startsWith (lit "*Last updated:") (x :: s) = true ->
              ~ In (ch 42) (Rx.lineRest (skipn 14 (x :: s)))) ->
            lastUpdatedMatch s (S i) = Some (p, n) ->
            exists q u v,
              p = i + q /\ q <= length (x :: s) /\
              startsWith (lit "*Last updated:") (skipn q (x :: s)) = true /\
              Rx.lineRest (skipn (14 + q) (x :: s)) = u ++ ch 42 :: v /\ ~ In (ch 42) v /\
              n = 14 + length u + 1 /\
              forall k, k < q ->
                startsWith (lit "*Last updated:") (skipn k (x :: s)) = true ->
                ~ In (ch 42) (Rx.lineRest (skipn (14 + k) (x :: s)))) as Later.
    { intros _ H0 H'. destruct (IH _ H') as (q & u & v & -> & Hq & S1 & L1 & V1 & -> & F1).
      exists (S q), u, v. split; [lia|]. split; [cbn [length]; lia|].
      split; [exact S1|]. split; [rewrite skipn_past; exact L1|]. split; [exact V1|].
      split; [reflexivity|]. intros [|k] Hk Hs.
      - exact (H0 Hs).
      - rewrite skipn_past. apply F1; [lia|exact Hs]. }
    destruct (startsWith (lit "*Last updated:") (x :: s)) eqn:E.
    + unfold Rx.greedyDotUntil in H. change (lit "*") with [ch 42] in H.
      destruct (Rx.findLast [ch 42] (Rx.lineRest (skipn 14 (x :: s))) 0) as [k|] eqn:G.
      * injection H as <- <-.
        destruct (findLast_char_Some _ _ _ _ G) as (u & v & L & -> & Hv).
        exists 0, u, v. split; [lia|]. split; [lia|]. split; [exact E|].
        split; [exact L|]. split; [exact Hv|]. split; [reflexivity|].
        intros k Hk. lia.
      * apply (Later True); [|exact H]. intros _.
        exact (findLast_char_None _ _ _ G).
    + apply (Later True); [|exact H]. intro. discriminate.
Qed.

Lemma lastUpdatedMatch_first (s : str) (i q : nat) (u v : str) :
  startsWith (lit "*Last updated:") (skipn q s) = true ->
  Rx.lineRest (skipn (14 + q) s) = u ++ ch 42 :: v -> ~ In (ch 42) v ->
  (forall k, k < q -> startsWith (lit "*Last updated:") (skipn k s) = true ->
             ~ In (ch 42) (Rx.lineRest (skipn (14 + k) s))) ->
  lastUpdatedMatch s i = Some (i + q, 14 + length u + 1).
Proof.
  revert i q. induction s as [|x s IH]; intros i q S1 L1 V1 F1.
  - rewrite skipn_nil in S1. cbn in S1. discriminate.
  - rewrite lastUpdatedMatch_cons. destruct q as [|q].
    + cbn [skipn] in S1. rewrite S1. unfold Rx.greedyDotUntil.
      change (skipn (14 + 0) (x :: s)) with (skipn 14 (x :: s)) in L1.
      rewrite L1. change (lit "*") with [ch 42].
      rewrite (findLast_char_last (ch 42) u v 0 V1).
      f_equal. f_equal; lia.
    + assert ((if startsWith (lit "*Last updated:") (x :: s) then
                 match Rx.greedyDotUntil (lit "*") (skipn 14 (x :: s)) with
                 | Some k => Some (i, 14 + k + 1)
                 | None => None
                 end
               else None) = None) as N.
      { destruct (startsWith (lit "*Last updated:") (x :: s)) eqn:E; [|reflexivity].
        unfold Rx.greedyDotUntil. change (lit "*") with [ch 42].
        pose proof (F1 0 ltac:(lia) E) as A.
        change (skipn (14 + 0) (x :: s)) with (skipn 14 (x :: s)) in A.
        rewrite (findLast_char_absent (ch 42) _ 0 A). reflexivity. }
      rewrite N. rewrite (IH (S i) q).
      * f_equal. f_equal. lia.
      * exact S1.
      * rewrite skipn_past in L1. exact L1.
      * exact V1.
      * intros k Hk Hs. rewrite <- (skipn_past k x s). apply F1; [lia|exact Hs].
Qed.

Lemma startsWith_nth (p s : str) :
  startsWith p s = true -> forall d, d < length p -> nth_error s d = nth_error p d.
Proof.
  intro H. apply startsWith_iff in H. destruct H as [r ->].
  intros d Hd. apply nth_error_app1. exact Hd.
Qed.

(** The mark holds its [*] at its head only: it does not stand at a place
    from which a [*] follows within its length. *)
Lemma mark_apart (b r : str) :
  0 < length b < 14 -> startsWith (lit "*Last updated:") (b ++ ch 42 :: r) = false.
Proof.
  intros Hb. destruct (startsWith (lit "*Last updated:") (b ++ ch 42 :: r)) eqn:E;
    [|reflexivity].
  pose proof (startsWith_nth _ _ E (length b)) as H.
  rewrite nth_error_app2 in H by lia. rewrite Nat.sub_diag in H. cbn [nth_error] in H.
  assert (length (lit "*Last updated:") = 14) as L by reflexivity.
  specialize (H ltac:(lia)).
  destruct (length b) as [|n]; [lia|].
  do 13 (destruct n as [|n]; [vm_compute in H; discriminate|]). lia.
Qed.

Lemma first_mark_transfer (before x x' : str) :
  (forall k, k < length before ->
     startsWith (lit "*Last updated:") (skipn k (before ++ lit "*Last updated:" ++ x)) = true ->
     ~ In (ch 42) (Rx.lineRest (skipn (14 + k) (before ++ lit "*Last updated:" ++ x)))) ->
  forall k, k < length before ->
    startsWith (lit "*Last updated:") (skipn k (before ++ lit "*Last updated:" ++ x')) = true ->
    ~ In (ch 42) (Rx.lineRest (skipn (14 + k) (before ++ lit "*Last updated:" ++ x'))).
Proof.
  intros F k Hk Hs.
  assert (forall y, skipn k (before ++ lit "*Last updated:" ++ y)
                    = skipn k before ++ ch 42 :: lit "Last updated:" ++ y) as Sk.
  { intro y. rewrite skipn_app. replace (k - length before) with 0 by lia. reflexivity. }
  assert (length (skipn k before) = length before - k) as Lb by apply length_skipn.
  rewrite Sk in Hs.
  destruct (Nat.lt_ge_cases (length (skipn k before)) 14) as [Short|Long].
  - rewrite mark_apart in Hs by lia. discriminate.
  - assert (forall y, skipn (14 + k) (before ++ lit "*Last updated:" ++ y)
                      = skipn (14 + k) before ++ ch 42 :: lit "Last updated:" ++ y) as Sm.
    { intro y. rewrite skipn_app. replace (14 + k - length before) with 0 by lia.
      reflexivity. }
    rewrite Sm. intro H.
    apply (F k Hk).
    + rewrite Sk. rewrite startsWith_within in Hs |- * by exact Long. exact Hs.
    + rewrite Sm. revert H. apply lineRest_In_head. reflexivity.
Qed.

Lemma timestamp_parts (s : str) (p n : nat) :
  lastUpdatedMatch s 0 = Some (p, n) ->
  exists before u v rest,
    s = before ++ lit "*Last updated:" ++ u ++ ch 42 :: v ++ rest /\
    p = length before /\ n = 14 + length u + 1 /\
    (forall c, In c u -> isLineTerminator c = false) /\
    (forall c, In c v -> isLineTerminator c = false) /\
    ~ In (ch 42) v /\
    (rest = [] \/ exists c t, rest = c :: t /\ isLineTerminator c = true) /\
    forall k, k < length before ->
      startsWith (lit "*Last updated:") (skipn k s) = true ->
      ~ In (ch 42) (Rx.lineRest (skipn (14 + k) s)).
Proof.
  intro H. destruct (lastUpdatedMatch_Some _ _ _ _ H)
    as (q & u & v & -> & Hq & S1 & L1 & V1 & -> & F1).
  destruct (lineRest_rest (skipn (14 + q) s)) as (rest & E & R).
  destruct (lineRest_prefix (skipn (14 + q) s)) as [_ T].
  rewrite L1 in E, T.
  assert (length (firstn q s) = q) as Lq by (apply firstn_length_le; exact Hq).
  exists (firstn q s), u, v, rest. rewrite Lq.
  split; [|split; [reflexivity|split; [reflexivity|split; [|split; [|split; [exact V1|
    split; [exact R|exact F1]]]]]]].
  - rewrite <- (firstn_skipn q s) at 1. f_equal.
    rewrite (startsWith_split _ _ S1) at 1. f_equal.
    change (length (lit "*Last updated:")) with 14. rewrite skipn_skipn.
    rewrite E. rewrite <- app_assoc. reflexivity.
  - intros c Hc. apply T. apply in_or_app. left. exact Hc.
  - intros c Hc. apply T. apply in_or_app. right. right. exact Hc.
Qed.

Lemma timestamp_found (before u v rest : str) :
  (forall c, In c u -> isLineTerminator c = false) ->
  (forall c, In c v -> isLineTerminator c = false) ->
  ~ In (ch 42) v ->
  (rest = [] \/ exists c t, rest = c :: t /\ isLineTerminator c = true) ->
  (forall k, k < length before ->
     startsWith (lit "*Last updated:")
       (skipn k (before ++ lit "*Last updated:" ++ u ++ ch 42 :: v ++ rest)) = true ->
     ~ In (ch 42)
         (Rx.lineRest
            (skipn (14 + k) (before ++ lit "*Last updated:" ++ u ++ ch 42 :: v ++ rest)))) ->
  lastUpdatedMatch (before ++ lit "*Last updated:" ++ u ++ ch 42 :: v ++ rest) 0
    = Some (length before, 14 + length u + 1).
Proof.
  intros Tu Tv V R F.
  apply (lastUpdatedMatch_first _ 0 (length before) u v).
  - rewrite skipn_length_app. apply startsWith_app.
  - rewrite <- skipn_skipn. rewrite skipn_length_app.
    change (skipn 14 (lit "*Last updated:" ++ u ++ ch 42 :: v ++ rest))
      with (u ++ ch 42 :: v ++ rest).
    rewrite lineRest_app by exact Tu. f_equal.
    cbn [Rx.lineRest].
    assert (isLineTerminator (ch 42) = false) as N by reflexivity. rewrite N. f_equal.
    rewrite lineRest_app by exact Tv. rewrite (lineRest_stop rest R). apply app_nil_r.
  - exact V.
  - exact F.
Qed.

Lemma updateTimestamp_found (before matched after timestamp : str) (n : nat) :
  lastUpdatedMatch (before ++ matched ++ after) 0 = Some (length before, n) ->
  length matched = n ->
  ~ In DOLLAR timestamp ->
  updateTimestamp (before ++ matched ++ after) timestamp
    = before ++ lit "*Last updated: " ++ timestamp ++ lit "*" ++ after.
Proof.
  intros H Hn Hd. unfold updateTimestamp. rewrite H.
  rewrite firstn_length_app. f_equal.
  rewrite getSubstitution_plain.
  - rewrite (Nat.add_comm (length before) n). rewrite <- skipn_skipn.
    rewrite skipn_length_app. rewrite <- Hn.
    rewrite skipn_length_app. rewrite <- !app_assoc. reflexivity.
  - intro Hin. apply in_app_or in Hin. destruct Hin as [Hin|Hin].
    + vm_compute in Hin. repeat (destruct Hin as [Hin|Hin]; [discriminate|]). exact Hin.
    + apply in_app_or in Hin. destruct Hin as [Hin|Hin]; [exact (Hd Hin)|].
      vm_compute in Hin. repeat (destruct Hin as [Hin|Hin]; [discriminate|]). exact Hin.
Qed.

Lemma updateTimestamp_stamp (before u v rest t : str) :
  (forall c, In c u -> isLineTerminator c = false) ->
  (forall c, In c v -> isLineTerminator c = false) ->
  ~ In (ch 42) v ->
  (rest = [] \/ exists c t, rest = c :: t /\ isLineTerminator c = true) ->
  (forall k, k < length before ->
     startsWith (lit "*Last updated:")
       (skipn k (before ++ lit "*Last updated:" ++ u ++ ch 42 :: v ++ rest)) = true ->
     ~ In (ch 42)
         (Rx.lineRest
            (skipn (14 + k) (before ++ lit "*Last updated:" ++ u ++ ch 42 :: v ++ rest)))) ->
  ~ In DOLLAR t ->
  updateTimestamp (before ++ lit "*Last updated:" ++ u ++ ch 42 :: v ++ rest) t
    = before ++ lit "*Last updated: " ++ t ++ lit "*" ++ v ++ rest.
Proof.
  intros Tu Tv V R F Dt.
  pose proof (timestamp_found before u v rest Tu Tv V R F) as H.
  assert (lit "*Last updated:" ++ u ++ ch 42 :: v ++ rest
          = (lit "*Last updated:" ++ u ++ [ch 42]) ++ v ++ rest) as E
    by (rewrite <- !app_assoc; reflexivity).
  rewrite E in H |- *.
  apply (updateTimestamp_found before _ (v ++ rest) t _ H); [|exact Dt].
  rewrite !length_app. cbn [length]. change (length (lit "*Last updated:")) with 14. lia.
Qed.

(** A body without the mark has no match. *)
Lemma lastUpdatedMatch_absent (s : str) :
  (forall k, startsWith (lit "*Last updated:") (skipn k s) = false) ->
  lastUpdatedMatch s 0 = None.
Proof.
  intro H. destruct (lastUpdatedMatch s 0) as [[p n]|] eqn:E; [|reflexivity].
  destruct (lastUpdatedMatch_Some _ _ _ _ E) as (q & _ & _ & _ & _ & S1 & _).
  rewrite H in S1. discriminate.
Qed.

End Timestamp.

(** X18. The time stamp of the body is refreshed, not accumulated.  A body
    without the mark [*Last updated:] is left as it is.  At the first
    place where the mark stands with a [*] after it on its line, what lies
    from the mark to the last [*] of that line is replaced by the mark and
    the new time, and the text before and after is kept.  Stamping twice
    is stamping with the later time.  (The times hold no [$] and lie on
    one line, as those of [toISOString] do.) *)
Theorem updateTimestamp_refreshes (prBody t1 t2 : JS.str) :
  ~ In JS.DOLLAR t1 ->
  (forall c, In c t1 -> JS.isLineTerminator c = false) ->
  ~ In JS.DOLLAR t2 ->
  ((forall k, JS.startsWith (JS.lit "*Last updated:") (skipn k prBody) = false) ->
   PRText.updateTimestamp prBody t1 = prBody) /\
  (forall before old after,
     prBody = before ++ JS.lit "*Last updated:" ++ old ++ JS.lit "*" ++ after ->
     (forall c, In c old -> JS.isLineTerminator c = false) ->
     ~ In (JS.ch 42) (Rx.lineRest after) ->
     (forall k, k < length before ->
        JS.startsWith (JS.lit "*Last updated:") (skipn k prBody) = true ->
        ~ In (JS.ch 42) (Rx.lineRest (skipn (14 + k) prBody))) ->
     PRText.updateTimestamp prBody t1
       = before ++ JS.lit "*Last updated: " ++ t1 ++ JS.lit "*" ++ after) /\
  PRText.updateTimestamp (PRText.updateTimestamp prBody t1) t2
    = PRText.updateTimestamp prBody t2.
Proof.
  intros D1 T1 D2.
  split; [|split].
  - intro H. unfold PRText.updateTimestamp.
    rewrite (lastUpdatedMatch_absent prBody H). reflexivity.
  - intros before old after -> To Va F.
    destruct (lineRest_rest after) as (rest & E & R).
    destruct (lineRest_prefix after) as [_ Tv].
    rewrite E. change (JS.lit "*" ++ Rx.lineRest after ++ rest)
      with (JS.ch 42 :: Rx.lineRest after ++ rest).
    apply updateTimestamp_stamp; try assumption.
    rewrite E in F. exact F.
  - destruct (PRText.lastUpdatedMatch prBody 0) as [[p n]|] eqn:E.
    + destruct (timestamp_parts _ _ _ E)
        as (before & u & v & rest & -> & _ & _ & Tu & Tv & V & R & F).
      rewrite !(updateTimestamp_stamp before u v rest) by assumption.
      change (before ++ JS.lit "*Last updated: " ++ t1 ++ JS.lit "*" ++ v ++ rest)
        with (before ++ JS.lit "*Last updated:" ++ (JS.ch 32 :: t1) ++ JS.ch 42 :: v ++ rest).
      apply updateTimestamp_stamp; try assumption.
      * intros c [<-|Hc]; [reflexivity|apply T1; exact Hc].
      * apply (first_mark_transfer before (u ++ JS.ch 42 :: v ++ rest)). exact F.
    + assert (PRText.updateTimestamp prBody t1 = prBody) as N
        by (unfold PRText.updateTimestamp; rewrite E; reflexivity).
      rewrite N. reflexivity.
Qed.

(** The closing lines of a draft, stamped, and stamped again. *)
Lemma updateTimestamp_refreshes_witness :
  PRText.updateTimestamp
    (JS.lit "- Login page" ++ [JS.LF] ++ JS.lit "*Draft.*" ++ [JS.LF] ++
     JS.lit "*Last updated: {timestamp}*" ++ [JS.LF] ++ JS.lit "*Thanks*")
    (JS.lit "2025-03-01T12:00:00.000Z")
    = JS.lit "- Login page" ++ [JS.LF] ++ JS.lit "*Draft.*" ++ [JS.LF] ++
      JS.lit "*Last updated: 2025-03-01T12:00:00.000Z*" ++ [JS.LF] ++ JS.lit "*Thanks*" /\
  PRText.updateTimestamp
    (PRText.updateTimestamp
       (JS.lit "- Login page" ++ [JS.LF] ++ JS.lit "*Draft.*" ++ [JS.LF] ++
        JS.lit "*Last updated: {timestamp}*" ++ [JS.LF] ++ JS.lit "*Thanks*")
       (JS.lit "2025-03-01T12:00:00.000Z"))
    (JS.lit "2025-03-02T08:30:00.000Z")
    = JS.lit "- Login page" ++ [JS.LF] ++ JS.lit "*Draft.*" ++ [JS.LF] ++
      JS.lit "*Last updated: 2025-03-02T08:30:00.000Z*" ++ [JS.LF] ++ JS.lit "*Thanks*".
Proof.
  set (body := JS.lit "- Login page" ++ [JS.LF] ++ JS.lit "*Draft.*" ++ [JS.LF] ++
               JS.lit "*Last updated: {timestamp}*" ++ [JS.LF] ++ JS.lit "*Thanks*").
  assert (forall t : JS.str, forallb (fun c => negb (JS.ascii_eqb c JS.DOLLAR)) t = true ->
                             ~ In JS.DOLLAR t) as NoDollar.
  { intros t H Hin. rewrite forallb_forall in H. specialize (H _ Hin).
    rewrite ascii_eqb_refl in H. discriminate. }
  assert (forall t : JS.str, forallb (fun c => negb (JS.isLineTerminator c)) t = true ->
                             forall c, In c t -> JS.isLineTerminator c = false) as OneLine.
  { intros t H c Hin. rewrite forallb_forall in H. apply negb_true_iff. apply H. exact Hin. }
  destruct (updateTimestamp_refreshes body
              (JS.lit "2025-03-01T12:00:00.000Z") (JS.lit "2025-03-02T08:30:00.000Z")
              (NoDollar (JS.lit "2025-03-01T12:00:00.000Z") eq_refl)
              (OneLine (JS.lit "2025-03-01T12:00:00.000Z") eq_refl)
              (NoDollar (JS.lit "2025-03-02T08:30:00.000Z") eq_refl))
    as (_ & First & Twice).
  split.
  - apply (First (JS.lit "- Login page" ++ [JS.LF] ++ JS.lit "*Draft.*" ++ [JS.LF])
                 (JS.lit " {timestamp}") ([JS.LF] ++ JS.lit "*Thanks*")).
    + reflexivity.
    + apply OneLine. reflexivity.
    + intros [].
    + intros k Hk. do 22 (destruct k as [|k]; [discriminate|]). cbn in Hk. lia.
  - rewrite Twice.
    destruct (updateTimestamp_refreshes body
              (JS.lit "2025-03-02T08:30:00.000Z") (JS.lit "2025-03-02T08:30:00.000Z")
              (NoDollar (JS.lit "2025-03-02T08:30:00.000Z") eq_refl)
              (OneLine (JS.lit "2025-03-02T08:30:00.000Z") eq_refl)
              (NoDollar (JS.lit "2025-03-02T08:30:00.000Z") eq_refl))
      as (_ & Again & _).
    apply (Again (JS.lit "- Login page" ++ [JS.LF] ++ JS.lit "*Draft.*" ++ [JS.LF])
                 (JS.lit " {timestamp}") ([JS.LF] ++ JS.lit "*Thanks*")).
    + reflexivity.
    + apply OneLine. reflexivity.
    + intros [].
    + intros k Hk. do 22 (destruct k as [|k]; [discriminate|]). cbn in Hk. lia.
Defined.
